(** * gh-review: diff-hunk parsing, position mapping and patch creation

    A shallow embedding of the Go packages [diffhunk], [diffposition] and of
    [Applier.createPatch] / [Applier.saveMismatchDiff] from package
    [applier], followed by the properties of the specification. Also
    embedded are [GetModifiedContentFromDiffHunk] and [GetRemovedLines] of
    [diffhunk], [CalculateCommentPosition] of [diffposition],
    [calculateOriginalLines] of [github] and [ParseSuggestion] of [parser],
    with further properties of the code in the last part.

    Conventions of the embedding:
    - a Go [string] is a Rocq [string] (a sequence of bytes); the regular
      expressions of the source only look at ASCII bytes, so matching bytes
      and matching runes coincide;
    - a Go [int] is a [Z] in the 64-bit range, and every [+], [-] and [++] of
      the source is [GoInt.add] / [GoInt.sub], which wrap around;
    - [len(xs)] is [GoInt.len xs], the exact length, and a loop
      [for i := lo; i < hi; i++] runs over the exact range [zrange lo hi];
      that a slice of lines is one that Go can hold is the hypothesis
      [GoInt.fits] of the statements that need it;
    - an index expression [xs[i]] that is out of range is the run-time
      panic of Go, the outcome [Panic]. *)

From Stdlib Require Import ZArith List String Ascii Lia Bool DecimalString.
From Stdlib Require Import DecimalPos.
Import ListNotations.

Open Scope Z_scope.

(** ** Go integers *)

Module GoInt.

Definition maxInt : Z := 9223372036854775807.
Definition minInt : Z := -9223372036854775808.
Definition modulus : Z := 18446744073709551616.

(** Two's complement reduction of a mathematical integer to an [int]. *)
Definition wrap (z : Z) : Z := (z - minInt) mod modulus + minInt.

Definition add (a b : Z) : Z := wrap (a + b).
Definition sub (a b : Z) : Z := wrap (a - b).

Arguments wrap : simpl never.
Arguments add : simpl never.
Arguments sub : simpl never.

Definition inRange (z : Z) : Prop := minInt <= z <= maxInt.

Definition len {A : Type} (xs : list A) : Z := Z.of_nat (List.length xs).

(** [fits xs]: the lines are few enough to be a Go slice of strings,
    which holds a 16-byte string header for each of them within the
    address space. *)
Definition fits (xs : list string) : Prop := 16 * len xs <= maxInt.

End GoInt.

(** ** The pieces of package [strings], [strconv] and [fmt] the code uses *)

Module GoStrings.

Definition newline : ascii := "010"%char.
Definition nl : string := String newline EmptyString.

(** [strings.Split(s, "\n")]: never empty, [Split("")] is one empty string. *)
Fixpoint Split (s : string) : list string :=
  match s with
  | EmptyString => [EmptyString]
  | String c rest =>
      if Ascii.eqb c newline then EmptyString :: Split rest
      else match Split rest with
           | [] => [String c EmptyString]
           | l :: ls => String c l :: ls
           end
  end.

(** [strings.TrimSuffix(s, "\n")]: removes one trailing newline. *)
Fixpoint TrimSuffix (s : string) : string :=
  match s with
  | EmptyString => EmptyString
  | String c rest =>
      match rest with
      | EmptyString => if Ascii.eqb c newline then EmptyString else s
      | String _ _ => String c (TrimSuffix rest)
      end
  end.

(** [fmt.Sprintf("%d", z)]. *)
Definition itoa (z : Z) : string := NilEmpty.string_of_int (Z.to_int z).

(** [fmt.Sprintf("%v", b)] for a [bool]. *)
Definition btoa (b : bool) : string := if b then "true"%string else "false"%string.

Definition isDigit (c : ascii) : bool :=
  let n := nat_of_ascii c in (Nat.leb 48 n && Nat.leb n 57)%bool.

(** The class [\s] of Go's regexp: tab, newline, form feed, carriage
    return and space. *)
Definition isSpace (c : ascii) : bool :=
  let n := nat_of_ascii c in
  (Nat.eqb n 9 || Nat.eqb n 10 || Nat.eqb n 12 || Nat.eqb n 13 || Nat.eqb n 32)%bool.

Definition digitValue (c : ascii) : Z := Z.of_nat (nat_of_ascii c) - 48.

Fixpoint decimal (acc : Z) (s : string) : Z :=
  match s with
  | EmptyString => acc
  | String c rest => decimal (acc * 10 + digitValue c) rest
  end.

(** [strconv.Atoi] on a non-empty string of digits, the error dropped as
    the callers do: a value out of range comes back as the largest [int]. *)
Definition Atoi (s : string) : Z := Z.min (decimal 0 s) GoInt.maxInt.

(** Longest prefix of [s] whose bytes satisfy [p], and the rest. *)
Fixpoint span (p : ascii -> bool) (s : string) : string * string :=
  match s with
  | EmptyString => (EmptyString, EmptyString)
  | String c rest =>
      if p c then let (a, b) := span p rest in (String c a, b)
      else (EmptyString, s)
  end.

(** Every byte of [s] satisfies [p]. *)
Fixpoint allOf (p : ascii -> bool) (s : string) : bool :=
  match s with
  | EmptyString => true
  | String c rest => p c && allOf p rest
  end.

(** [p+] of a regular expression, greedy: at least one byte. *)
Definition span1 (p : ascii -> bool) (s : string) : option (string * string) :=
  match span p s with
  | (EmptyString, _) => None
  | (a, b) => Some (a, b)
  end.

(** A literal prefix. *)
Fixpoint expect (lit s : string) : option string :=
  match lit with
  | EmptyString => Some s
  | String c lit' =>
      match s with
      | EmptyString => None
      | String d s' => if Ascii.eqb c d then expect lit' s' else None
      end
  end.

End GoStrings.

(** ** Package [diffhunk] *)

Module Diffhunk.
Import GoStrings.

Inductive DiffChangeType : Type := Context | Add | Delete | Control.

Definition DiffChangeType_eqb (a b : DiffChangeType) : bool :=
  match a, b with
  | Context, Context | Add, Add | Delete, Delete | Control, Control => true
  | _, _ => false
  end.

Record DiffLine : Type := mkDiffLine {
  Type_ : DiffChangeType;
  OldLineNumber : Z;
  NewLineNumber : Z;
  Text : string;
  PositionInHunk : Z
}.

Record DiffHunk : Type := mkDiffHunk {
  OldStart : Z;
  OldLines : Z;
  NewStart : Z;
  NewLines : Z;
  Lines : list DiffLine
}.

Inductive parseError : Type :=
| EmptyDiffHunk
| InvalidHeader (line : string)
| NoHunksFound
| HunkFailed (i : nat) (e : parseError).

Inductive result (A : Type) : Type :=
| Ok (a : A)
| Err (e : parseError).
Arguments Ok {A} a.
Arguments Err {A} e.

(** The optional group [(?:,(\d+))?]: the digits when it takes part,
    the empty string when it does not. *)
Definition optCount (s : string) : string * string :=
  match expect "," s with
  | Some s' => match span1 isDigit s' with
               | Some (d, rest) => (d, rest)
               | None => (EmptyString, s)
               end
  | None => (EmptyString, s)
  end.

(** [headerRegex.FindStringSubmatch] for
    [^@@\s+-(\d+)(?:,(\d+))?\s+\+(\d+)(?:,(\d+))?\s+@@]: the four groups. *)
Definition matchHeader (line : string)
  : option (string * string * string * string) :=
  match expect "@@" line with None => None | Some s1 =>
  match span1 isSpace s1 with None => None | Some (_, s2) =>
  match expect "-" s2 with None => None | Some s3 =>
  match span1 isDigit s3 with None => None | Some (m1, s4) =>
  let (m2, s5) := optCount s4 in
  match span1 isSpace s5 with None => None | Some (_, s6) =>
  match expect "+" s6 with None => None | Some s7 =>
  match span1 isDigit s7 with None => None | Some (m3, s8) =>
  let (m4, s9) := optCount s8 in
  match span1 isSpace s9 with None => None | Some (_, s10) =>
  match expect "@@" s10 with None => None | Some _ =>
  Some (m1, m2, m3, m4)
  end end end end end end end end end.

Definition isEmpty (s : string) : bool :=
  match s with EmptyString => true | _ => false end.

(** The loop of [ParseDiffHunk] over [lines[1:]], with its three
    counters. *)
Fixpoint parseLines (lines : list string) (oldLine newLine position : Z)
  : list DiffLine :=
  match lines with
  | [] => []
  | line :: rest =>
      match line with
      | EmptyString => parseLines rest oldLine newLine position
      | String c text =>
          let position' := GoInt.add position 1 in
          if Ascii.eqb c " " then
            mkDiffLine Context oldLine newLine text position
            :: parseLines rest (GoInt.add oldLine 1) (GoInt.add newLine 1) position'
          else if Ascii.eqb c "+" then
            mkDiffLine Add (-1) newLine text position
            :: parseLines rest oldLine (GoInt.add newLine 1) position'
          else if Ascii.eqb c "-" then
            mkDiffLine Delete oldLine (-1) text position
            :: parseLines rest (GoInt.add oldLine 1) newLine position'
          else if Ascii.eqb c "\" then
            mkDiffLine Control (-1) (-1) line position
            :: parseLines rest oldLine newLine position'
          else
            mkDiffLine Context 0 0 line position
            :: parseLines rest oldLine newLine position'
      end
  end.

Definition ParseDiffHunk (hunk : string) : result DiffHunk :=
  match Split hunk with
  | [] => Err EmptyDiffHunk
  | header :: body =>
      match matchHeader header with
      | None => Err (InvalidHeader header)
      | Some (m1, m2, m3, m4) =>
          let oldStart := Atoi m1 in
          let oldLines := if isEmpty m2 then 1 else Atoi m2 in
          let newStart := Atoi m3 in
          let newLines := if isEmpty m4 then 1 else Atoi m4 in
          Ok (mkDiffHunk oldStart oldLines newStart newLines
                (parseLines body oldStart newStart 0))
      end
  end.

(** A match of [@@[^@]+@@] at the start of [s]: its length. *)
Definition matchHunkStart (s : string) : option nat :=
  match expect "@@" s with None => None | Some s1 =>
  match span1 (fun c => negb (Ascii.eqb c "@")) s1 with None => None | Some (mid, s2) =>
  match expect "@@" s2 with None => None | Some _ =>
  Some (2 + String.length mid + 2)%nat
  end end end.

(** [hunkRegex.FindAllStringIndex(patch, -1)] for [(?m)^@@[^@]+@@]: the
    start offsets of the successive matches. [pos] is the offset of [s] in
    the patch, [bol] says that [s] starts a line, and [skip] counts the
    bytes of the last match still to pass. *)
Fixpoint findHunkStarts (s : string) (pos : nat) (bol : bool) (skip : nat)
  : list nat :=
  match s with
  | EmptyString => []
  | String c rest =>
      let bol' := Ascii.eqb c newline in
      match skip with
      | S k => findHunkStarts rest (S pos) bol' k
      | O =>
          if bol then
            match matchHunkStart s with
            | Some n => pos :: findHunkStarts rest (S pos) bol' (Nat.pred n)
            | None => findHunkStarts rest (S pos) bol' O
            end
          else findHunkStarts rest (S pos) bol' O
      end
  end.

(** [patch[start:end]] for each match, [end] being the next start or
    [len(patch)]. *)
Fixpoint hunkSlices (patch : string) (starts : list nat) : list string :=
  match starts with
  | [] => []
  | start :: more =>
      let stop := match more with
                  | next :: _ => next
                  | [] => String.length patch
                  end in
      String.substring start (stop - start) patch :: hunkSlices patch more
  end.

Fixpoint parseHunks (i : nat) (slices : list string) : result (list DiffHunk) :=
  match slices with
  | [] => Ok []
  | hunkStr :: more =>
      match ParseDiffHunk hunkStr with
      | Err e => Err (HunkFailed i e)
      | Ok hunk =>
          match parseHunks (S i) more with
          | Err e => Err e
          | Ok hunks => Ok (hunk :: hunks)
          end
      end
  end.

Definition ParsePatch (patch : string) : result (list DiffHunk) :=
  match findHunkStarts patch 0 true 0 with
  | [] => Err NoHunksFound
  | starts => parseHunks 0 (hunkSlices patch starts)
  end.

(** The two nested loops of [GetDiffLineByPosition], [nil] being [None]. *)
Fixpoint lineByPosition (lines : list DiffLine) (currentPos diffLineNumber : Z)
  : DiffLine + Z :=
  match lines with
  | [] => inr currentPos
  | line :: rest =>
      if currentPos =? diffLineNumber then inl line
      else if DiffChangeType_eqb (Type_ line) Control
           then lineByPosition rest currentPos diffLineNumber
           else lineByPosition rest (GoInt.add currentPos 1) diffLineNumber
  end.

Fixpoint hunksByPosition (hunks : list DiffHunk) (currentPos diffLineNumber : Z)
  : option DiffLine :=
  match hunks with
  | [] => None
  | hunk :: rest =>
      match lineByPosition (Lines hunk) currentPos diffLineNumber with
      | inl line => Some line
      | inr currentPos' => hunksByPosition rest currentPos' diffLineNumber
      end
  end.

Definition GetDiffLineByPosition (hunks : list DiffHunk) (diffLineNumber : Z)
  : option DiffLine :=
  hunksByPosition hunks 1 diffLineNumber.

Definition GetZeroBased (line : Z) : Z :=
  if line =? 0 then 0 else GoInt.sub line 1.

(** The loop of [GetAddedLines] over the lines after the header. *)
Fixpoint addedOf (lines : list string) : list string :=
  match lines with
  | [] => []
  | line :: rest =>
      match line with
      | EmptyString => addedOf rest
      | String c text =>
          if Ascii.eqb c "+" then text :: addedOf rest else addedOf rest
      end
  end.

Definition GetAddedLines (hunk : string) : list string :=
  match Split hunk with
  | [] => []
  | _ :: body => addedOf body
  end.

End Diffhunk.

(** ** Package [diffposition] *)

Module Diffposition.
Import Diffhunk.

(** The inner loop of [MapOldPositionToNew] over the lines of the hunk
    that contains [oldLine]: [Some r] when it returns [r], [None] when it
    runs to the end of the hunk. *)
Fixpoint walkOld (lines : list DiffLine) (currentOldLine currentNewLine oldLine : Z)
  : option Z :=
  match lines with
  | [] => None
  | line :: rest =>
      match Type_ line with
      | Context =>
          if currentOldLine =? oldLine then Some currentNewLine
          else walkOld rest (GoInt.add currentOldLine 1) (GoInt.add currentNewLine 1) oldLine
      | Delete =>
          if currentOldLine =? oldLine then Some (-1)
          else walkOld rest (GoInt.add currentOldLine 1) currentNewLine oldLine
      | Add => walkOld rest currentOldLine (GoInt.add currentNewLine 1) oldLine
      | Control => walkOld rest currentOldLine currentNewLine oldLine
      end
  end.

(** The loop of [MapOldPositionToNew] over the hunks, with its [offset]. *)
Fixpoint mapOldLoop (hunks : list DiffHunk) (offset oldLine : Z) : Z :=
  match hunks with
  | [] => GoInt.add oldLine offset
  | hunk :: rest =>
      if oldLine <? OldStart hunk then GoInt.add oldLine offset
      else if oldLine >=? GoInt.add (OldStart hunk) (OldLines hunk) then
        mapOldLoop rest (GoInt.add offset (GoInt.sub (NewLines hunk) (OldLines hunk))) oldLine
      else
        match walkOld (Lines hunk) (OldStart hunk) (NewStart hunk) oldLine with
        | Some r => r
        | None => mapOldLoop rest offset oldLine
        end
  end.

(** The error of [ParsePatch] is returned as it is (with the integer -1,
    which [Err] leaves out). *)
Definition MapOldPositionToNew (patch : string) (oldLine : Z) : result Z :=
  match ParsePatch patch with
  | Err e => Err e
  | Ok hunks =>
      match hunks with
      | first :: _ =>
          if oldLine <? OldStart first then Ok oldLine
          else Ok (mapOldLoop hunks 0 oldLine)
      | [] => Ok (mapOldLoop hunks 0 oldLine)
      end
  end.

Fixpoint walkNew (lines : list DiffLine) (currentOldLine currentNewLine newLine : Z)
  : option Z :=
  match lines with
  | [] => None
  | line :: rest =>
      match Type_ line with
      | Context =>
          if currentNewLine =? newLine then Some currentOldLine
          else walkNew rest (GoInt.add currentOldLine 1) (GoInt.add currentNewLine 1) newLine
      | Delete => walkNew rest (GoInt.add currentOldLine 1) currentNewLine newLine
      | Add =>
          if currentNewLine =? newLine then Some (-1)
          else walkNew rest currentOldLine (GoInt.add currentNewLine 1) newLine
      | Control => walkNew rest currentOldLine currentNewLine newLine
      end
  end.

Fixpoint mapNewLoop (hunks : list DiffHunk) (offset newLine : Z) : Z :=
  match hunks with
  | [] => GoInt.sub newLine offset
  | hunk :: rest =>
      if newLine <? NewStart hunk then GoInt.sub newLine offset
      else if newLine >=? GoInt.add (NewStart hunk) (NewLines hunk) then
        mapNewLoop rest (GoInt.add offset (GoInt.sub (NewLines hunk) (OldLines hunk))) newLine
      else
        match walkNew (Lines hunk) (OldStart hunk) (NewStart hunk) newLine with
        | Some r => r
        | None => mapNewLoop rest offset newLine
        end
  end.

Definition MapNewPositionToOld (patch : string) (newLine : Z) : result Z :=
  match ParsePatch patch with
  | Err e => Err e
  | Ok hunks =>
      match hunks with
      | first :: _ =>
          if newLine <? NewStart first then Ok newLine
          else Ok (mapNewLoop hunks 0 newLine)
      | [] => Ok (mapNewLoop hunks 0 newLine)
      end
  end.

(** The two tests at the head of the inner loop of [GetCommentingRanges]. *)
Definition lineNumOf (isBase : bool) (line : DiffLine) : Z :=
  if isBase then OldLineNumber line else NewLineNumber line.

Definition isCommentableOn (isBase : bool) (line : DiffLine) : bool :=
  if isBase
  then DiffChangeType_eqb (Type_ line) Delete || DiffChangeType_eqb (Type_ line) Context
  else DiffChangeType_eqb (Type_ line) Add || DiffChangeType_eqb (Type_ line) Context.

(** The inner loop of [GetCommentingRanges] over one hunk, followed by
    the closing of a range that is still open: the ranges it appends. *)
Fixpoint rangesOfLines (isBase : bool) (lines : list DiffLine)
    (rangeStart rangeEnd : Z) (inRange : bool) : list (Z * Z) :=
  match lines with
  | [] => if inRange then [(rangeStart, rangeEnd)] else []
  | line :: rest =>
      let lineNum := lineNumOf isBase line in
      if isCommentableOn isBase line && (lineNum >? 0) then
        if negb inRange then rangesOfLines isBase rest lineNum lineNum true
        else rangesOfLines isBase rest rangeStart lineNum true
      else if inRange then
        (rangeStart, rangeEnd) :: rangesOfLines isBase rest rangeStart rangeEnd false
      else rangesOfLines isBase rest rangeStart rangeEnd inRange
  end.

Fixpoint rangesOfHunks (isBase : bool) (hunks : list DiffHunk) : list (Z * Z) :=
  match hunks with
  | [] => []
  | hunk :: rest =>
      rangesOfLines isBase (Lines hunk) 0 0 false ++ rangesOfHunks isBase rest
  end.

Definition GetCommentingRanges (patch : string) (isBase : bool)
  : result (list (Z * Z)) :=
  match ParsePatch patch with
  | Err e => Err e
  | Ok hunks => Ok (rangesOfHunks isBase hunks)
  end.

End Diffposition.

(** ** Package [applier]: [createPatch] and [saveMismatchDiff]

    The calls of [debugLog] are left out: they only print, and the index
    expressions among their arguments are guarded by the loop conditions
    around them. The file system is two parameters: [readFile name] is
    what [os.ReadFile(name)] returns, [None] for an error, and
    [writeFile name data] says whether [os.WriteFile(name, data, 0o644)]
    returns without error. *)

Module Applier.
Import GoStrings Diffhunk.
Local Open Scope string_scope.
Local Open Scope Z_scope.

(** The fields of [github.ReviewComment] the two functions read. *)
Record ReviewComment : Type := mkReviewComment {
  ID : Z;
  Path : string;
  Line : Z;
  SuggestedCode : string;
  OriginalLine : Z;
  DiffHunk_ : string;
  DiffSide : string;
  HTMLURL : string;
  IsOutdated : bool
}.

Inductive applyError : Type :=
| ReadFileFailed (path : string)
| NoAddedLines
| NoContentMatch (count : Z) (first : string)
| ContentMismatch (mismatchLine : Z) (diffFile : string).

Inductive outcome (A : Type) : Type :=
| Done (a : A)
| Fail (e : applyError)
| Panic.
Arguments Done {A} a.
Arguments Fail {A} e.
Arguments Panic {A}.

Definition bind {A B : Type} (m : outcome A) (f : A -> outcome B) : outcome B :=
  match m with
  | Done a => f a
  | Fail e => Fail e
  | Panic => Panic
  end.

Notation "x <- m ;; k" := (bind m (fun x => k))
  (at level 61, m at next level, right associativity).

(** [xs[i]]. *)
Definition index {A : Type} (xs : list A) (i : Z) : outcome A :=
  if (i <? 0) || (i >=? GoInt.len xs) then Panic
  else match nth_error xs (Z.to_nat i) with
       | Some x => Done x
       | None => Panic
       end.

(** The values of [i] in [for i := lo; i < hi; i++]. *)
Definition zrange (lo hi : Z) : list Z :=
  map (fun k => lo + Z.of_nat k) (seq 0 (Z.to_nat (hi - lo))).

(** A loop that appends [f i] to a [strings.Builder] for each [i]. *)
Fixpoint writeEach {A : Type} (f : A -> outcome string) (xs : list A)
  : outcome string :=
  match xs with
  | [] => Done EmptyString
  | x :: rest =>
      s <- f x ;;
      t <- writeEach f rest ;;
      Done (s ++ t)
  end.

(** The loop [for _, line := range parsedHunk.Lines] of Strategy 1:
    [targetLine] when it ends, starting from -1. *)
Fixpoint firstAdded (lines : list DiffLine) : Z :=
  match lines with
  | [] => -1
  | line :: rest =>
      if DiffChangeType_eqb (Type_ line) Add
      then GetZeroBased (NewLineNumber line)
      else firstAdded rest
  end.

(** Strategy 1, position mapping: [targetLine] after it, -1 when it found
    nothing. *)
Definition positionMapping (diffHunk : string) : Z :=
  if isEmpty diffHunk then -1
  else match ParseDiffHunk diffHunk with
       | Ok parsedHunk => firstAdded (Lines parsedHunk)
       | Err _ => -1
       end.

(** The loop [for j := 0; j < len(addedLines); j++] that compares
    [fileLines[base+j]] with [addedLines[j]] and breaks at the first
    difference: [Some j] for that [j], [None] when there is none. [j] is
    the index of the head of [addedLines] in the whole slice. *)
Fixpoint firstDifference (fileLines : list string) (base j : Z)
    (addedLines : list string) : outcome (option Z) :=
  match addedLines with
  | [] => Done None
  | expected :: rest =>
      actual <- index fileLines (GoInt.add base j) ;;
      if String.eqb actual expected
      then firstDifference fileLines base (j + 1) rest
      else Done (Some j)
  end.

(** The outer loop of Strategy 2 over the offsets [idxs]: [matchStart] when
    it ends, starting from -1. *)
Fixpoint searchOffsets (fileLines addedLines : list string) (idxs : list Z)
  : outcome Z :=
  match idxs with
  | [] => Done (-1)
  | i :: more =>
      d <- firstDifference fileLines i 0 addedLines ;;
      match d with
      | None => Done i
      | Some _ => searchOffsets fileLines addedLines more
      end
  end.

(** Strategy 2, content matching. *)
Definition contentMatching (fileLines addedLines : list string) : outcome Z :=
  let last := GoInt.sub (GoInt.len fileLines) (GoInt.len addedLines) in
  matchStart <- searchOffsets fileLines addedLines (zrange 0 (last + 1)) ;;
  if matchStart =? -1 then
    first <- index addedLines 0 ;;
    Fail (NoContentMatch (GoInt.len addedLines) first)
  else Done matchStart.

(** The candidate target: Strategy 1, and Strategy 2 when Strategy 1 left
    [targetLine] at -1. *)
Definition candidate (diffHunk : string) (fileLines addedLines : list string)
  : outcome Z :=
  let targetLine := positionMapping diffHunk in
  if targetLine =? -1 then contentMatching fileLines addedLines
  else Done targetLine.

Definition marker (line mismatchLine : Z) : string :=
  if line =? mismatchLine then "!" else " ".

(** One line [# <marker> [<number>] <text>] of the two listings. *)
Definition listingEntry (targetLine mismatchLine i : Z) (text : string) : string :=
  let number := GoInt.add (GoInt.add targetLine i) 1 in
  "# " ++ marker number mismatchLine ++ " [" ++ itoa number ++ "] " ++ text ++ nl.

(** [for i, line := range expectedLines]. *)
Fixpoint expectedListing (targetLine mismatchLine i : Z) (expectedLines : list string)
  : string :=
  match expectedLines with
  | [] => EmptyString
  | line :: rest =>
      listingEntry targetLine mismatchLine i line
      ++ expectedListing targetLine mismatchLine (i + 1) rest
  end.

(** [for i := 0; i < len(expectedLines) && targetLine+i < len(fileLines); i++]. *)
Fixpoint actualListing (fileLines : list string) (targetLine mismatchLine : Z)
    (idxs : list Z) : outcome string :=
  match idxs with
  | [] => Done EmptyString
  | i :: more =>
      if GoInt.add targetLine i <? GoInt.len fileLines then
        actual <- index fileLines (GoInt.add targetLine i) ;;
        rest <- actualListing fileLines targetLine mismatchLine more ;;
        Done (listingEntry targetLine mismatchLine i actual ++ rest)
      else Done EmptyString
  end.

(** The lines [fileLines[i]] for [lo <= i < hi] and [i < len(fileLines)],
    each after [prefix] and before a newline. *)
Definition fileRange (prefix : string) (fileLines : list string) (lo hi : Z)
  : outcome string :=
  writeEach (fun i => line <- index fileLines i ;; Done (prefix ++ line ++ nl))
            (zrange lo (Z.min hi (GoInt.len fileLines))).

(** [for _, line := range lines { b.WriteString(prefix + line + "\n") }]. *)
Fixpoint prefixed (prefix : string) (lines : list string) : string :=
  match lines with
  | [] => EmptyString
  | line :: rest => (prefix ++ line ++ nl) ++ prefixed prefix rest
  end.

(** The text [saveMismatchDiff] builds in [diff]. *)
Definition mismatchDiff (comment : ReviewComment) (fileLines : list string)
    (targetLine : Z) (expectedLines : list string) (mismatchLine : Z)
  : outcome string :=
  let count := GoInt.len expectedLines in
  let heading :=
    "# Diagnostic diff for comment ID " ++ itoa (ID comment) ++ nl
    ++ "# File: " ++ Path comment ++ nl
    ++ "# Comment URL: " ++ HTMLURL comment ++ nl
    ++ "# Mismatch at line: " ++ itoa mismatchLine ++ nl
    ++ "# Comment info: Line=" ++ itoa (Line comment)
    ++ ", OriginalLine=" ++ itoa (OriginalLine comment)
    ++ ", DiffSide=" ++ DiffSide comment
    ++ ", IsOutdated=" ++ btoa (IsOutdated comment) ++ nl
    ++ "#" ++ nl
    ++ "# Original diff hunk from GitHub:" ++ nl
    ++ prefixed "# " (Split (DiffHunk_ comment))
    ++ "#" ++ nl
    ++ "# EXPECTED (from GitHub review):" ++ nl in
  let expected := expectedListing targetLine mismatchLine 0 expectedLines in
  actual <- actualListing fileLines targetLine mismatchLine (zrange 0 count) ;;
  let contextStart :=
    let c := GoInt.sub targetLine 5 in if c <? 0 then 0 else c in
  let contextEnd :=
    let c := GoInt.add (GoInt.add targetLine count) 5 in
    if c >? GoInt.len fileLines then GoInt.len fileLines else c in
  let unified :=
    "--- a/" ++ Path comment ++ " (expected based on review)" ++ nl
    ++ "+++ b/" ++ Path comment ++ " (actual current content)" ++ nl
    ++ "@@ -" ++ itoa (GoInt.add targetLine 1) ++ "," ++ itoa count
    ++ " +" ++ itoa (GoInt.add targetLine 1) ++ "," ++ itoa count ++ " @@" ++ nl in
  before <- fileRange " " fileLines contextStart targetLine ;;
  found <- fileRange "+" fileLines targetLine (GoInt.add targetLine count) ;;
  after <- fileRange " " fileLines (GoInt.add targetLine count) contextEnd ;;
  Done (heading ++ expected
        ++ "#" ++ nl
        ++ "# ACTUAL (current file content):" ++ nl
        ++ actual
        ++ "#" ++ nl
        ++ "# Unified diff (proper format):" ++ nl
        ++ "#" ++ nl
        ++ unified ++ before ++ prefixed "-" expectedLines ++ found ++ after
        ++ nl ++ "#" ++ nl
        ++ "# Suggested change from review:" ++ nl
        ++ "#" ++ nl
        ++ prefixed "# > " (Split (SuggestedCode comment))).

(** [saveMismatchDiff] writes that text to the diagnostic file of the
    comment and returns the name of the file, or the empty string when
    the file could not be written. *)
Definition saveMismatchDiff (writeFile : string -> string -> bool)
    (comment : ReviewComment) (fileLines : list string)
    (targetLine : Z) (expectedLines : list string) (mismatchLine : Z)
  : outcome string :=
  let diffFile := "/tmp/gh-review-mismatch-" ++ itoa (ID comment) ++ ".diff" in
  diff <- mismatchDiff comment fileLines targetLine expectedLines mismatchLine ;;
  if writeFile diffFile diff then Done diffFile else Done EmptyString.

(** The verification of [createPatch]: nothing when the guard is false or
    the lines agree, the [ContentMismatch] error at the first
    difference. The error names the line and the diagnostic file; the
    empty name stands for the message without a file. *)
Definition verify (writeFile : string -> string -> bool) (comment : ReviewComment)
    (fileLines addedLines : list string) (targetLine : Z) : outcome unit :=
  if (targetLine >=? 0)
     && (GoInt.add targetLine (GoInt.len addedLines) <=? GoInt.len fileLines)
  then
    d <- firstDifference fileLines targetLine 0 addedLines ;;
    match d with
    | Some j =>
        let mismatchLine := GoInt.add (GoInt.add targetLine j) 1 in
        diffFile <- saveMismatchDiff writeFile comment fileLines targetLine
                                     addedLines mismatchLine ;;
        Fail (ContentMismatch mismatchLine diffFile)
    | None => Done tt
    end
  else Done tt.

(** The first half of [createPatch], from the added lines to the end of
    the verification: the target line. *)
Definition locate (writeFile : string -> string -> bool) (comment : ReviewComment)
    (fileLines : list string) : outcome Z :=
  let addedLines := GetAddedLines (DiffHunk_ comment) in
  if GoInt.len addedLines =? 0 then Fail NoAddedLines
  else
    targetLine <- candidate (DiffHunk_ comment) fileLines addedLines ;;
    _ <- verify writeFile comment fileLines addedLines targetLine ;;
    Done targetLine.

Definition suggestionLinesOf (suggestedCode : string) : list string :=
  Split (TrimSuffix suggestedCode).

Definition patchHeader (path : string) : string :=
  "diff --git a/" ++ path ++ " b/" ++ path ++ nl
  ++ "--- a/" ++ path ++ nl
  ++ "+++ b/" ++ path ++ nl.

Definition hunkHeader (oldStart oldCount newStart newCount : Z) : string :=
  "@@ -" ++ itoa oldStart ++ "," ++ itoa oldCount
  ++ " +" ++ itoa newStart ++ "," ++ itoa newCount ++ " @@" ++ nl.

(** [for i := lo; i < hi; i++ { patch.WriteString(prefix + fileLines[i] + "\n") }]. *)
Definition writeLines (prefix : string) (fileLines : list string) (lo hi : Z)
  : outcome string :=
  writeEach (fun i => line <- index fileLines i ;; Done (prefix ++ line ++ nl))
            (zrange lo hi).

(** The second half of [createPatch]: the patch around [targetLine]. *)
Definition synthesize (path : string) (fileLines : list string)
    (targetLine removeCount : Z) (suggestedCode : string) : outcome string :=
  let contextSize := 3 in
  let startLine :=
    let s := GoInt.sub targetLine contextSize in if s <? 0 then 0 else s in
  let endLine :=
    let e := GoInt.add (GoInt.add targetLine removeCount) contextSize in
    if e >? GoInt.len fileLines then GoInt.len fileLines else e in
  let oldLineCount := GoInt.sub endLine startLine in
  let suggestionLines := suggestionLinesOf suggestedCode in
  let newLineCount :=
    GoInt.add (GoInt.sub (GoInt.sub endLine startLine) removeCount)
              (GoInt.len suggestionLines) in
  before <- writeLines " " fileLines startLine targetLine ;;
  removed <- writeLines "-" fileLines targetLine (GoInt.add targetLine removeCount) ;;
  after <- writeLines " " fileLines (GoInt.add targetLine removeCount) endLine ;;
  Done (patchHeader path
        ++ hunkHeader (GoInt.add startLine 1) oldLineCount
                      (GoInt.add startLine 1) newLineCount
        ++ before ++ removed ++ prefixed "+" suggestionLines ++ after).

Definition createPatch (readFile : string -> option string)
    (writeFile : string -> string -> bool) (comment : ReviewComment)
  : outcome string :=
  match readFile (Path comment) with
  | None => Fail (ReadFileFailed (Path comment))
  | Some fileContent =>
      let fileLines := Split fileContent in
      targetLine <- locate writeFile comment fileLines ;;
      synthesize (Path comment) fileLines targetLine
                 (GoInt.len (GetAddedLines (DiffHunk_ comment)))
                 (SuggestedCode comment)
  end.

End Applier.

(** ** The vocabulary of the specification

    Definitions that follow the words of the specification, to state its
    properties about the functions above. *)

Module Spec.
Import GoStrings Diffhunk Diffposition Applier.

(** *** Replaying a hunk (data model, Hunk invariant) *)

(** Context advances both cursors, Delete the old one, Add the new one,
    Control neither. The cursors are Go integers. *)
Definition replayStep (cursors : Z * Z) (line : DiffLine) : Z * Z :=
  let (oldCursor, newCursor) := cursors in
  match Type_ line with
  | Context => (GoInt.add oldCursor 1, GoInt.add newCursor 1)
  | Delete => (GoInt.add oldCursor 1, newCursor)
  | Add => (oldCursor, GoInt.add newCursor 1)
  | Control => (oldCursor, newCursor)
  end.

Definition replay (hunk : DiffHunk) : Z * Z :=
  fold_left replayStep (Lines hunk) (OldStart hunk, NewStart hunk).

Definition onOldSide (line : DiffLine) : bool :=
  match Type_ line with Context | Delete => true | _ => false end.

Definition onNewSide (line : DiffLine) : bool :=
  match Type_ line with Context | Add => true | _ => false end.

Definition oldCount (lines : list DiffLine) : Z :=
  GoInt.len (filter onOldSide lines).

Definition newCount (lines : list DiffLine) : Z :=
  GoInt.len (filter onNewSide lines).

(** The lines of the text of a hunk, after its header, that stand for a
    line of the old file: those that are not blank and start with neither
    [+] nor [\]. And those that stand for a line of the new file: not
    blank, starting with neither [-] nor [\]. *)
Definition standsForOld (line : string) : bool :=
  match line with
  | EmptyString => false
  | String c _ => negb (Ascii.eqb c "+") && negb (Ascii.eqb c "\")
  end.

Definition standsForNew (line : string) : bool :=
  match line with
  | EmptyString => false
  | String c _ => negb (Ascii.eqb c "-") && negb (Ascii.eqb c "\")
  end.

Definition oldLinesOf (hunk : string) : Z :=
  GoInt.len (filter standsForOld (tl (Split hunk))).

Definition newLinesOf (hunk : string) : Z :=
  GoInt.len (filter standsForNew (tl (Split hunk))).

(** Every line carries the cursors of the replay that starts at
    [(oldCursor, newCursor)], in exact arithmetic. *)
Fixpoint numbered (lines : list DiffLine) (oldCursor newCursor : Z) : bool :=
  match lines with
  | [] => true
  | line :: rest =>
      match Type_ line with
      | Context =>
          (OldLineNumber line =? oldCursor) && (NewLineNumber line =? newCursor)
          && numbered rest (oldCursor + 1) (newCursor + 1)
      | Delete =>
          (OldLineNumber line =? oldCursor) && numbered rest (oldCursor + 1) newCursor
      | Add =>
          (NewLineNumber line =? newCursor) && numbered rest oldCursor (newCursor + 1)
      | Control => numbered rest oldCursor newCursor
      end
  end.

(** The Hunk invariant of the data model: the lines are numbered from the
    declared starts, the declared counts are the numbers of lines on each
    side, and the last line numbers are Go integers. *)
Definition hunkInvariant (hunk : DiffHunk) : bool :=
  (0 <=? OldStart hunk) && (0 <=? NewStart hunk)
  && numbered (Lines hunk) (OldStart hunk) (NewStart hunk)
  && (oldCount (Lines hunk) =? OldLines hunk)
  && (newCount (Lines hunk) =? NewLines hunk)
  && (OldStart hunk + OldLines hunk <=? GoInt.maxInt)
  && (NewStart hunk + NewLines hunk <=? GoInt.maxInt).

(** What the two position mappings rely on: the lines are numbered from
    the declared starts, the header declares on each side at least the
    lines the body holds, and the last declared line numbers are Go
    integers. A complete hunk declares the lines of its body; a hunk that
    is cut short, as the hunk of a review comment is, declares more. *)
Definition hunkCovers (hunk : DiffHunk) : bool :=
  numbered (Lines hunk) (OldStart hunk) (NewStart hunk)
  && (oldCount (Lines hunk) <=? OldLines hunk)
  && (newCount (Lines hunk) <=? NewLines hunk)
  && (OldStart hunk + OldLines hunk <=? GoInt.maxInt)
  && (NewStart hunk + NewLines hunk <=? GoInt.maxInt).

Definition endsBefore (hunk later : DiffHunk) : bool :=
  (OldStart hunk + OldLines hunk <=? OldStart later)
  && (NewStart hunk + NewLines hunk <=? NewStart later).

(** The hunks are in file order and do not overlap, on either side. *)
Fixpoint inFileOrder (hunks : list DiffHunk) : bool :=
  match hunks with
  | [] => true
  | hunk :: rest => forallb (endsBefore hunk) rest && inFileOrder rest
  end.

(** The Patch of the data model. *)
Definition patchInvariant (hunks : list DiffHunk) : bool :=
  forallb hunkInvariant hunks && inFileOrder hunks.

(** The hunks cover their lines and stand in file order. *)
Definition patchCovers (hunks : list DiffHunk) : bool :=
  forallb hunkCovers hunks && inFileOrder hunks.

(** A line of kind [kind] of the patch. *)
Definition hasLine (hunks : list DiffHunk) (kind : DiffChangeType) (line : DiffLine)
  : Prop :=
  exists hunk, In hunk hunks /\ In line (Lines hunk) /\ Type_ line = kind.

(** *** The stream of [lineAtOverallPosition] *)

Definition isControl (line : DiffLine) : bool :=
  DiffChangeType_eqb (Type_ line) Control.

(** The concatenation of the hunks' lines, Control lines left out. *)
Definition stream (hunks : list DiffHunk) : list DiffLine :=
  filter (fun line => negb (isControl line)) (List.concat (map Lines hunks)).

(** The line at the 1-based position [n] of the stream. *)
Definition lineAtOverallPosition (hunks : list DiffHunk) (n : Z) : option DiffLine :=
  if n <? 1 then None else nth_error (stream hunks) (Z.to_nat (n - 1)).

(** *** Commentable ranges *)

(** The kinds of lines the specification selects on each side. *)
Definition selected (isBase : bool) (line : DiffLine) : bool :=
  match Type_ line with
  | Context => true
  | Delete => isBase
  | Add => negb isBase
  | Control => false
  end.

Definition key (isBase : bool) (line : DiffLine) : Z :=
  if isBase then OldLineNumber line else NewLineNumber line.

(** The lines the code lets into a range: a selected kind, and a positive
    line number on the side asked for. *)
Definition anchored (isBase : bool) (line : DiffLine) : bool :=
  selected isBase line && (0 <? key isBase line).

Definition startsWith (commentable : DiffLine -> bool) (lines : list DiffLine) : bool :=
  match lines with
  | line :: _ => commentable line
  | [] => false
  end.

(** The maximal runs of commentable lines of one hunk, in order. *)
Fixpoint runs (commentable : DiffLine -> bool) (lines : list DiffLine)
  : list (list DiffLine) :=
  match lines with
  | [] => []
  | line :: rest =>
      if commentable line then
        if startsWith commentable rest then
          match runs commentable rest with
          | run :: more => (line :: run) :: more
          | [] => [[line]]
          end
        else [line] :: runs commentable rest
      else runs commentable rest
  end.

(** The closed interval of a run: from the number of its first line to
    the number of its last line. *)
Definition interval (isBase : bool) (run : list DiffLine) : Z * Z :=
  match run with
  | [] => (0, 0)
  | first :: _ => (key isBase first, key isBase (last run first))
  end.

(** The ranges of a patch for a notion of commentable line: hunk by
    hunk, one interval for each run. *)
Definition coalesced (commentable : DiffLine -> bool) (isBase : bool)
    (hunks : list DiffHunk) : list (Z * Z) :=
  flat_map (fun hunk => map (interval isBase) (runs commentable (Lines hunk))) hunks.

(** The cursor of the side asked for. *)
Definition cursorOf (isBase : bool) (oldCursor newCursor : Z) : Z :=
  if isBase then oldCursor else newCursor.

(** Two neighbours that are both commentable carry consecutive numbers. *)
Fixpoint linked (isBase : bool) (lines : list DiffLine) : Prop :=
  match lines with
  | [] => True
  | line :: rest =>
      match rest with
      | [] => True
      | next :: _ =>
          (anchored isBase line = true -> anchored isBase next = true ->
           key isBase next = key isBase line + 1)
          /\ linked isBase rest
      end
  end.

(** Each line of the run carries the number after its predecessor's. *)
Fixpoint chained (isBase : bool) (run : list DiffLine) : Prop :=
  match run with
  | [] => True
  | line :: rest =>
      match rest with
      | [] => True
      | next :: _ =>
          key isBase next = key isBase line + 1 /\ chained isBase rest
      end
  end.

(** *** Locating the added lines *)

(** The lines [added] stand in [fileLines] at the 0-based offset [k]. *)
Definition occursAt (fileLines added : list string) (k : nat) : Prop :=
  firstn (List.length added) (skipn k fileLines) = added.

Definition occursOnlyAt (fileLines added : list string) (k : nat) : Prop :=
  occursAt fileLines added k /\ forall i, occursAt fileLines added i -> i = k.

(** [small] is a part of the text [big]. *)
Definition partOf (small big : string) : Prop :=
  exists before after, big = (before ++ small ++ after)%string.

(** The lines [lo], ..., [hi - 1] of a file, 0-based. *)
Definition slice (fileLines : list string) (lo hi : Z) : list string :=
  firstn (Z.to_nat (hi - lo)) (skipn (Z.to_nat lo) fileLines).

End Spec.

(** ** Sample inputs

    Hunks, patches and files of the specification's scenarios and of the
    test suites, and the inputs at which statements are evaluated below. *)

Module Samples.
Import GoStrings Diffhunk Applier.
Local Open Scope string_scope.

(** [unlines [l1; ...; ln]] is [l1 \n ... \n ln]. *)
Definition unlines (lines : list string) : string := String.concat nl lines.

(** Scenario 1 of the specification. *)
Definition additionHunk : string :=
  unlines ["@@ -1,3 +1,4 @@"; " context line 1"; " context line 2";
           "+added line"; " context line 3"].

Definition additionParsed : DiffHunk :=
  mkDiffHunk 1 3 1 4
    [mkDiffLine Context 1 1 "context line 1" 0;
     mkDiffLine Context 2 2 "context line 2" 1;
     mkDiffLine Add (-1) 3 "added line" 2;
     mkDiffLine Context 3 4 "context line 3" 3].

(** A hunk whose second context line is a blank physical line: its
    header counts three old and three new lines. *)
Definition blankContextHunk : string :=
  unlines ["@@ -1,3 +1,3 @@"; " a"; EmptyString; "-b"; "+c"].

Definition blankContextParsed : DiffHunk :=
  mkDiffHunk 1 3 1 3
    [mkDiffLine Context 1 1 "a" 0;
     mkDiffLine Delete 2 (-1) "b" 1;
     mkDiffLine Add (-1) 2 "c" 2].

(** The hunk "no newline marker" of the parser's test suite. *)
Definition noNewlinePatch : string :=
  unlines ["@@ -1,2 +1,2 @@"; " line 1"; "-line 2"; "\ No newline at end of file";
           "+line 2 fixed"; "\ No newline at end of file"].

Definition noNewlineParsed : DiffHunk :=
  mkDiffHunk 1 2 1 2
    [mkDiffLine Context 1 1 "line 1" 0;
     mkDiffLine Delete 2 (-1) "line 2" 1;
     mkDiffLine Control (-1) (-1) "\ No newline at end of file" 2;
     mkDiffLine Add (-1) 2 "line 2 fixed" 3;
     mkDiffLine Control (-1) (-1) "\ No newline at end of file" 4].

(** Scenario 6 of the specification. *)
Definition deletionPatch : string :=
  unlines ["@@ -10,5 +10,4 @@"; " context 1"; "-deleted 1"; "-deleted 2";
           " context 2"; " context 3"].

Definition deletionParsed : DiffHunk :=
  mkDiffHunk 10 5 10 4
    [mkDiffLine Context 10 10 "context 1" 0;
     mkDiffLine Delete 11 (-1) "deleted 1" 1;
     mkDiffLine Delete 12 (-1) "deleted 2" 2;
     mkDiffLine Context 13 11 "context 2" 3;
     mkDiffLine Context 14 12 "context 3" 4].

(** A hunk with a line that starts with none of the four markers. *)
Definition unknownMarkerPatch : string :=
  unlines ["@@ -10,3 +10,3 @@"; " a"; "Xb"; " c"].

Definition unknownMarkerParsed : DiffHunk :=
  mkDiffHunk 10 3 10 3
    [mkDiffLine Context 10 10 "a" 0;
     mkDiffLine Context 0 0 "Xb" 1;
     mkDiffLine Context 11 11 "c" 2].

(** A hunk whose header declares five old lines and one new line over
    a body of two context lines. *)
Definition miscountedPatch : string :=
  unlines ["@@ -1,5 +1,1 @@"; " a"; " b"].

Definition miscountedParsed : DiffHunk :=
  mkDiffHunk 1 5 1 1
    [mkDiffLine Context 1 1 "a" 0; mkDiffLine Context 2 2 "b" 1].

(** A hunk whose header declares one old line over a body of two
    deletions. *)
Definition twoDeletionsPatch : string :=
  unlines ["@@ -1,1 +1,0 @@"; "-a"; "-b"].

Definition twoDeletionsParsed : DiffHunk :=
  mkDiffHunk 1 1 1 0
    [mkDiffLine Delete 1 (-1) "a" 0; mkDiffLine Delete 2 (-1) "b" 1].

(** A hunk whose header declares two new lines over a body of two
    additions and none of the old file. *)
Definition twoAdditionsPatch : string :=
  unlines ["@@ -1,0 +1,1 @@"; "+a"; "+b"].

Definition twoAdditionsParsed : DiffHunk :=
  mkDiffHunk 1 0 1 1
    [mkDiffLine Add (-1) 1 "a" 0; mkDiffLine Add (-1) 2 "b" 1].

(** A hunk whose header declares one old line over a body of two context
    lines, and the two new lines from line 3. *)
Definition oneOldLinePatch : string :=
  unlines ["@@ -1,1 +3,2 @@"; " a"; " b"].

Definition oneOldLineParsed : DiffHunk :=
  mkDiffHunk 1 1 3 2
    [mkDiffLine Context 1 3 "a" 0; mkDiffLine Context 2 4 "b" 1].

(** A hunk with a line of unknown marker before a deletion: the parser
    keeps the line as a Context line without number and does not advance
    its counters. *)
Definition unnumberedPatch : string :=
  unlines ["@@ -1,3 +1,2 @@"; "Xb"; "-d"; " a"].

Definition unnumberedParsed : DiffHunk :=
  mkDiffHunk 1 3 1 2
    [mkDiffLine Context 0 0 "Xb" 0;
     mkDiffLine Delete 1 (-1) "d" 1;
     mkDiffLine Context 2 1 "a" 2].

(** Two hunks that are not in the order of the new file. *)
Definition unorderedPatch : string :=
  unlines ["@@ -1,1 +5,1 @@"; " a"; "@@ -3,1 +2,2 @@"; " b"; "+e"].

Definition unorderedParsed : list DiffHunk :=
  [mkDiffHunk 1 1 5 1 [mkDiffLine Context 1 5 "a" 0];
   mkDiffHunk 3 1 2 2
     [mkDiffLine Context 3 2 "b" 0; mkDiffLine Add (-1) 3 "e" 1]].

(** A hunk cut short after its third line: the header declares the five
    old lines and six new lines of the whole hunk. *)
Definition cutShortPatch : string :=
  unlines ["@@ -10,5 +10,6 @@"; " a"; " b"; "+c"].

Definition cutShortParsed : DiffHunk :=
  mkDiffHunk 10 5 10 6
    [mkDiffLine Context 10 10 "a" 0;
     mkDiffLine Context 11 11 "b" 1;
     mkDiffLine Add (-1) 12 "c" 2].

(** A hunk at the last lines an [int] can number: the header declares
    old lines up to one past the largest [int]. *)
Definition lastLinesPatch : string :=
  unlines ["@@ -9223372036854775806,2 +1,3 @@"; "-d"; " a"; "+b"; "+c"].

Definition lastLinesParsed : DiffHunk :=
  mkDiffHunk 9223372036854775806 2 1 3
    [mkDiffLine Delete 9223372036854775806 (-1) "d" 0;
     mkDiffLine Context 9223372036854775807 1 "a" 1;
     mkDiffLine Add (-1) 2 "b" 2;
     mkDiffLine Add (-1) 3 "c" 3].

(** A patch of two hunks: a deletion, then an addition. *)
Definition twoHunkPatch : string :=
  unlines ["@@ -10,3 +10,2 @@"; " context"; "-deleted line"; " more context";
           "@@ -20,2 +19,3 @@"; " before"; "+added line"; " after"].

Definition twoHunkParsed : list DiffHunk :=
  [mkDiffHunk 10 3 10 2
     [mkDiffLine Context 10 10 "context" 0;
      mkDiffLine Delete 11 (-1) "deleted line" 1;
      mkDiffLine Context 12 11 "more context" 2];
   mkDiffHunk 20 2 19 3
     [mkDiffLine Context 20 19 "before" 0;
      mkDiffLine Add (-1) 20 "added line" 1;
      mkDiffLine Context 21 21 "after" 2]].

(** Scenario 5 of the specification, with a line added above the
    reviewed lines after the review was made. *)
Definition reviewedHunk : string :=
  unlines ["@@ -1,3 +1,5 @@"; " a"; " b"; "+TARGET1"; "+TARGET2"; " c"].

Definition fileAtReview : list string := ["a"; "b"; "TARGET1"; "TARGET2"; "c"].

Definition fileAfterDrift : list string :=
  ["inserted above"; "a"; "b"; "TARGET1"; "TARGET2"; "c"].

(** The file cut after its third line, which was changed. *)
Definition fileCutShort : list string := ["a"; "b"; "WRONG"].

(** The same body under a header that the parser rejects. *)
Definition unparsableHunk : string :=
  unlines ["@@ stale @@"; " a"; " b"; "+TARGET1"; "+TARGET2"; " c"].

(** A hunk that declares its added lines at new lines 9 and 10, beyond
    the five lines of [fileAtReview]. *)
Definition beyondFileHunk : string :=
  unlines ["@@ -8,1 +8,3 @@"; " x"; "+TARGET1"; "+TARGET2"].

(** The patch that replaces the two reviewed lines of [fileAtReview]
    with the one line NEW1. *)
Definition reviewedPatch : string :=
  unlines ["diff --git a/main.go b/main.go"; "--- a/main.go"; "+++ b/main.go";
           "@@ -1,5 +1,4 @@"; " a"; " b"; "-TARGET1"; "-TARGET2"; "+NEW1"; " c";
           EmptyString].

Definition commentOn (diffHunk suggestedCode : string) : ReviewComment :=
  mkReviewComment 7 "main.go" 3 suggestedCode 3 diffHunk "RIGHT"
                  "https://example.test/pull/1#discussion_r7" false.

End Samples.

(** ** The rest of package [diffhunk]: [GetRemovedLines] and
    [GetModifiedContentFromDiffHunk] *)

Module DiffhunkApply.
Import GoStrings Diffhunk Applier.

(** The loop of [GetRemovedLines] over the lines after the header. *)
Fixpoint removedOf (lines : list string) : list string :=
  match lines with
  | [] => []
  | line :: rest =>
      match line with
      | EmptyString => removedOf rest
      | String c text =>
          if Ascii.eqb c "-" then text :: removedOf rest else removedOf rest
      end
  end.

Definition GetRemovedLines (hunk : string) : list string :=
  match Split hunk with
  | [] => []
  | _ :: body => removedOf body
  end.

(** The loop [for currentOldLine < hunk.OldStart] over the values [idxs]
    of [currentOldLine]: the lines it appends. *)
Fixpoint copyUnchanged (originalLines : list string) (idxs : list Z)
  : outcome (list string) :=
  match idxs with
  | [] => Done []
  | currentOldLine :: more =>
      if GoInt.sub currentOldLine 1 <? GoInt.len originalLines then
        line <- index originalLines (GoInt.sub currentOldLine 1) ;;
        rest <- copyUnchanged originalLines more ;;
        Done (line :: rest)
      else copyUnchanged originalLines more
  end.

(** The loop over the lines of one hunk: the lines it appends and
    [currentOldLine] after it. *)
Fixpoint applyLines (lines : list DiffLine) (currentOldLine : Z)
  : list string * Z :=
  match lines with
  | [] => ([], currentOldLine)
  | line :: rest =>
      match Type_ line with
      | Context =>
          let (out, cur) := applyLines rest (GoInt.add currentOldLine 1) in
          (Text line :: out, cur)
      | Add =>
          let (out, cur) := applyLines rest currentOldLine in
          (Text line :: out, cur)
      | Delete => applyLines rest (GoInt.add currentOldLine 1)
      | Control => applyLines rest currentOldLine
      end
  end.

(** The loop over the hunks. *)
Fixpoint applyHunks (originalLines : list string) (hunks : list DiffHunk)
    (currentOldLine : Z) : outcome (list string * Z) :=
  match hunks with
  | [] => Done ([], currentOldLine)
  | hunk :: rest =>
      before <- copyUnchanged originalLines (zrange currentOldLine (OldStart hunk)) ;;
      let reached :=
        if currentOldLine <? OldStart hunk then OldStart hunk else currentOldLine in
      let (body, cur) := applyLines (Lines hunk) reached in
      r <- applyHunks originalLines rest cur ;;
      Done ((before ++ body ++ fst r)%list, snd r)
  end.

(** The loop [for currentOldLine <= len(originalLines)]. *)
Fixpoint copyRemaining (originalLines : list string) (idxs : list Z)
  : outcome (list string) :=
  match idxs with
  | [] => Done []
  | currentOldLine :: more =>
      line <- index originalLines (GoInt.sub currentOldLine 1) ;;
      rest <- copyRemaining originalLines more ;;
      Done (line :: rest)
  end.

(** [strings.Join(lines, "\n")]. *)
Definition Join (lines : list string) : string := String.concat nl lines.

(** [GetModifiedContentFromDiffHunk]: [Done (Ok content)], or
    [Done (Err e)] for the error of [ParsePatch], or the panic of an index
    out of range. *)
Definition GetModifiedContentFromDiffHunk (originalContent patch : string)
  : outcome (result string) :=
  match ParsePatch patch with
  | Err e => Done (Err e)
  | Ok hunks =>
      let originalLines := Split originalContent in
      r <- applyHunks originalLines hunks 1 ;;
      remaining <- copyRemaining originalLines
                     (zrange (snd r) (GoInt.len originalLines + 1)) ;;
      Done (Ok (Join (fst r ++ remaining)%list))
  end.

End DiffhunkApply.

(** ** The rest of package [diffposition]: [CalculateCommentPosition] *)

Module CommentPositions.
Import GoStrings Diffhunk Diffposition.

Definition DiffSideLeft : string := "LEFT".
Definition DiffSideRight : string := "RIGHT".

Record CommentPosition : Type := mkCommentPosition {
  Line : Z;
  OriginalLine : Z;
  StartLine : Z;
  EndLine : Z;
  OriginalStartLine : Z;
  OriginalEndLine : Z;
  DiffSide : string;
  IsOutdated : bool
}.

(** The assignment [pos.IsOutdated = b]. *)
Definition setIsOutdated (pos : CommentPosition) (b : bool) : CommentPosition :=
  mkCommentPosition (Line pos) (OriginalLine pos) (StartLine pos) (EndLine pos)
                    (OriginalStartLine pos) (OriginalEndLine pos) (DiffSide pos) b.

(** [CalculateCommentPosition]; its error result is always [nil]. *)
Definition CalculateCommentPosition (line originalLine : Z) (diffHunk diffSide : string)
  : CommentPosition :=
  let pos := mkCommentPosition line originalLine line line originalLine originalLine
                               diffSide false in
  if String.eqb diffSide DiffSideRight && negb (isEmpty diffHunk) then
    match MapNewPositionToOld diffHunk line with
    | Ok oldLine =>
        if oldLine =? -1 then setIsOutdated pos false
        else if negb (oldLine =? originalLine) then setIsOutdated pos true
        else pos
    | Err _ => pos
    end
  else if String.eqb diffSide DiffSideLeft && negb (isEmpty diffHunk) then
    match MapOldPositionToNew diffHunk originalLine with
    | Ok newLine => if newLine =? -1 then setIsOutdated pos true else pos
    | Err _ => pos
    end
  else pos.

End CommentPositions.

(** ** Package [github]: [calculateOriginalLines] *)

Module Github.
Import GoStrings.

(** The loop of [calculateOriginalLines] over all the lines of the hunk,
    the header among them, with its counter. *)
Fixpoint countOriginal (lines : list string) (count : Z) : Z :=
  match lines with
  | [] => count
  | line :: rest =>
      match line with
      | EmptyString => countOriginal rest count
      | String c _ =>
          if Ascii.eqb c " " || Ascii.eqb c "-"
          then countOriginal rest (GoInt.add count 1)
          else countOriginal rest count
      end
  end.

Definition calculateOriginalLines (diffHunk : string) (originalLine : Z) : Z :=
  let count := countOriginal (Split diffHunk) 0 in
  if count =? 0 then 1 else count.

End Github.

(** ** Package [parser]: [ParseSuggestion]

    The expression [(?s)```suggestion\s*\n(.*?)```] is matched as Go's
    leftmost-first rule has it. After the opening, the greedy [\s*] and
    the [\n] after it take the white space up to its last newline: no
    shorter choice can succeed where this one fails, because the closing
    fence cannot start in white space. The lazy [(.*?)] then stops at the
    first closing fence. *)

Module Parser.
Import GoStrings.

Definition fence : string := "```".
Definition opening : string := "```suggestion".

(** [strings.TrimRight(s, "\n")]. *)
Fixpoint TrimRight (s : string) : string :=
  match s with
  | EmptyString => EmptyString
  | String c rest =>
      match TrimRight rest with
      | EmptyString =>
          if Ascii.eqb c newline then EmptyString else String c EmptyString
      | String d trimmed => String c (String d trimmed)
      end
  end.

(** The lazy [(.*?)] and the closing fence: the shortest text before a
    fence, and what follows the fence. *)
Fixpoint untilFence (s : string) : option (string * string) :=
  match expect fence s with
  | Some rest => Some (EmptyString, rest)
  | None =>
      match s with
      | EmptyString => None
      | String c s' =>
          match untilFence s' with
          | Some (code, rest) => Some (String c code, rest)
          | None => None
          end
      end
  end.

(** The greedy [\s*] and the [\n] after it, within the white space [w]:
    what is left of [w] after its last newline. *)
Fixpoint afterLastNewline (w : string) : option string :=
  match w with
  | EmptyString => None
  | String c rest =>
      match afterLastNewline rest with
      | Some tail => Some tail
      | None => if Ascii.eqb c newline then Some rest else None
      end
  end.

(** A match of the expression at the start of [s]: the group and the
    text after the match. *)
Definition matchSuggestion (s : string) : option (string * string) :=
  match expect opening s with
  | None => None
  | Some s1 =>
      let (w, s2) := span isSpace s1 in
      match afterLastNewline w with
      | None => None
      | Some tail => untilFence (tail ++ s2)
      end
  end.

(** [re.FindStringSubmatch]: the leftmost match. *)
Fixpoint FindStringSubmatch (s : string) : option (string * string) :=
  match matchSuggestion s with
  | Some m => Some m
  | None =>
      match s with
      | EmptyString => None
      | String _ rest => FindStringSubmatch rest
      end
  end.

Definition ParseSuggestion (body : string) : string :=
  match FindStringSubmatch body with
  | None => EmptyString
  | Some (code, _) => TrimRight code
  end.

End Parser.

(** ** Further vocabulary

    Notions in which the properties of the functions above are stated. *)

Module Notions.
Import GoStrings Diffhunk Diffposition Applier Spec.

(** The texts of the lines of kind [kind], in order. *)
Definition textsOf (kind : DiffChangeType) (lines : list DiffLine) : list string :=
  map Text (filter (fun line => DiffChangeType_eqb (Type_ line) kind) lines).

(** A body line the parser has a case for: an empty line, or a line that
    starts with a space, [+], [-] or a backslash. *)
Definition knownMarker (line : string) : bool :=
  match line with
  | EmptyString => true
  | String c _ =>
      Ascii.eqb c " " || Ascii.eqb c "+" || Ascii.eqb c "-" || Ascii.eqb c "\"
  end.

(** Every line after the header is one the parser has a case for. *)
Definition knownMarkers (hunk : string) : bool :=
  forallb knownMarker (tl (Split hunk)).

(** The number -1 on the side a line does not belong to. *)
Definition sentinels (line : DiffLine) : Prop :=
  match Type_ line with
  | Context => True
  | Add => OldLineNumber line = -1
  | Delete => NewLineNumber line = -1
  | Control => OldLineNumber line = -1 /\ NewLineNumber line = -1
  end.

(** [z] is an old line number outside every hunk: before its start, or
    at or after its end. *)
Definition outsideOld (hunks : list DiffHunk) (z : Z) : bool :=
  forallb (fun hunk => (z <? OldStart hunk) || (OldStart hunk + OldLines hunk <=? z))
          hunks.

Definition outsideNew (hunks : list DiffHunk) (z : Z) : bool :=
  forallb (fun hunk => (z <? NewStart hunk) || (NewStart hunk + NewLines hunk <=? z))
          hunks.

(** By how many lines the hunks that end at or before the old line [z]
    make the file grow: the sum of their new counts minus their old
    counts. *)
Fixpoint growthBeforeOld (hunks : list DiffHunk) (z : Z) : Z :=
  match hunks with
  | [] => 0
  | hunk :: rest =>
      (if OldStart hunk + OldLines hunk <=? z
       then NewLines hunk - OldLines hunk else 0)
      + growthBeforeOld rest z
  end.

Fixpoint growthBeforeNew (hunks : list DiffHunk) (z : Z) : Z :=
  match hunks with
  | [] => 0
  | hunk :: rest =>
      (if NewStart hunk + NewLines hunk <=? z
       then NewLines hunk - OldLines hunk else 0)
      + growthBeforeNew rest z
  end.

(** The texts of the Context and Add lines of a hunk: what the hunk
    leaves in the new file. *)
Definition newSide (hunk : DiffHunk) : list string :=
  map Text (filter onNewSide (Lines hunk)).

(** The lines of the file from the 0-based index [from] on, with the old
    lines of each hunk, [OldLines] of them from the line [OldStart],
    replaced by the new side of the hunk. *)
Fixpoint patched (originalLines : list string) (hunks : list DiffHunk) (from : Z)
  : list string :=
  match hunks with
  | [] => slice originalLines from (GoInt.len originalLines)
  | hunk :: rest =>
      (slice originalLines from (OldStart hunk - 1) ++ newSide hunk
       ++ patched originalLines rest (OldStart hunk - 1 + OldLines hunk))%list
  end.

(** A text without a newline: one line. *)
Definition oneLine (s : string) : bool :=
  allOf (fun c => negb (Ascii.eqb c newline)) s.

(** [b] is empty or starts with a byte that does not satisfy [p]. *)
Definition stopsAt (p : ascii -> bool) (b : string) : Prop :=
  match b with
  | EmptyString => True
  | String c _ => p c = false
  end.

(** Whether the byte after the text [a] starts a line, [bol] saying it of
    the first byte of [a]. *)
Fixpoint bolAfter (bol : bool) (a : string) : bool :=
  match a with
  | EmptyString => bol
  | String c rest => bolAfter (Ascii.eqb c newline) rest
  end.

(** No hunk starts in the text [s], read from the start of a line. *)
Definition noStarts (s : string) : Prop :=
  forall pos, findHunkStarts s pos true 0 = [].

(** The kind and the text of each line. *)
Definition shape (lines : list DiffLine) : list (DiffChangeType * string) :=
  map (fun line => (Type_ line, Text line)) lines.

(** Lines of one kind with the given texts. *)
Definition marked (kind : DiffChangeType) (texts : list string)
  : list (DiffChangeType * string) :=
  map (pair kind) texts.

(** The kind and the text the parser gives to a body line, [None] for
    the empty line it skips. *)
Definition markOf (line : string) : option (DiffChangeType * string) :=
  match line with
  | EmptyString => None
  | String c text =>
      if Ascii.eqb c " " then Some (Context, text)
      else if Ascii.eqb c "+" then Some (Add, text)
      else if Ascii.eqb c "-" then Some (Delete, text)
      else if Ascii.eqb c "\" then Some (Control, line)
      else Some (Context, line)
  end.

(** The kinds and texts the parser gives to the lines of a body. *)
Definition marks (body : list string) : list (DiffChangeType * string) :=
  flat_map (fun line => match markOf line with
                        | Some m => [m]
                        | None => []
                        end) body.

Definition oldKind (m : DiffChangeType * string) : bool :=
  match fst m with Context | Delete => true | _ => false end.

Definition newKind (m : DiffChangeType * string) : bool :=
  match fst m with Context | Add => true | _ => false end.

(** The number of lines other than Control lines. *)
Definition counted (lines : list DiffLine) : Z :=
  GoInt.len (filter (fun line => negb (isControl line)) lines).

(** [line] is the first line of [all] that has exactly [n - 1] lines other
    than Control lines before it: the line before it, if there is one, is
    not a Control line. *)
Definition atPosition (all : list DiffLine) (n : Z) (line : DiffLine) : Prop :=
  exists before after,
    all = (before ++ line :: after)%list
    /\ counted before = n - 1
    /\ (forall b x, before = (b ++ [x])%list -> isControl x = false).

(** The text holds a closing fence. *)
Definition hasFence (s : string) : bool :=
  match Parser.untilFence s with
  | Some _ => true
  | None => false
  end.

(** No byte of the text is a backquote. *)
Definition noBackquote (s : string) : bool :=
  allOf (fun c => negb (Ascii.eqb c "`")) s.


End Notions.

Import GoStrings Diffhunk Diffposition Applier Spec Samples.
Import DiffhunkApply Github Notions.
Open Scope string_scope.
Open Scope Z_scope.

(** * Properties *)

(** ** Go integers *)

Section GoIntFacts.

Lemma wrap_small (z : Z) :
  GoInt.minInt <= z <= GoInt.maxInt -> GoInt.wrap z = z.
Proof.
  unfold GoInt.wrap, GoInt.minInt, GoInt.maxInt, GoInt.modulus.
  intros H. rewrite Z.mod_small; lia.
Qed.

Lemma wrap_range (z : Z) :
  GoInt.minInt <= GoInt.wrap z <= GoInt.maxInt.
Proof.
  unfold GoInt.wrap, GoInt.minInt, GoInt.maxInt, GoInt.modulus.
  pose proof (Z.mod_pos_bound (z - -9223372036854775808) 18446744073709551616).
  lia.
Qed.

Lemma wrap_add_l (a b : Z) :
  GoInt.wrap (GoInt.wrap a + b) = GoInt.wrap (a + b).
Proof.
  unfold GoInt.wrap. f_equal.
  replace ((a - GoInt.minInt) mod GoInt.modulus + GoInt.minInt + b - GoInt.minInt)
    with ((a - GoInt.minInt) mod GoInt.modulus + b) by lia.
  rewrite Z.add_mod_idemp_l by (unfold GoInt.modulus; lia).
  f_equal. lia.
Qed.

Lemma add_small (a b : Z) :
  GoInt.minInt <= a + b <= GoInt.maxInt -> GoInt.add a b = a + b.
Proof. apply wrap_small. Qed.

Lemma sub_small (a b : Z) :
  GoInt.minInt <= a - b <= GoInt.maxInt -> GoInt.sub a b = a - b.
Proof. apply wrap_small. Qed.

(** A sum of two [int]s that are not negative is negative when it
    wraps. *)
Lemma add_overflow (a b : Z) :
  0 <= a <= GoInt.maxInt -> 0 <= b <= GoInt.maxInt ->
  GoInt.maxInt < a + b -> GoInt.add a b < 0.
Proof.
  unfold GoInt.add, GoInt.wrap, GoInt.minInt, GoInt.maxInt, GoInt.modulus.
  intros Ha Hb Hab.
  replace (a + b - -9223372036854775808)
    with (a + b - 9223372036854775808 + 1 * 18446744073709551616) by lia.
  rewrite Z.mod_add by lia. rewrite Z.mod_small by lia. lia.
Qed.

Lemma len_nonneg {A : Type} (xs : list A) : 0 <= GoInt.len xs.
Proof. unfold GoInt.len. lia. Qed.

Lemma len_cons {A : Type} (x : A) (xs : list A) :
  GoInt.len (x :: xs) = GoInt.len xs + 1.
Proof. unfold GoInt.len. simpl List.length. lia. Qed.

End GoIntFacts.

(** ** The parser *)

Section ParserFacts.

Lemma span_allOf (p : ascii -> bool) (s a b : string) :
  span p s = (a, b) -> allOf p a = true.
Proof.
  revert a b. induction s as [|c s IH]; simpl; intros a b H.
  - inversion H. reflexivity.
  - destruct (p c) eqn:Hc.
    + destruct (span p s) as [a' b'] eqn:Hs. inversion H; subst.
      simpl. rewrite Hc. simpl. eapply IH. reflexivity.
    + inversion H. reflexivity.
Qed.

Lemma span1_allOf (p : ascii -> bool) (s a b : string) :
  span1 p s = Some (a, b) -> allOf p a = true.
Proof.
  unfold span1. destruct (span p s) as [a' b'] eqn:Hs.
  destruct a'; intros H; inversion H; subst.
  eapply span_allOf. eassumption.
Qed.

Lemma optCount_allOf (s m rest : string) :
  optCount s = (m, rest) -> allOf isDigit m = true.
Proof.
  unfold optCount. destruct (expect "," s) as [s'|].
  - destruct (span1 isDigit s') as [[d r]|] eqn:Hd; intros H; inversion H; subst.
    + eapply span1_allOf. eassumption.
    + reflexivity.
  - intros H. inversion H. reflexivity.
Qed.

Lemma digitValue_range (c : ascii) :
  isDigit c = true -> 0 <= digitValue c <= 9.
Proof.
  unfold isDigit, digitValue. intros H.
  apply andb_true_iff in H. destruct H as [H1 H2].
  apply Nat.leb_le in H1. apply Nat.leb_le in H2. lia.
Qed.

Lemma decimal_nonneg (s : string) :
  forall acc, allOf isDigit s = true -> 0 <= acc -> 0 <= decimal acc s.
Proof.
  induction s as [|c s IH]; simpl; intros acc H Hacc.
  - exact Hacc.
  - apply andb_true_iff in H. destruct H as [Hc Hs].
    apply IH; [exact Hs|]. pose proof (digitValue_range c Hc). lia.
Qed.

Lemma Atoi_range (s : string) :
  allOf isDigit s = true -> 0 <= Atoi s <= GoInt.maxInt.
Proof.
  intros H. unfold Atoi.
  pose proof (decimal_nonneg s 0 H (Z.le_refl 0)).
  unfold GoInt.maxInt. lia.
Qed.

Lemma matchHeader_digits (line m1 m2 m3 m4 : string) :
  matchHeader line = Some (m1, m2, m3, m4) ->
  allOf isDigit m1 = true /\ allOf isDigit m2 = true
  /\ allOf isDigit m3 = true /\ allOf isDigit m4 = true.
Proof.
  unfold matchHeader.
  destruct (expect "@@" line) as [s1|]; [|discriminate].
  destruct (span1 isSpace s1) as [[w1 s2]|]; [|discriminate].
  destruct (expect "-" s2) as [s3|]; [|discriminate].
  destruct (span1 isDigit s3) as [[d1 s4]|] eqn:H1; [|discriminate].
  destruct (optCount s4) as [d2 s5] eqn:H2.
  destruct (span1 isSpace s5) as [[w2 s6]|]; [|discriminate].
  destruct (expect "+" s6) as [s7|]; [|discriminate].
  destruct (span1 isDigit s7) as [[d3 s8]|] eqn:H3; [|discriminate].
  destruct (optCount s8) as [d4 s9] eqn:H4.
  destruct (span1 isSpace s9) as [[w3 s10]|]; [|discriminate].
  destruct (expect "@@" s10) as [s11|]; [|discriminate].
  intros H. inversion H; subst.
  repeat split;
    eauto using span1_allOf, optCount_allOf.
Qed.

Lemma count_range (m : string) :
  allOf isDigit m = true ->
  0 <= (if isEmpty m then 1 else Atoi m) <= GoInt.maxInt.
Proof.
  intros H. destruct (isEmpty m).
  - unfold GoInt.maxInt. lia.
  - apply Atoi_range. exact H.
Qed.

(** What a successful [ParseDiffHunk] returns. *)
Lemma ParseDiffHunk_Ok (hunk : string) (h : DiffHunk) :
  ParseDiffHunk hunk = Ok h ->
  exists header body,
    Split hunk = header :: body
    /\ Lines h = parseLines body (OldStart h) (NewStart h) 0
    /\ 0 <= OldStart h <= GoInt.maxInt /\ 0 <= OldLines h <= GoInt.maxInt
    /\ 0 <= NewStart h <= GoInt.maxInt /\ 0 <= NewLines h <= GoInt.maxInt.
Proof.
  unfold ParseDiffHunk.
  destruct (Split hunk) as [|header body]; [discriminate|].
  destruct (matchHeader header) as [[[[m1 m2] m3] m4]|] eqn:Hm; [|discriminate].
  intros H. inversion H; subst; clear H. simpl.
  destruct (matchHeader_digits _ _ _ _ _ Hm) as (D1 & D2 & D3 & D4).
  exists header, body.
  repeat split; try reflexivity;
    try (apply Atoi_range; assumption);
    try (apply count_range; assumption).
Qed.

End ParserFacts.

(** ** Replaying a parsed hunk *)

Section Replay.

Lemma oldCount_cons (line : DiffLine) (lines : list DiffLine) :
  oldCount (line :: lines) = (if onOldSide line then 1 else 0) + oldCount lines.
Proof.
  unfold oldCount. simpl. destruct (onOldSide line).
  - rewrite len_cons. lia.
  - lia.
Qed.

Lemma newCount_cons (line : DiffLine) (lines : list DiffLine) :
  newCount (line :: lines) = (if onNewSide line then 1 else 0) + newCount lines.
Proof.
  unfold newCount. simpl. destruct (onNewSide line).
  - rewrite len_cons. lia.
  - lia.
Qed.

Lemma oldCount_nonneg (lines : list DiffLine) : 0 <= oldCount lines.
Proof. apply len_nonneg. Qed.

Lemma newCount_nonneg (lines : list DiffLine) : 0 <= newCount lines.
Proof. apply len_nonneg. Qed.

(** The replay adds to each cursor the number of lines of its side. *)
Lemma replay_from (lines : list DiffLine) :
  forall o n,
    fold_left replayStep lines (GoInt.wrap o, GoInt.wrap n)
    = (GoInt.wrap (o + oldCount lines), GoInt.wrap (n + newCount lines)).
Proof.
  induction lines as [|line lines IH]; intros o n.
  - simpl. unfold oldCount, newCount, GoInt.len. simpl.
    rewrite !Z.add_0_r. reflexivity.
  - rewrite oldCount_cons, newCount_cons.
    assert (Hstep : replayStep (GoInt.wrap o, GoInt.wrap n) line
                    = (GoInt.wrap (o + (if onOldSide line then 1 else 0)),
                       GoInt.wrap (n + (if onNewSide line then 1 else 0)))).
    { unfold replayStep, onOldSide, onNewSide, GoInt.add.
      destruct (Type_ line); rewrite ?wrap_add_l, ?Z.add_0_r; reflexivity. }
    change (fold_left replayStep (line :: lines) (GoInt.wrap o, GoInt.wrap n))
      with (fold_left replayStep lines (replayStep (GoInt.wrap o, GoInt.wrap n) line)).
    rewrite Hstep, IH. f_equal; f_equal; lia.
Qed.

(** The parser makes an old-side line of each line of the text that
    stands for a line of the old file, and likewise on the new side. *)
Lemma parseLines_counts (body : list string) :
  forall o n position,
    oldCount (parseLines body o n position) = GoInt.len (filter standsForOld body)
    /\ newCount (parseLines body o n position) = GoInt.len (filter standsForNew body).
Proof.
  induction body as [|line body IH]; intros o n position; [split; reflexivity|].
  destruct line as [|c text]; [exact (IH o n position)|].
  cbn [parseLines filter standsForOld standsForNew].
  destruct (Ascii.eqb c " ") eqn:E1.
  { apply Ascii.eqb_eq in E1. subst c. cbn [Ascii.eqb Bool.eqb negb andb].
    rewrite oldCount_cons, newCount_cons, !len_cons.
    destruct (IH (GoInt.add o 1) (GoInt.add n 1) (GoInt.add position 1)) as [-> ->].
    split; unfold onOldSide, onNewSide; cbn [Type_]; lia. }
  destruct (Ascii.eqb c "+") eqn:E2.
  { apply Ascii.eqb_eq in E2. subst c. cbn [Ascii.eqb Bool.eqb negb andb].
    rewrite oldCount_cons, newCount_cons, !len_cons.
    destruct (IH o (GoInt.add n 1) (GoInt.add position 1)) as [-> ->].
    split; unfold onOldSide, onNewSide; cbn [Type_]; lia. }
  destruct (Ascii.eqb c "-") eqn:E3.
  { apply Ascii.eqb_eq in E3. subst c. cbn [Ascii.eqb Bool.eqb negb andb].
    rewrite oldCount_cons, newCount_cons, !len_cons.
    destruct (IH (GoInt.add o 1) n (GoInt.add position 1)) as [-> ->].
    split; unfold onOldSide, onNewSide; cbn [Type_]; lia. }
  destruct (Ascii.eqb c "\") eqn:E4.
  { rewrite oldCount_cons, newCount_cons. cbn [negb andb]. rewrite ?andb_false_r.
    destruct (IH o n (GoInt.add position 1)) as [-> ->].
    split; unfold onOldSide, onNewSide; cbn [Type_]; lia. }
  cbn [negb andb].
  rewrite oldCount_cons, newCount_cons, !len_cons.
  destruct (IH o n (GoInt.add position 1)) as [-> ->].
  split; unfold onOldSide, onNewSide; cbn [Type_]; lia.
Qed.

(** Two sums that agree as Go integers agree, the terms being Go
    integers that are not negative. *)
Lemma add_cancel (a x y : Z) :
  0 <= x <= GoInt.maxInt -> 0 <= y <= GoInt.maxInt ->
  GoInt.add a x = GoInt.add a y -> x = y.
Proof.
  unfold GoInt.add, GoInt.wrap. intros Hx Hy H.
  assert (E : (a + x - GoInt.minInt) mod GoInt.modulus
              = (a + y - GoInt.minInt) mod GoInt.modulus) by lia.
  assert (D : (x - y) mod GoInt.modulus = 0).
  { replace (x - y) with ((a + x - GoInt.minInt) - (a + y - GoInt.minInt)) by lia.
    rewrite Zminus_mod, E, Z.sub_diag. reflexivity. }
  apply Z.mod_divide in D; [|discriminate].
  destruct D as [k Hk].
  unfold GoInt.maxInt, GoInt.modulus in *. lia.
Qed.

(** C3, as amended: replaying a successfully parsed hunk from the
    declared starts ends, in Go integer arithmetic, at old-start plus the
    number of lines of the hunk's text that stand for an old line (those
    after the header that are not blank and start with neither [+] nor
    [\]) and at new-start plus the number of those that stand for a new
    line (not blank, starting with neither [-] nor [\]). The cursors end
    at old-start + old-line-count and new-start + new-line-count exactly
    when the header declares these two numbers, which the parser does not
    check. *)
Theorem parsed_hunk_replay (hunk : string) (h : DiffHunk) :
  GoInt.fits (Split hunk) ->
  ParseDiffHunk hunk = Ok h ->
  replay h = (GoInt.add (OldStart h) (oldLinesOf hunk),
              GoInt.add (NewStart h) (newLinesOf hunk))
  /\ (replay h = (GoInt.add (OldStart h) (OldLines h),
                  GoInt.add (NewStart h) (NewLines h))
      <-> OldLines h = oldLinesOf hunk /\ NewLines h = newLinesOf hunk).
Proof.
  intros Hfit H.
  destruct (ParseDiffHunk_Ok hunk h H)
    as (header & body & Es & El & Ho & Hol & Hn & Hnl).
  assert (Eo : oldCount (Lines h) = oldLinesOf hunk).
  { unfold oldLinesOf. rewrite El, Es. apply parseLines_counts. }
  assert (En : newCount (Lines h) = newLinesOf hunk).
  { unfold newLinesOf. rewrite El, Es. apply parseLines_counts. }
  assert (R : replay h = (GoInt.add (OldStart h) (oldLinesOf hunk),
                          GoInt.add (NewStart h) (newLinesOf hunk))).
  { rewrite <- Eo, <- En. unfold replay, GoInt.add.
    rewrite <- (wrap_small (OldStart h)) at 1 by (unfold GoInt.minInt; lia).
    rewrite <- (wrap_small (NewStart h)) at 1 by (unfold GoInt.minInt; lia).
    apply replay_from. }
  split; [exact R|].
  assert (Bo : 0 <= oldLinesOf hunk <= GoInt.maxInt).
  { unfold oldLinesOf, GoInt.fits, GoInt.len in *. rewrite Es in *. cbn [tl].
    pose proof (filter_length_le standsForOld body).
    simpl List.length in Hfit. lia. }
  assert (Bn : 0 <= newLinesOf hunk <= GoInt.maxInt).
  { unfold newLinesOf, GoInt.fits, GoInt.len in *. rewrite Es in *. cbn [tl].
    pose proof (filter_length_le standsForNew body).
    simpl List.length in Hfit. lia. }
  rewrite R. split.
  - intros E.
    pose proof (f_equal fst E) as E1. pose proof (f_equal snd E) as E2.
    cbn [fst snd] in E1, E2.
    split; symmetry; [exact (add_cancel _ _ _ Bo Hol E1)
                     | exact (add_cancel _ _ _ Bn Hnl E2)].
  - intros [-> ->]. reflexivity.
Qed.

Lemma parsed_hunk_replay_witness :
  GoInt.fits (Split additionHunk)
  /\ ParseDiffHunk additionHunk = Ok additionParsed
  /\ oldLinesOf additionHunk = 3 /\ newLinesOf additionHunk = 4
  /\ replay additionParsed = (GoInt.add 1 3, GoInt.add 1 4).
Proof.
  assert (F : GoInt.fits (Split additionHunk)) by (vm_compute; discriminate).
  split; [exact F|]. split; [reflexivity|]. split; [reflexivity|].
  split; [reflexivity|].
  exact (proj1 (parsed_hunk_replay additionHunk additionParsed F eq_refl)).
Defined.

(** C3 as stated fails: the parser accepts a hunk whatever its header
    counts are. With a blank context line, which the parser skips, the
    text has two lines on each side under a header that declares three,
    and the replay of the parsed lines ends at (3, 3) and not at (4, 4). *)
Lemma parsed_hunk_replay_counterexample :
  ParseDiffHunk blankContextHunk = Ok blankContextParsed
  /\ oldLinesOf blankContextHunk = 2 /\ newLinesOf blankContextHunk = 2
  /\ replay blankContextParsed = (3, 3)
  /\ (GoInt.add (OldStart blankContextParsed) (OldLines blankContextParsed),
      GoInt.add (NewStart blankContextParsed) (NewLines blankContextParsed)) = (4, 4).
Proof. repeat split. Qed.

End Replay.

(** ** The line at a position of the diff *)

Section DiffLineByPosition.

Lemma filter_all {A : Type} (f : A -> bool) (xs : list A) :
  (forall x, In x xs -> f x = true) -> filter f xs = xs.
Proof.
  induction xs as [|x xs IH]; intros H; simpl.
  - reflexivity.
  - rewrite (H x (or_introl eq_refl)). f_equal. apply IH.
    intros y Hy. apply H. right. exact Hy.
Qed.

(** The inner loop over lines without Control line: the line at distance
    [n - pos], or the position after the last line. *)
Lemma lineByPosition_plain (lines : list DiffLine) :
  (forall line, In line lines -> isControl line = false) ->
  forall pos n,
    pos + GoInt.len lines <= GoInt.maxInt -> GoInt.minInt <= pos ->
    lineByPosition lines pos n
    = if (pos <=? n) && (n <? pos + GoInt.len lines)
      then match nth_error lines (Z.to_nat (n - pos)) with
           | Some line => inl line
           | None => inr (pos + GoInt.len lines)
           end
      else inr (pos + GoInt.len lines).
Proof.
  induction lines as [|line rest IH]; intros Hplain pos n Hmax Hmin.
  - simpl. unfold GoInt.len. simpl. rewrite Z.add_0_r.
    destruct ((pos <=? n) && (n <? pos)); [|reflexivity].
    destruct (Z.to_nat (n - pos)); reflexivity.
  - rewrite len_cons in *. pose proof (len_nonneg rest) as Hr.
    cbn [lineByPosition].
    destruct (pos =? n) eqn:E.
    + apply Z.eqb_eq in E. subst n.
      replace ((pos <=? pos) && (pos <? pos + (GoInt.len rest + 1))) with true
        by (symmetry; apply andb_true_iff; split;
            [apply Z.leb_le | apply Z.ltb_lt]; lia).
      rewrite Z.sub_diag. reflexivity.
    + apply Z.eqb_neq in E.
      fold (isControl line). rewrite (Hplain line (or_introl eq_refl)).
      rewrite add_small by lia.
      rewrite IH; [| intros l Hl; apply Hplain; right; exact Hl | lia | lia].
      replace (pos + 1 + GoInt.len rest) with (pos + (GoInt.len rest + 1)) by lia.
      destruct (pos + 1 <=? n) eqn:L1.
      * apply Z.leb_le in L1.
        replace (pos <=? n) with true by (symmetry; apply Z.leb_le; lia).
        replace (Z.to_nat (n - pos)) with (S (Z.to_nat (n - (pos + 1)))) by lia.
        reflexivity.
      * apply Z.leb_gt in L1.
        replace (pos <=? n) with false by (symmetry; apply Z.leb_gt; lia).
        reflexivity.
Qed.

Lemma hunksByPosition_plain (hunks : list DiffHunk) :
  (forall line, In line (List.concat (map Lines hunks)) -> isControl line = false) ->
  forall pos n,
    pos + GoInt.len (List.concat (map Lines hunks)) <= GoInt.maxInt ->
    GoInt.minInt <= pos ->
    hunksByPosition hunks pos n
    = if pos <=? n
      then nth_error (List.concat (map Lines hunks)) (Z.to_nat (n - pos))
      else None.
Proof.
  induction hunks as [|hunk rest IH]; intros Hplain pos n Hmax Hmin.
  - simpl. destruct (pos <=? n); [|reflexivity].
    destruct (Z.to_nat (n - pos)); reflexivity.
  - simpl map in *. simpl List.concat in *.
    assert (Hlen : GoInt.len (Lines hunk ++ List.concat (map Lines rest))%list
                   = GoInt.len (Lines hunk) + GoInt.len (List.concat (map Lines rest))).
    { unfold GoInt.len. rewrite length_app. lia. }
    rewrite Hlen in Hmax.
    pose proof (len_nonneg (Lines hunk)) as H1.
    pose proof (len_nonneg (List.concat (map Lines rest))) as H2.
    cbn [hunksByPosition].
    rewrite lineByPosition_plain;
      [| intros l Hl; apply Hplain; apply in_or_app; left; exact Hl | lia | lia].
    destruct (pos <=? n) eqn:L1; cbn [andb].
    + apply Z.leb_le in L1.
      destruct (n <? pos + GoInt.len (Lines hunk)) eqn:L2.
      * apply Z.ltb_lt in L2.
        assert (Hk : (Z.to_nat (n - pos) < List.length (Lines hunk))%nat)
          by (unfold GoInt.len in *; lia).
        rewrite nth_error_app1 by exact Hk.
        destruct (nth_error (Lines hunk) (Z.to_nat (n - pos))) eqn:E;
          [reflexivity|].
        apply nth_error_None in E. lia.
      * apply Z.ltb_ge in L2.
        rewrite IH;
          [| intros l Hl; apply Hplain; apply in_or_app; right; exact Hl | lia | lia].
        replace (pos + GoInt.len (Lines hunk) <=? n) with true
          by (symmetry; apply Z.leb_le; lia).
        rewrite nth_error_app2 by (unfold GoInt.len in *; lia).
        f_equal. unfold GoInt.len in *. lia.
    + apply Z.leb_gt in L1.
      rewrite IH;
        [| intros l Hl; apply Hplain; apply in_or_app; right; exact Hl | lia | lia].
      replace (pos + GoInt.len (Lines hunk) <=? n) with false
        by (symmetry; apply Z.leb_gt; lia).
      reflexivity.
Qed.

(** Where the hunks hold no Control line, the code returns the line at the
    position of the stream. *)
Lemma GetDiffLineByPosition_without_control (hunks : list DiffHunk) (n : Z) :
  (forall line, In line (List.concat (map Lines hunks)) -> isControl line = false) ->
  GoInt.len (List.concat (map Lines hunks)) < GoInt.maxInt ->
  GetDiffLineByPosition hunks n = lineAtOverallPosition hunks n.
Proof.
  intros Hplain Hlen. unfold GetDiffLineByPosition, lineAtOverallPosition, stream.
  rewrite hunksByPosition_plain;
    [| exact Hplain | lia | unfold GoInt.minInt; lia].
  rewrite filter_all by (intros l Hl; rewrite (Hplain l Hl); reflexivity).
  destruct (n <? 1) eqn:E.
  - apply Z.ltb_lt in E.
    replace (1 <=? n) with false by (symmetry; apply Z.leb_gt; lia). reflexivity.
  - apply Z.ltb_ge in E.
    replace (1 <=? n) with true by (symmetry; apply Z.leb_le; lia). reflexivity.
Qed.

(** C5: the code compares the position before it looks at the kind of
    the line, so a Control line that stands where the count has reached
    [n] is returned. On the hunk of the parser's own test, position 3 is
    the marker line, while the third line of the stream without Control
    lines is the added line. *)
Theorem GetDiffLineByPosition_returns_control :
  ParsePatch noNewlinePatch = Ok [noNewlineParsed]
  /\ GetDiffLineByPosition [noNewlineParsed] 3
     = Some (mkDiffLine Control (-1) (-1) "\ No newline at end of file" 2)
  /\ lineAtOverallPosition [noNewlineParsed] 3
     = Some (mkDiffLine Add (-1) 2 "line 2 fixed" 3).
Proof. repeat split. Qed.

End DiffLineByPosition.

(** ** Commentable ranges *)

Section CommentingRanges.

Variable isBase : bool.

Lemma isCommentable_anchored (line : DiffLine) :
  isCommentableOn isBase line && (lineNumOf isBase line >? 0) = anchored isBase line.
Proof.
  unfold isCommentableOn, lineNumOf, anchored, selected, key.
  rewrite Z.gtb_ltb.
  destruct isBase, (Type_ line); reflexivity.
Qed.

Lemma last_default {A : Type} (x : A) (xs : list A) (d d' : A) :
  last (x :: xs) d = last (x :: xs) d'.
Proof.
  revert x. induction xs as [|y ys IH]; intros x.
  - reflexivity.
  - change (last (y :: ys) d = last (y :: ys) d'). apply IH.
Qed.

Lemma interval_cons (line : DiffLine) (run : list DiffLine) :
  run <> [] ->
  interval isBase (line :: run) = (key isBase line, snd (interval isBase run)).
Proof.
  destruct run as [|r run']; [congruence|]. intros _.
  unfold interval. simpl snd. f_equal. f_equal.
  change (last (r :: run') line = last (r :: run') r).
  apply last_default.
Qed.

Lemma runs_startsWith (c : DiffLine -> bool) (lines : list DiffLine) :
  startsWith c lines = true ->
  exists run more, runs c lines = run :: more /\ run <> [].
Proof.
  destruct lines as [|line rest]; simpl; [discriminate|].
  intros ->. destruct (startsWith c rest).
  - destruct (runs c rest) as [|run more]; eexists; eexists; split;
      try reflexivity; discriminate.
  - eexists; eexists; split; [reflexivity | discriminate].
Qed.

(** The loop over one hunk, in both of its states, against the runs. *)
Lemma rangesOfLines_runs (lines : list DiffLine) :
  forall rangeStart rangeEnd,
    rangesOfLines isBase lines rangeStart rangeEnd false
    = map (interval isBase) (runs (anchored isBase) lines)
    /\ rangesOfLines isBase lines rangeStart rangeEnd true
       = if startsWith (anchored isBase) lines then
           match runs (anchored isBase) lines with
           | run :: more =>
               (rangeStart, snd (interval isBase run)) :: map (interval isBase) more
           | [] => [(rangeStart, rangeEnd)]
           end
         else (rangeStart, rangeEnd)
              :: map (interval isBase) (runs (anchored isBase) lines).
Proof.
  induction lines as [|line rest IH]; intros rs re.
  - split; reflexivity.
  - simpl rangesOfLines. rewrite isCommentable_anchored.
    simpl runs. simpl startsWith.
    change (lineNumOf isBase line) with (key isBase line).
    destruct (anchored isBase line) eqn:Hl; simpl negb; cbv iota.
    + destruct (IH (key isBase line) (key isBase line)) as [_ IHt1].
      destruct (IH rs (key isBase line)) as [_ IHt2].
      rewrite IHt1, IHt2.
      destruct (startsWith (anchored isBase) rest) eqn:Hs.
      * destruct (runs_startsWith _ _ Hs) as (run & more & -> & Hne).
        cbn [map]. rewrite (interval_cons line run Hne).
        split; reflexivity.
      * split; reflexivity.
    + destruct (IH rs re) as [IHf _]. rewrite IHf.
      split; reflexivity.
Qed.

Lemma rangesOfHunks_coalesced (hunks : list DiffHunk) :
  rangesOfHunks isBase hunks = coalesced (anchored isBase) isBase hunks.
Proof.
  induction hunks as [|hunk rest IH]; simpl.
  - reflexivity.
  - rewrite IH. f_equal. apply rangesOfLines_runs.
Qed.

End CommentingRanges.

Section CommentingRangesOfParsedHunks.

Variable isBase : bool.

Lemma add_one_positive (z : Z) :
  GoInt.inRange z -> 0 < z -> 0 < GoInt.add z 1 -> GoInt.add z 1 = z + 1.
Proof.
  unfold GoInt.inRange. intros Hr Hz Hp.
  destruct (Z.eq_dec z GoInt.maxInt) as [->|Hne].
  - exfalso. vm_compute in Hp. discriminate.
  - apply add_small. unfold GoInt.minInt, GoInt.maxInt in *. lia.
Qed.

Lemma add_inRange (a b : Z) : GoInt.inRange (GoInt.add a b).
Proof. apply wrap_range. Qed.

Lemma anchored_positive (line : DiffLine) :
  anchored isBase line = true -> 0 < key isBase line.
Proof.
  unfold anchored. intros H. apply andb_true_iff in H.
  destruct H as [_ H]. apply Z.ltb_lt in H. exact H.
Qed.

Ltac marker_case :=
  let A := fresh "A" in
  intros A; unfold anchored, selected, key, cursorOf in *; simpl in *;
  destruct isBase; simpl in *; try discriminate; split; reflexivity.

(** The lines the parser produces: a commentable first line carries the
    cursor of its side, and commentable neighbours are numbered
    consecutively. *)
Lemma parseLines_linked (body : list string) :
  forall o n pos,
    GoInt.inRange o -> GoInt.inRange n ->
    linked isBase (parseLines body o n pos)
    /\ (forall line rest,
           parseLines body o n pos = line :: rest ->
           anchored isBase line = true -> key isBase line = cursorOf isBase o n).
Proof.
  induction body as [|text body IH]; intros o n pos Ho Hn.
  - split; [exact I | intros line rest H; discriminate].
  - destruct text as [|c text].
    + simpl. apply IH; assumption.
    + assert (step : forall l o' n' pos',
                 GoInt.inRange o' -> GoInt.inRange n' ->
                 (anchored isBase l = true ->
                  key isBase l = cursorOf isBase o n
                  /\ cursorOf isBase o' n' = GoInt.add (cursorOf isBase o n) 1) ->
                 linked isBase (l :: parseLines body o' n' pos')
                 /\ (forall line rest,
                        l :: parseLines body o' n' pos' = line :: rest ->
                        anchored isBase line = true ->
                        key isBase line = cursorOf isBase o n)).
      { intros l o' n' pos' Ho' Hn' Hl.
        destruct (IH o' n' pos' Ho' Hn') as [IHl IHh].
        split.
        - simpl. destruct (parseLines body o' n' pos') as [|next more] eqn:E;
            [exact I|].
          split; [|exact IHl].
          intros Al An. destruct (Hl Al) as [Kl Kc].
          rewrite (IHh next more eq_refl An), Kc, Kl.
          assert (Hc : GoInt.inRange (cursorOf isBase o n))
            by (unfold cursorOf; destruct isBase; assumption).
          apply add_one_positive; [exact Hc| |].
          + rewrite <- Kl. apply anchored_positive. exact Al.
          + rewrite <- Kc, <- (IHh next more eq_refl An).
            apply anchored_positive. exact An.
        - intros line rest E A. inversion E; subst. apply Hl. exact A. }
      simpl parseLines.
      destruct (Ascii.eqb c " ");
        [apply step; [apply add_inRange | apply add_inRange | marker_case]|].
      destruct (Ascii.eqb c "+");
        [apply step; [assumption | apply add_inRange | marker_case]|].
      destruct (Ascii.eqb c "-");
        [apply step; [apply add_inRange | assumption | marker_case]|].
      destruct (Ascii.eqb c "\");
        apply step; try assumption; marker_case.
Qed.

Lemma runs_chained (lines : list DiffLine) :
  linked isBase lines ->
  Forall (chained isBase) (runs (anchored isBase) lines)
  /\ (startsWith (anchored isBase) lines = true ->
      exists first run more,
        lines = first :: tl lines
        /\ runs (anchored isBase) lines = (first :: run) :: more).
Proof.
  induction lines as [|line rest IH]; intros Hl.
  - split; [constructor | discriminate].
  - assert (Hrest : linked isBase rest).
    { simpl in Hl. destruct rest; [exact I | apply Hl]. }
    destruct (IH Hrest) as [IHc IHs].
    simpl runs. simpl startsWith.
    destruct (anchored isBase line) eqn:Al.
    + destruct (startsWith (anchored isBase) rest) eqn:Hs.
      * destruct (IHs eq_refl) as (first & run & more & Er & Eruns).
        rewrite Eruns in *. inversion IHc as [|? ? Hrun Hmore]; subst.
        split.
        -- constructor; [|exact Hmore].
           simpl. split; [|exact Hrun].
           destruct rest as [|next rest']; [discriminate|].
           simpl in Er. inversion Er; subst next.
           simpl in Hl. destruct Hl as [Hk _]. apply Hk; [exact Al|].
           exact Hs.
        -- intros _. eexists; eexists; eexists. split; reflexivity.
      * split.
        -- constructor; [exact I | exact IHc].
        -- intros _. eexists; eexists; eexists. split; reflexivity.
    + split; [exact IHc | discriminate].
Qed.

Lemma chained_numbers (run : list DiffLine) :
  forall first,
    chained isBase (first :: run) ->
    map (key isBase) (first :: run)
    = map (fun k => key isBase first + Z.of_nat k) (seq 0 (List.length (first :: run)))
    /\ key isBase (last (first :: run) first)
       = key isBase first + Z.of_nat (List.length run).
Proof.
  induction run as [|next run IH]; intros first Hc.
  - simpl. split; [f_equal|]; lia.
  - destruct Hc as [Hk Hc]. destruct (IH next Hc) as [IHm IHl].
    split.
    + change (map (key isBase) (first :: next :: run))
        with (key isBase first :: map (key isBase) (next :: run)).
      rewrite IHm.
      change (seq 0 (List.length (first :: next :: run)))
        with (0%nat :: seq 1 (List.length (next :: run))).
      rewrite <- seq_shift. cbn [map]. rewrite map_map.
      f_equal; [lia|].
      apply map_ext. intros k. rewrite Hk. lia.
    + change (last (first :: next :: run) first) with (last (next :: run) first).
      rewrite (last_default next run first next), IHl, Hk.
      simpl List.length. lia.
Qed.

(** The integers of the interval of a run are the numbers of its lines. *)
Lemma chained_interval (run : list DiffLine) :
  run <> [] ->
  chained isBase run ->
  map (key isBase) run
  = zrange (fst (interval isBase run)) (snd (interval isBase run) + 1).
Proof.
  destruct run as [|first run]; [congruence|]. intros _ Hc.
  destruct (chained_numbers run first Hc) as [Hm Hl].
  unfold interval. cbn [fst snd]. rewrite Hl, Hm. unfold zrange.
  f_equal. f_equal. simpl List.length. lia.
Qed.

Lemma runs_heads (c : DiffLine -> bool) (lines : list DiffLine) :
  Forall (fun run => exists first rest, run = first :: rest /\ c first = true)
         (runs c lines).
Proof.
  induction lines as [|line rest IH]; simpl.
  - constructor.
  - destruct (c line) eqn:Hc; [|exact IH].
    destruct (startsWith c rest).
    + destruct (runs c rest) as [|run more].
      * constructor; [|constructor]. eauto.
      * inversion IH; subst. constructor; [eauto | assumption].
    + constructor; [eauto | exact IH].
Qed.

Lemma parseHunks_Ok (slices : list string) :
  forall i hunks,
    parseHunks i slices = Ok hunks ->
    Forall (fun hunk => exists text, ParseDiffHunk text = Ok hunk) hunks.
Proof.
  induction slices as [|text slices IH]; simpl; intros i hunks H.
  - inversion H. constructor.
  - destruct (ParseDiffHunk text) as [hunk|e] eqn:Hp; [|discriminate].
    destruct (parseHunks (S i) slices) as [more|e] eqn:Hm; [|discriminate].
    inversion H; subst. constructor; [eauto | eapply IH; eassumption].
Qed.

Lemma ParsePatch_Ok (patch : string) (hunks : list DiffHunk) :
  ParsePatch patch = Ok hunks ->
  Forall (fun hunk => exists text, ParseDiffHunk text = Ok hunk) hunks.
Proof.
  unfold ParsePatch. destruct (findHunkStarts patch 0 true 0).
  - discriminate.
  - apply parseHunks_Ok.
Qed.

Lemma parsed_runs (patch : string) (hunks : list DiffHunk) (hunk : DiffHunk)
    (run : list DiffLine) :
  ParsePatch patch = Ok hunks ->
  In hunk hunks ->
  In run (runs (anchored isBase) (Lines hunk)) ->
  1 <= fst (interval isBase run)
  /\ map (key isBase) run
     = zrange (fst (interval isBase run)) (snd (interval isBase run) + 1).
Proof.
  intros Hp Hh Hr.
  pose proof (ParsePatch_Ok patch hunks Hp) as Hall.
  rewrite Forall_forall in Hall. destruct (Hall hunk Hh) as [text Ht].
  destruct (ParseDiffHunk_Ok text hunk Ht)
    as (header & body & _ & El & Ho & _ & Hn & _).
  assert (Hlinked : linked isBase (Lines hunk)).
  { rewrite El. apply parseLines_linked;
      unfold GoInt.inRange, GoInt.minInt; lia. }
  destruct (runs_chained (Lines hunk) Hlinked) as [Hc _].
  rewrite Forall_forall in Hc.
  pose proof (runs_heads (anchored isBase) (Lines hunk)) as Hheads.
  rewrite Forall_forall in Hheads.
  destruct (Hheads run Hr) as (first & rest & -> & Hf).
  split.
  - simpl. pose proof (anchored_positive first Hf). lia.
  - apply chained_interval; [discriminate | apply Hc; exact Hr].
Qed.

End CommentingRangesOfParsedHunks.

(** C9, as amended: [GetCommentingRanges] takes, hunk by hunk, the maximal
    runs of lines that are commentable on the side asked for (old: Delete
    and Context, new: Add and Context) and carry a positive line number on
    that side, and returns one closed interval for each run, from the
    number of its first line to the number of its last; any other line (a
    line of another kind, or a line without a positive number, such as the
    parser's Context line for an unknown marker) and the end of the hunk
    close the interval. In a parsed patch the interval starts at 1 or more
    and its integers are the numbers of the lines of its run. For the old
    side of scenario 6 the result is [(10,14)]. *)
Theorem GetCommentingRanges_coalesces :
  (forall patch isBase,
      GetCommentingRanges patch isBase
      = match ParsePatch patch with
        | Ok hunks => Ok (coalesced (anchored isBase) isBase hunks)
        | Err e => Err e
        end)
  /\ (forall patch isBase hunks hunk run,
         ParsePatch patch = Ok hunks ->
         In hunk hunks ->
         In run (runs (anchored isBase) (Lines hunk)) ->
         1 <= fst (interval isBase run)
         /\ map (key isBase) run
            = zrange (fst (interval isBase run)) (snd (interval isBase run) + 1))
  /\ GetCommentingRanges deletionPatch true = Ok [(10, 14)].
Proof.
  split; [|split].
  - intros patch isBase. unfold GetCommentingRanges.
    destruct (ParsePatch patch); [|reflexivity].
    rewrite rangesOfHunks_coalesced. reflexivity.
  - intros patch isBase hunks hunk run. apply parsed_runs.
  - reflexivity.
Qed.

Lemma GetCommentingRanges_coalesces_witness :
  ParsePatch deletionPatch = Ok [deletionParsed]
  /\ In deletionParsed [deletionParsed]
  /\ In (Lines deletionParsed) (runs (anchored true) (Lines deletionParsed))
  /\ map (key true) (Lines deletionParsed) = zrange 10 (14 + 1).
Proof.
  split; [reflexivity|]. split; [left; reflexivity|]. split; [left; reflexivity|].
  apply (proj1 (proj2 GetCommentingRanges_coalesces)
           deletionPatch true [deletionParsed] deletionParsed (Lines deletionParsed)).
  - reflexivity.
  - left; reflexivity.
  - left; reflexivity.
Defined.

(** C9 as stated fails: a line with an unknown marker is a Context line
    for the parser, commentable on either side, and stands between two
    Context lines with no line of another kind in between; the code still
    closes the interval there, because the line has no positive number. *)
Lemma GetCommentingRanges_counterexample :
  ParsePatch unknownMarkerPatch = Ok [unknownMarkerParsed]
  /\ GetCommentingRanges unknownMarkerPatch true = Ok [(10, 10); (11, 11)]
  /\ coalesced (selected true) true [unknownMarkerParsed] = [(10, 11)].
Proof. repeat split. Qed.

(** ** Position mapping *)

Section PositionMapping.

Lemma hunkInvariant_true (hunk : DiffHunk) :
  hunkInvariant hunk = true ->
  0 <= OldStart hunk /\ 0 <= NewStart hunk
  /\ numbered (Lines hunk) (OldStart hunk) (NewStart hunk) = true
  /\ oldCount (Lines hunk) = OldLines hunk
  /\ newCount (Lines hunk) = NewLines hunk
  /\ OldStart hunk + OldLines hunk <= GoInt.maxInt
  /\ NewStart hunk + NewLines hunk <= GoInt.maxInt.
Proof.
  unfold hunkInvariant. intros H.
  repeat (apply andb_true_iff in H; destruct H as [H ?]).
  repeat split;
    try (apply Z.leb_le; assumption);
    try (apply Z.eqb_eq; assumption);
    assumption.
Qed.

(** Unfolds one step of the two walks and of [numbered] on a line of a
    known kind. *)
Ltac walk_step Hnum Hk :=
  simpl walkOld; simpl walkNew; simpl in Hnum;
  rewrite Hk in *;
  repeat (apply andb_true_iff in Hnum;
          let H := fresh "Hnum" in destruct Hnum as [Hnum H]);
  repeat match goal with
         | H : (_ =? _) = true |- _ => apply Z.eqb_eq in H
         end.

(** The line asked for is the head of the list. *)
Ltac here :=
  repeat match goal with
         | H : OldLineNumber _ = _ |- _ => rewrite H; clear H
         | H : NewLineNumber _ = _ |- _ => rewrite H; clear H
         end;
  repeat match goal with
         | H : Type_ _ = _ |- _ => rewrite H; clear H
         end;
  rewrite ?Z.eqb_refl; split; [lia | reflexivity].

(** The line asked for is further down. *)
Ltac use_IH IH line Hin Hside :=
  match goal with
  | Hr : numbered _ ?o' ?n' = true |- _ =>
      let R := fresh "R" in
      let W := fresh "W" in
      destruct (IH o' n' line Hr ltac:(lia) ltac:(lia) ltac:(lia) ltac:(lia)
                  Hin Hside) as [R W]
  end.

Ltac no_wrap :=
  rewrite ?add_small by (unfold GoInt.minInt, GoInt.maxInt in *; lia).

(** In a numbered hunk, the walk of [MapOldPositionToNew] stops at the
    line that carries the old number asked for. *)
Lemma walkOld_found (lines : list DiffLine) :
  forall o n line,
    numbered lines o n = true ->
    GoInt.minInt <= o -> GoInt.minInt <= n ->
    o + oldCount lines <= GoInt.maxInt -> n + newCount lines <= GoInt.maxInt ->
    In line lines -> onOldSide line = true ->
    o <= OldLineNumber line < o + oldCount lines
    /\ walkOld lines o n (OldLineNumber line)
       = Some (match Type_ line with Context => NewLineNumber line | _ => -1 end).
Proof.
  induction lines as [|head rest IH]; intros o n line Hnum Ho Hn Bo Bn Hin Hside.
  - destruct Hin.
  - rewrite oldCount_cons in *. rewrite newCount_cons in Bn.
    pose proof (oldCount_nonneg rest) as Po.
    pose proof (newCount_nonneg rest) as Pn.
    unfold onOldSide, onNewSide in Bo, Bn |- *.
    destruct (Type_ head) eqn:Hk; walk_step Hnum Hk;
      (destruct Hin as [->|Hin];
       [ try (unfold onOldSide in Hside; rewrite Hk in Hside; discriminate);
         here
       | use_IH IH line Hin Hside;
         split; [lia|];
         try (replace (o =? OldLineNumber line) with false
               by (symmetry; apply Z.eqb_neq; lia));
         no_wrap; assumption ]).
Qed.

(** The mirror image for [MapNewPositionToOld]. *)
Lemma walkNew_found (lines : list DiffLine) :
  forall o n line,
    numbered lines o n = true ->
    GoInt.minInt <= o -> GoInt.minInt <= n ->
    o + oldCount lines <= GoInt.maxInt -> n + newCount lines <= GoInt.maxInt ->
    In line lines -> onNewSide line = true ->
    n <= NewLineNumber line < n + newCount lines
    /\ walkNew lines o n (NewLineNumber line)
       = Some (match Type_ line with Context => OldLineNumber line | _ => -1 end).
Proof.
  induction lines as [|head rest IH]; intros o n line Hnum Ho Hn Bo Bn Hin Hside.
  - destruct Hin.
  - rewrite newCount_cons in *. rewrite oldCount_cons in Bo.
    pose proof (oldCount_nonneg rest) as Po.
    pose proof (newCount_nonneg rest) as Pn.
    unfold onOldSide, onNewSide in Bo, Bn |- *.
    destruct (Type_ head) eqn:Hk; walk_step Hnum Hk;
      (destruct Hin as [->|Hin];
       [ try (unfold onNewSide in Hside; rewrite Hk in Hside; discriminate);
         here
       | use_IH IH line Hin Hside;
         split; [lia|];
         try (replace (n =? NewLineNumber line) with false
               by (symmetry; apply Z.eqb_neq; lia));
         no_wrap; assumption ]).
Qed.

Lemma endsBefore_true (hunk later : DiffHunk) :
  endsBefore hunk later = true ->
  OldStart hunk + OldLines hunk <= OldStart later
  /\ NewStart hunk + NewLines hunk <= NewStart later.
Proof.
  unfold endsBefore. intros H. apply andb_true_iff in H.
  destruct H as [H1 H2]. apply Z.leb_le in H1. apply Z.leb_le in H2. auto.
Qed.

Lemma hunkCovers_true (hunk : DiffHunk) :
  hunkCovers hunk = true ->
  numbered (Lines hunk) (OldStart hunk) (NewStart hunk) = true
  /\ oldCount (Lines hunk) <= OldLines hunk
  /\ newCount (Lines hunk) <= NewLines hunk
  /\ OldStart hunk + OldLines hunk <= GoInt.maxInt
  /\ NewStart hunk + NewLines hunk <= GoInt.maxInt.
Proof.
  unfold hunkCovers. intros H.
  repeat (apply andb_true_iff in H; destruct H as [H ?]).
  repeat split; try (apply Z.leb_le; assumption); assumption.
Qed.

(** A hunk that satisfies the Hunk invariant covers its lines. *)
Lemma hunkInvariant_covers (hunk : DiffHunk) :
  hunkInvariant hunk = true ->
  hunkCovers hunk = true /\ 0 <= OldStart hunk /\ 0 <= NewStart hunk.
Proof.
  intros H.
  destruct (hunkInvariant_true hunk H) as (So & Sn & Hnum & Eo & En & Bo & Bn).
  repeat split; try assumption.
  unfold hunkCovers. rewrite Hnum, Eo, En, !Z.leb_refl.
  replace (OldStart hunk + OldLines hunk <=? GoInt.maxInt) with true
    by (symmetry; apply Z.leb_le; exact Bo).
  replace (NewStart hunk + NewLines hunk <=? GoInt.maxInt) with true
    by (symmetry; apply Z.leb_le; exact Bn).
  reflexivity.
Qed.

(** The starts of a parsed hunk are not negative. *)
Lemma parsed_starts (patch : string) (hunks : list DiffHunk) :
  ParsePatch patch = Ok hunks ->
  forall hunk, In hunk hunks -> 0 <= OldStart hunk /\ 0 <= NewStart hunk.
Proof.
  intros Hp hunk Hin.
  pose proof (ParsePatch_Ok patch hunks Hp) as Hall.
  rewrite Forall_forall in Hall. destruct (Hall hunk Hin) as [text Ht].
  destruct (ParseDiffHunk_Ok text hunk Ht) as (_ & _ & _ & _ & Ho & _ & Hn & _).
  lia.
Qed.

(** The loop over the hunks reaches the hunk that contains the old line
    and returns what the walk of that hunk returns. *)
Lemma mapOldLoop_in_hunk (hunks : list DiffHunk) :
  forall offset oldLine hunk r,
    (forall h, In h hunks -> 0 <= OldStart h /\ 0 <= NewStart h) ->
    forallb hunkCovers hunks = true ->
    inFileOrder hunks = true ->
    In hunk hunks ->
    OldStart hunk <= oldLine < OldStart hunk + OldLines hunk ->
    walkOld (Lines hunk) (OldStart hunk) (NewStart hunk) oldLine = Some r ->
    mapOldLoop hunks offset oldLine = r.
Proof.
  induction hunks as [|head rest IH];
    intros offset oldLine hunk r Hst Hinv Hord Hin Hr Hw.
  - destruct Hin.
  - simpl in Hinv, Hord.
    apply andb_true_iff in Hinv. destruct Hinv as [Hhead Hinv].
    apply andb_true_iff in Hord. destruct Hord as [Hbefore Hord].
    destruct (hunkCovers_true head Hhead) as (_ & Eo & En & Bo & Bn).
    destruct (Hst head (or_introl eq_refl)) as [So Sn].
    pose proof (oldCount_nonneg (Lines head)) as Po.
    simpl mapOldLoop.
    rewrite (add_small (OldStart head) (OldLines head))
      by (unfold GoInt.minInt; lia).
    destruct Hin as [->|Hin].
    + replace (oldLine <? OldStart hunk) with false
        by (symmetry; apply Z.ltb_ge; lia).
      replace (oldLine >=? OldStart hunk + OldLines hunk) with false
        by (symmetry; rewrite Z.geb_leb; apply Z.leb_gt; lia).
      rewrite Hw. reflexivity.
    + rewrite forallb_forall in Hbefore.
      destruct (endsBefore_true head hunk (Hbefore hunk Hin)) as [Lo _].
      replace (oldLine <? OldStart head) with false
        by (symmetry; apply Z.ltb_ge; lia).
      replace (oldLine >=? OldStart head + OldLines head) with true
        by (symmetry; rewrite Z.geb_leb; apply Z.leb_le; lia).
      apply (IH _ oldLine hunk r); try assumption.
      intros h Hh. apply Hst. right. exact Hh.
Qed.

Lemma mapNewLoop_in_hunk (hunks : list DiffHunk) :
  forall offset newLine hunk r,
    (forall h, In h hunks -> 0 <= OldStart h /\ 0 <= NewStart h) ->
    forallb hunkCovers hunks = true ->
    inFileOrder hunks = true ->
    In hunk hunks ->
    NewStart hunk <= newLine < NewStart hunk + NewLines hunk ->
    walkNew (Lines hunk) (OldStart hunk) (NewStart hunk) newLine = Some r ->
    mapNewLoop hunks offset newLine = r.
Proof.
  induction hunks as [|head rest IH];
    intros offset newLine hunk r Hst Hinv Hord Hin Hr Hw.
  - destruct Hin.
  - simpl in Hinv, Hord.
    apply andb_true_iff in Hinv. destruct Hinv as [Hhead Hinv].
    apply andb_true_iff in Hord. destruct Hord as [Hbefore Hord].
    destruct (hunkCovers_true head Hhead) as (_ & Eo & En & Bo & Bn).
    destruct (Hst head (or_introl eq_refl)) as [So Sn].
    pose proof (newCount_nonneg (Lines head)) as Pn.
    simpl mapNewLoop.
    rewrite (add_small (NewStart head) (NewLines head))
      by (unfold GoInt.minInt; lia).
    destruct Hin as [->|Hin].
    + replace (newLine <? NewStart hunk) with false
        by (symmetry; apply Z.ltb_ge; lia).
      replace (newLine >=? NewStart hunk + NewLines hunk) with false
        by (symmetry; rewrite Z.geb_leb; apply Z.leb_gt; lia).
      rewrite Hw. reflexivity.
    + rewrite forallb_forall in Hbefore.
      destruct (endsBefore_true head hunk (Hbefore hunk Hin)) as [_ Ln].
      replace (newLine <? NewStart head) with false
        by (symmetry; apply Z.ltb_ge; lia).
      replace (newLine >=? NewStart head + NewLines head) with true
        by (symmetry; rewrite Z.geb_leb; apply Z.leb_le; lia).
      apply (IH _ newLine hunk r); try assumption.
      intros h Hh. apply Hst. right. exact Hh.
Qed.

(** No hunk of an ordered patch starts after a line of one of its hunks. *)
Lemma first_start_covered (first : DiffHunk) (rest : list DiffHunk) (hunk : DiffHunk) :
  forallb hunkCovers (first :: rest) = true ->
  inFileOrder (first :: rest) = true ->
  In hunk (first :: rest) ->
  OldStart first <= OldStart hunk /\ NewStart first <= NewStart hunk.
Proof.
  intros Hinv Hord Hin. simpl in Hinv, Hord.
  apply andb_true_iff in Hinv. destruct Hinv as [Hhead _].
  apply andb_true_iff in Hord. destruct Hord as [Hbefore _].
  destruct (hunkCovers_true first Hhead) as (_ & Eo & En & _ & _).
  pose proof (oldCount_nonneg (Lines first)).
  pose proof (newCount_nonneg (Lines first)).
  destruct Hin as [->|Hin]; [lia|].
  rewrite forallb_forall in Hbefore.
  destruct (endsBefore_true first hunk (Hbefore hunk Hin)). lia.
Qed.

Lemma forallb_invariant_covers (hunks : list DiffHunk) :
  forallb hunkInvariant hunks = true -> forallb hunkCovers hunks = true.
Proof.
  rewrite !forallb_forall. intros H hunk Hin.
  apply hunkInvariant_covers. apply H. exact Hin.
Qed.

Lemma first_start (first : DiffHunk) (rest : list DiffHunk) (hunk : DiffHunk) :
  forallb hunkInvariant (first :: rest) = true ->
  inFileOrder (first :: rest) = true ->
  In hunk (first :: rest) ->
  OldStart first <= OldStart hunk /\ NewStart first <= NewStart hunk.
Proof.
  intros Hinv. apply first_start_covered. apply forallb_invariant_covers. exact Hinv.
Qed.

Section AtLine.

Variable patch : string.
Variable hunks : list DiffHunk.
Hypothesis parsed : ParsePatch patch = Ok hunks.
Hypothesis covers : patchCovers hunks = true.

Variable hunk : DiffHunk.
Variable line : DiffLine.
Hypothesis hunk_in : In hunk hunks.
Hypothesis line_in : In line (Lines hunk).

Lemma patchCovers_hunk :
  forallb hunkCovers hunks = true /\ inFileOrder hunks = true
  /\ hunkCovers hunk = true.
Proof.
  unfold patchCovers in covers. apply andb_true_iff in covers.
  destruct covers as [Hall Hord]. repeat split; try assumption.
  rewrite forallb_forall in Hall. apply Hall. exact hunk_in.
Qed.

(** What [MapOldPositionToNew] returns at the number of a line of the
    old side. *)
Lemma MapOldPositionToNew_covered :
  onOldSide line = true ->
  MapOldPositionToNew patch (OldLineNumber line)
  = Ok (match Type_ line with Context => NewLineNumber line | _ => -1 end).
Proof.
  intros Hside.
  destruct patchCovers_hunk as (Hall & Hord & Hh).
  destruct (hunkCovers_true hunk Hh) as (Hnum & Eo & En & Bo & Bn).
  destruct (parsed_starts patch hunks parsed hunk hunk_in) as [So Sn].
  destruct (walkOld_found (Lines hunk) (OldStart hunk) (NewStart hunk) line Hnum)
    as [R W]; try assumption;
    try (unfold GoInt.minInt; lia); try lia.
  unfold MapOldPositionToNew. rewrite parsed.
  destruct hunks as [|first rest] eqn:E; [destruct hunk_in|].
  destruct (first_start_covered first rest hunk Hall Hord hunk_in) as [Lo _].
  replace (OldLineNumber line <? OldStart first) with false
    by (symmetry; apply Z.ltb_ge; lia).
  f_equal.
  apply (mapOldLoop_in_hunk (first :: rest) 0 (OldLineNumber line) hunk);
    try assumption; try lia.
  rewrite <- E in parsed. rewrite <- E. exact (parsed_starts patch hunks parsed).
Qed.

Lemma MapNewPositionToOld_covered :
  onNewSide line = true ->
  MapNewPositionToOld patch (NewLineNumber line)
  = Ok (match Type_ line with Context => OldLineNumber line | _ => -1 end).
Proof.
  intros Hside.
  destruct patchCovers_hunk as (Hall & Hord & Hh).
  destruct (hunkCovers_true hunk Hh) as (Hnum & Eo & En & Bo & Bn).
  destruct (parsed_starts patch hunks parsed hunk hunk_in) as [So Sn].
  destruct (walkNew_found (Lines hunk) (OldStart hunk) (NewStart hunk) line Hnum)
    as [R W]; try assumption;
    try (unfold GoInt.minInt; lia); try lia.
  unfold MapNewPositionToOld. rewrite parsed.
  destruct hunks as [|first rest] eqn:E; [destruct hunk_in|].
  destruct (first_start_covered first rest hunk Hall Hord hunk_in) as [_ Ln].
  replace (NewLineNumber line <? NewStart first) with false
    by (symmetry; apply Z.ltb_ge; lia).
  f_equal.
  apply (mapNewLoop_in_hunk (first :: rest) 0 (NewLineNumber line) hunk);
    try assumption; try lia.
  rewrite <- E in parsed. rewrite <- E. exact (parsed_starts patch hunks parsed).
Qed.

End AtLine.

Variable patch : string.
Variable hunks : list DiffHunk.
Hypothesis parsed : ParsePatch patch = Ok hunks.
Hypothesis invariant : patchInvariant hunks = true.

Variable hunk : DiffHunk.
Variable line : DiffLine.
Hypothesis hunk_in : In hunk hunks.
Hypothesis line_in : In line (Lines hunk).

Lemma patchInvariant_hunk :
  forallb hunkInvariant hunks = true /\ inFileOrder hunks = true
  /\ hunkInvariant hunk = true.
Proof.
  unfold patchInvariant in invariant. apply andb_true_iff in invariant.
  destruct invariant as [Hall Hord]. repeat split; try assumption.
  rewrite forallb_forall in Hall. apply Hall. exact hunk_in.
Qed.

Lemma patchInvariant_covers : patchCovers hunks = true.
Proof.
  destruct patchInvariant_hunk as (Hall & Hord & _).
  unfold patchCovers. rewrite (forallb_invariant_covers hunks Hall), Hord.
  reflexivity.
Qed.

Lemma MapOldPositionToNew_at_line :
  onOldSide line = true ->
  MapOldPositionToNew patch (OldLineNumber line)
  = Ok (match Type_ line with Context => NewLineNumber line | _ => -1 end).
Proof.
  exact (MapOldPositionToNew_covered patch hunks parsed patchInvariant_covers
           hunk line hunk_in line_in).
Qed.

Lemma MapNewPositionToOld_at_line :
  onNewSide line = true ->
  MapNewPositionToOld patch (NewLineNumber line)
  = Ok (match Type_ line with Context => OldLineNumber line | _ => -1 end).
Proof.
  exact (MapNewPositionToOld_covered patch hunks parsed patchInvariant_covers
           hunk line hunk_in line_in).
Qed.

End PositionMapping.

(** C4, as amended: for every patch that parses into hunks that cover
    their lines (the lines are numbered from the declared starts, which
    they are when each starts with one of the four markers; the header
    declares on each side at least the lines of the body, exactly them in
    a complete hunk and more in one that is cut short; the declared line
    numbers are Go integers) and stand in file order without
    overlapping, and for every Context line of it, [MapOldPositionToNew]
    sends the old number of the line to its new number and
    [MapNewPositionToOld] sends that new number back to the old one. *)
Theorem context_line_roundtrip (patch : string) (hunks : list DiffHunk)
    (line : DiffLine) :
  ParsePatch patch = Ok hunks ->
  patchCovers hunks = true ->
  hasLine hunks Context line ->
  MapOldPositionToNew patch (OldLineNumber line) = Ok (NewLineNumber line)
  /\ MapNewPositionToOld patch (NewLineNumber line) = Ok (OldLineNumber line).
Proof.
  intros Hp Hinv (hunk & Hh & Hl & Hk).
  split.
  - rewrite (MapOldPositionToNew_covered patch hunks Hp Hinv hunk line Hh Hl).
    + rewrite Hk. reflexivity.
    + unfold onOldSide. rewrite Hk. reflexivity.
  - rewrite (MapNewPositionToOld_covered patch hunks Hp Hinv hunk line Hh Hl).
    + rewrite Hk. reflexivity.
    + unfold onNewSide. rewrite Hk. reflexivity.
Qed.

Lemma context_line_roundtrip_witness :
  ParsePatch cutShortPatch = Ok [cutShortParsed]
  /\ patchCovers [cutShortParsed] = true
  /\ hasLine [cutShortParsed] Context (mkDiffLine Context 11 11 "b" 1)
  /\ MapOldPositionToNew cutShortPatch 11 = Ok 11
  /\ MapNewPositionToOld cutShortPatch 11 = Ok 11.
Proof.
  assert (L : hasLine [cutShortParsed] Context (mkDiffLine Context 11 11 "b" 1)).
  { eexists. split; [left; reflexivity|].
    split; [right; left; reflexivity | reflexivity]. }
  split; [reflexivity|]. split; [reflexivity|]. split; [exact L|].
  exact (context_line_roundtrip cutShortPatch [cutShortParsed]
           (mkDiffLine Context 11 11 "b" 1) eq_refl eq_refl L).
Defined.

(** C4 as stated fails, in each of the ways the amendment excludes. The
    mappings trust the counts of the header: where it declares one new
    line over two context lines, old line 2 goes to new line 2 and new
    line 2 to old line 6; where it declares one old line over two, old
    line 2 goes to new line 3 and new line 3 to old line 1. They count
    the lines of a hunk themselves: after a line of unknown marker, which
    the parser does not number, old line 2 of a Context line is found at
    the deletion and sent to -1. And they take the hunks in the order of
    the patch: with a second hunk that lies before the first in the new
    file, old line 3 goes to new line 2, which is taken for a line before
    the first hunk and sent to old line 2. Their sums are those of Go
    integers: under a header whose old lines end past the largest [int],
    the Context line at that number is taken for a line after the hunk,
    and the offset added to it wraps around. *)
Lemma context_line_roundtrip_counterexample :
  (ParsePatch miscountedPatch = Ok [miscountedParsed]
   /\ hasLine [miscountedParsed] Context (mkDiffLine Context 2 2 "b" 1)
   /\ MapOldPositionToNew miscountedPatch 2 = Ok 2
   /\ MapNewPositionToOld miscountedPatch 2 = Ok 6)
  /\ (ParsePatch oneOldLinePatch = Ok [oneOldLineParsed]
      /\ hasLine [oneOldLineParsed] Context (mkDiffLine Context 2 4 "b" 1)
      /\ MapOldPositionToNew oneOldLinePatch 2 = Ok 3
      /\ MapNewPositionToOld oneOldLinePatch 3 = Ok 1)
  /\ (ParsePatch unnumberedPatch = Ok [unnumberedParsed]
      /\ hasLine [unnumberedParsed] Context (mkDiffLine Context 2 1 "a" 2)
      /\ MapOldPositionToNew unnumberedPatch 2 = Ok (-1)
      /\ MapNewPositionToOld unnumberedPatch (-1) = Ok (-1))
  /\ (ParsePatch unorderedPatch = Ok unorderedParsed
      /\ forallb hunkCovers unorderedParsed = true
      /\ hasLine unorderedParsed Context (mkDiffLine Context 3 2 "b" 0)
      /\ MapOldPositionToNew unorderedPatch 3 = Ok 2
      /\ MapNewPositionToOld unorderedPatch 2 = Ok 2)
  /\ (ParsePatch lastLinesPatch = Ok [lastLinesParsed]
      /\ hasLine [lastLinesParsed] Context
           (mkDiffLine Context 9223372036854775807 1 "a" 1)
      /\ MapOldPositionToNew lastLinesPatch 9223372036854775807
         = Ok (-9223372036854775808)
      /\ MapNewPositionToOld lastLinesPatch (-9223372036854775808)
         = Ok (-9223372036854775808)).
Proof.
  split; [|split; [|split; [|split]]].
  - split; [reflexivity|]. split; [|split; reflexivity].
    eexists. split; [left; reflexivity|].
    split; [right; left; reflexivity | reflexivity].
  - split; [reflexivity|]. split; [|split; reflexivity].
    eexists. split; [left; reflexivity|].
    split; [right; left; reflexivity | reflexivity].
  - split; [reflexivity|]. split; [|split; reflexivity].
    eexists. split; [left; reflexivity|].
    split; [right; right; left; reflexivity | reflexivity].
  - split; [reflexivity|]. split; [reflexivity|]. split; [|split; reflexivity].
    eexists. split; [right; left; reflexivity|].
    split; [left; reflexivity | reflexivity].
  - split; [reflexivity|]. split; [|split; reflexivity].
    eexists. split; [left; reflexivity|].
    split; [right; left; reflexivity | reflexivity].
Qed.

(** C8, as amended: for every patch that parses into hunks that cover
    their lines (numbered from the declared starts, with headers that
    declare on each side at least the lines of the body, within the Go
    integers) and stand in file order without overlapping,
    [MapOldPositionToNew] returns -1 at the old number of a Delete line and
    [MapNewPositionToOld] returns -1 at the new number of an Add line. *)
Theorem changed_line_has_no_counterpart (patch : string) (hunks : list DiffHunk)
    (line : DiffLine) :
  ParsePatch patch = Ok hunks ->
  patchCovers hunks = true ->
  (hasLine hunks Delete line ->
   MapOldPositionToNew patch (OldLineNumber line) = Ok (-1))
  /\ (hasLine hunks Add line ->
      MapNewPositionToOld patch (NewLineNumber line) = Ok (-1)).
Proof.
  intros Hp Hinv. split; intros (hunk & Hh & Hl & Hk).
  - rewrite (MapOldPositionToNew_covered patch hunks Hp Hinv hunk line Hh Hl).
    + rewrite Hk. reflexivity.
    + unfold onOldSide. rewrite Hk. reflexivity.
  - rewrite (MapNewPositionToOld_covered patch hunks Hp Hinv hunk line Hh Hl).
    + rewrite Hk. reflexivity.
    + unfold onNewSide. rewrite Hk. reflexivity.
Qed.

Lemma changed_line_has_no_counterpart_witness :
  ParsePatch twoHunkPatch = Ok twoHunkParsed
  /\ patchCovers twoHunkParsed = true
  /\ hasLine twoHunkParsed Delete (mkDiffLine Delete 11 (-1) "deleted line" 1)
  /\ MapOldPositionToNew twoHunkPatch 11 = Ok (-1)
  /\ ParsePatch cutShortPatch = Ok [cutShortParsed]
  /\ patchCovers [cutShortParsed] = true
  /\ hasLine [cutShortParsed] Add (mkDiffLine Add (-1) 12 "c" 2)
  /\ MapNewPositionToOld cutShortPatch 12 = Ok (-1).
Proof.
  assert (D : hasLine twoHunkParsed Delete (mkDiffLine Delete 11 (-1) "deleted line" 1)).
  { eexists. split; [left; reflexivity|].
    split; [right; left; reflexivity | reflexivity]. }
  assert (A : hasLine [cutShortParsed] Add (mkDiffLine Add (-1) 12 "c" 2)).
  { eexists. split; [left; reflexivity|].
    split; [right; right; left; reflexivity | reflexivity]. }
  split; [reflexivity|]. split; [reflexivity|]. split; [exact D|].
  split; [|split; [reflexivity|]; split; [reflexivity|]; split; [exact A|]].
  - exact (proj1 (changed_line_has_no_counterpart twoHunkPatch twoHunkParsed
                    (mkDiffLine Delete 11 (-1) "deleted line" 1) eq_refl eq_refl) D).
  - exact (proj2 (changed_line_has_no_counterpart cutShortPatch [cutShortParsed]
                    (mkDiffLine Add (-1) 12 "c" 2) eq_refl eq_refl) A).
Defined.

(** C8 as stated fails, in each of the ways the amendment excludes. With
    a header that declares one old line over two deletions, the second
    deleted line, old line 2, is taken for a line after the hunk and
    mapped to new line 1; with one that declares one new line over two
    additions, the second added line, new line 2, is mapped to old
    line 1. After a line of unknown marker, which the parser does not
    number, the deleted old line 1 is found at that line and mapped to
    new line 1. And with a second hunk that lies before the first in the
    new file, its added line, new line 3, is taken for a line before the
    first hunk and mapped to old line 3. Their sums are those of Go
    integers: under a header whose old lines end past the largest [int],
    the deleted line is taken for a line after the hunk and mapped to
    the line after it. *)
Lemma changed_line_has_no_counterpart_counterexample :
  (ParsePatch twoDeletionsPatch = Ok [twoDeletionsParsed]
   /\ hasLine [twoDeletionsParsed] Delete (mkDiffLine Delete 2 (-1) "b" 1)
   /\ MapOldPositionToNew twoDeletionsPatch 2 = Ok 1)
  /\ (ParsePatch twoAdditionsPatch = Ok [twoAdditionsParsed]
      /\ hasLine [twoAdditionsParsed] Add (mkDiffLine Add (-1) 2 "b" 1)
      /\ MapNewPositionToOld twoAdditionsPatch 2 = Ok 1)
  /\ (ParsePatch unnumberedPatch = Ok [unnumberedParsed]
      /\ hasLine [unnumberedParsed] Delete (mkDiffLine Delete 1 (-1) "d" 1)
      /\ MapOldPositionToNew unnumberedPatch 1 = Ok 1)
  /\ (ParsePatch unorderedPatch = Ok unorderedParsed
      /\ forallb hunkCovers unorderedParsed = true
      /\ hasLine unorderedParsed Add (mkDiffLine Add (-1) 3 "e" 1)
      /\ MapNewPositionToOld unorderedPatch 3 = Ok 3)
  /\ (ParsePatch lastLinesPatch = Ok [lastLinesParsed]
      /\ hasLine [lastLinesParsed] Delete
           (mkDiffLine Delete 9223372036854775806 (-1) "d" 0)
      /\ MapOldPositionToNew lastLinesPatch 9223372036854775806
         = Ok 9223372036854775807).
Proof.
  split; [|split; [|split; [|split]]].
  - split; [reflexivity|]. split; [|reflexivity].
    eexists. split; [left; reflexivity|].
    split; [right; left; reflexivity | reflexivity].
  - split; [reflexivity|]. split; [|reflexivity].
    eexists. split; [left; reflexivity|].
    split; [right; left; reflexivity | reflexivity].
  - split; [reflexivity|]. split; [|reflexivity].
    eexists. split; [left; reflexivity|].
    split; [right; left; reflexivity | reflexivity].
  - split; [reflexivity|]. split; [reflexivity|]. split; [|reflexivity].
    eexists. split; [right; left; reflexivity|].
    split; [right; left; reflexivity | reflexivity].
  - split; [reflexivity|]. split; [|reflexivity].
    eexists. split; [left; reflexivity|].
    split; [left; reflexivity | reflexivity].
Qed.

(** ** Slices, loops and panics *)

Section SliceFacts.

Lemma index_Done {A : Type} (xs : list A) (i : Z) (x : A) :
  index xs i = Done x <->
  0 <= i < GoInt.len xs /\ nth_error xs (Z.to_nat i) = Some x.
Proof.
  unfold index. split.
  - destruct (i <? 0) eqn:H0; [discriminate|].
    destruct (i >=? GoInt.len xs) eqn:H1; [discriminate|].
    simpl. apply Z.ltb_ge in H0. rewrite Z.geb_leb in H1. apply Z.leb_gt in H1.
    destruct (nth_error xs (Z.to_nat i)); [|discriminate].
    intros H. inversion H. split; [lia | reflexivity].
  - intros [[H0 H1] Hn].
    replace (i <? 0) with false by (symmetry; apply Z.ltb_ge; lia).
    replace (i >=? GoInt.len xs) with false
      by (symmetry; rewrite Z.geb_leb; apply Z.leb_gt; lia).
    simpl. rewrite Hn. reflexivity.
Qed.

Lemma index_not_Fail {A : Type} (xs : list A) (i : Z) (e : applyError) :
  index xs i <> Fail e.
Proof.
  unfold index. destruct ((i <? 0) || (i >=? GoInt.len xs)); [discriminate|].
  destruct (nth_error xs (Z.to_nat i)); discriminate.
Qed.

(** An index within the bounds is never a panic. *)
Lemma index_in_range {A : Type} (xs : list A) (i : Z) :
  0 <= i < GoInt.len xs -> exists x, index xs i = Done x.
Proof.
  intros H. destruct (nth_error xs (Z.to_nat i)) as [x|] eqn:E.
  - exists x. apply index_Done. auto.
  - exfalso. apply nth_error_None in E. unfold GoInt.len in H. lia.
Qed.


Lemma zrange_nil (lo hi : Z) : hi <= lo -> zrange lo hi = [].
Proof.
  intros H. unfold zrange. replace (Z.to_nat (hi - lo)) with 0%nat by lia.
  reflexivity.
Qed.

Lemma zrange_cons (lo hi : Z) :
  lo < hi -> zrange lo hi = lo :: zrange (lo + 1) hi.
Proof.
  intros H. unfold zrange.
  replace (Z.to_nat (hi - lo)) with (S (Z.to_nat (hi - (lo + 1)))) by lia.
  simpl. f_equal; [lia|].
  rewrite <- seq_shift, map_map. apply map_ext. intros k. lia.
Qed.

Lemma zrange_In (lo hi i : Z) : In i (zrange lo hi) <-> lo <= i < hi.
Proof.
  unfold zrange. rewrite in_map_iff. split.
  - intros (k & <- & Hk). apply in_seq in Hk. lia.
  - intros H. exists (Z.to_nat (i - lo)). split; [lia|].
    apply in_seq. lia.
Qed.

Lemma seq_offset (a n : nat) : seq a n = map (Nat.add a) (seq 0 n).
Proof.
  revert a. induction n as [|n IH]; intros a.
  - reflexivity.
  - simpl. f_equal; [lia|].
    rewrite (IH (S a)), <- seq_shift, map_map.
    apply map_ext. intros k. lia.
Qed.

Lemma zrange_app (lo mid hi : Z) :
  lo <= mid <= hi -> zrange lo hi = (zrange lo mid ++ zrange mid hi)%list.
Proof.
  intros H. unfold zrange.
  replace (Z.to_nat (hi - lo))
    with (Z.to_nat (mid - lo) + Z.to_nat (hi - mid))%nat by lia.
  rewrite seq_app, map_app. f_equal.
  simpl. rewrite (seq_offset (Z.to_nat (mid - lo))).
  rewrite map_map. apply map_ext. intros k. lia.
Qed.

End SliceFacts.

(** ** Comparing the file with the added lines *)

Section Comparison.

Variable fileLines : list string.

Lemma occursAt_nth (added : list string) (k : nat) :
  occursAt fileLines added k <->
  (forall q x, nth_error added q = Some x ->
               nth_error fileLines (k + q) = Some x).
Proof.
  unfold occursAt. split.
  - intros H q x Hq. rewrite <- H, nth_error_firstn in Hq.
    destruct (Nat.ltb q (List.length added)); [|discriminate].
    rewrite nth_error_skipn in Hq. exact Hq.
  - intros H. apply nth_error_ext. intros q.
    rewrite nth_error_firstn, nth_error_skipn.
    destruct (Nat.ltb q (List.length added)) eqn:Hq.
    + apply Nat.ltb_lt in Hq.
      destruct (nth_error added q) as [x|] eqn:E.
      * apply H. exact E.
      * apply nth_error_None in E. lia.
    + apply Nat.ltb_ge in Hq. symmetry. apply nth_error_None. exact Hq.
Qed.

Lemma occursAt_bound (added : list string) (k : nat) :
  added <> [] -> occursAt fileLines added k ->
  Z.of_nat k + GoInt.len added <= GoInt.len fileLines.
Proof.
  unfold occursAt, GoInt.len. intros Hne H.
  apply (f_equal (@List.length string)) in H.
  rewrite length_firstn, length_skipn in H.
  destruct added; [congruence|]. simpl List.length in *. lia.
Qed.

(** No difference found: every added line was read from the file. *)
Lemma firstDifference_None (base : Z) (added : list string) :
  forall j,
    firstDifference fileLines base j added = Done None ->
    forall q x, nth_error added q = Some x ->
                index fileLines (GoInt.add base (j + Z.of_nat q)) = Done x.
Proof.
  induction added as [|expected rest IH]; intros j H q x Hq.
  - destruct q; discriminate.
  - simpl in H.
    destruct (index fileLines (GoInt.add base j)) as [actual| |] eqn:Hi;
      try discriminate.
    simpl in H. destruct (String.eqb actual expected) eqn:He; [|discriminate].
    apply String.eqb_eq in He. subst actual.
    destruct q as [|q].
    + simpl in Hq. inversion Hq; subst. rewrite Z.add_0_r. exact Hi.
    + simpl in Hq. replace (j + Z.of_nat (S q)) with (j + 1 + Z.of_nat q) by lia.
      exact (IH (j + 1) H q x Hq).
Qed.

(** The first index at which the file differs is the one reported. *)
Lemma firstDifference_Some (base : Z) (added : list string) :
  forall j q expected actual,
    (forall q' x, (q' < q)%nat -> nth_error added q' = Some x ->
                  index fileLines (GoInt.add base (j + Z.of_nat q')) = Done x) ->
    nth_error added q = Some expected ->
    index fileLines (GoInt.add base (j + Z.of_nat q)) = Done actual ->
    actual <> expected ->
    firstDifference fileLines base j added = Done (Some (j + Z.of_nat q)).
Proof.
  induction added as [|head rest IH]; intros j q expected actual Hbefore Hq Hi Hne.
  - destruct q; discriminate.
  - destruct q as [|q].
    + simpl in Hq. inversion Hq; subst head.
      change (Z.of_nat 0) with 0 in *. rewrite Z.add_0_r in *.
      cbn [firstDifference]. rewrite Hi. simpl.
      replace (String.eqb actual expected) with false
        by (symmetry; apply String.eqb_neq; exact Hne).
      reflexivity.
    + pose proof (Hbefore 0%nat head ltac:(lia) eq_refl) as H0.
      change (Z.of_nat 0) with 0 in H0. rewrite Z.add_0_r in H0.
      replace (j + Z.of_nat (S q)) with (j + 1 + Z.of_nat q) in * by lia.
      cbn [firstDifference]. rewrite H0. cbn [bind].
      rewrite String.eqb_refl.
      apply (IH (j + 1) q expected actual); [|exact Hq|exact Hi|exact Hne].
      intros q' x Hlt Hx.
      replace (j + 1 + Z.of_nat q') with (j + Z.of_nat (S q')) by lia.
      apply Hbefore; [lia | exact Hx].
Qed.

Lemma firstDifference_not_Fail (base : Z) (added : list string) :
  forall j e, firstDifference fileLines base j added <> Fail e.
Proof.
  induction added as [|expected rest IH]; intros j e; simpl.
  - discriminate.
  - destruct (index fileLines (GoInt.add base j)) as [actual| |] eqn:Hi; simpl.
    + destruct (String.eqb actual expected); [apply IH | discriminate].
    + exfalso. eapply index_not_Fail. eassumption.
    + discriminate.
Qed.

Hypothesis file_fits : GoInt.fits fileLines.

(** Within the file, an index expression [base + q] does not wrap. *)
Lemma index_at (base q : Z) (x : string) :
  0 <= base -> 0 <= q -> base + q < GoInt.len fileLines ->
  (index fileLines (GoInt.add base q) = Done x <->
   nth_error fileLines (Z.to_nat (base + q)) = Some x).
Proof.
  intros Hb Hq Hlt. unfold GoInt.fits in file_fits.
  rewrite add_small by (unfold GoInt.minInt; lia).
  rewrite index_Done. intuition lia.
Qed.

(** Where the added lines stand in the file, the comparison finds no
    difference. *)
Lemma firstDifference_occursAt (added : list string) (k : nat) :
  added <> [] ->
  occursAt fileLines added k ->
  firstDifference fileLines (Z.of_nat k) 0 added = Done None.
Proof.
  intros Hne Hocc.
  pose proof (occursAt_bound added k Hne Hocc) as Hb.
  rewrite occursAt_nth in Hocc.
  assert (G : forall rest j,
             (forall q x, nth_error rest q = Some x ->
                          nth_error added (j + q) = Some x) ->
             firstDifference fileLines (Z.of_nat k) (Z.of_nat j) rest = Done None).
  { induction rest as [|expected rest IH]; intros j Hsuffix.
    - reflexivity.
    - simpl.
      pose proof (Hsuffix 0%nat expected eq_refl) as Hj.
      rewrite Nat.add_0_r in Hj.
      assert (Hlt : (j < List.length added)%nat)
        by (apply nth_error_Some; congruence).
      pose proof (Hocc j expected Hj) as Hf.
      assert (Hi : index fileLines (GoInt.add (Z.of_nat k) (Z.of_nat j))
                   = Done expected).
      { apply index_at; unfold GoInt.len in *; try lia.
        replace (Z.to_nat (Z.of_nat k + Z.of_nat j)) with (k + j)%nat by lia.
        exact Hf. }
      rewrite Hi. simpl. rewrite String.eqb_refl.
      replace (Z.of_nat j + 1) with (Z.of_nat (S j)) by lia.
      apply IH. intros q x Hq.
      replace (S j + q)%nat with (j + S q)%nat by lia.
      apply Hsuffix. exact Hq. }
  apply (G added 0%nat). intros q x Hq. exact Hq.
Qed.

(** Conversely, a comparison without difference at an [int] offset that
    is not negative means that the added lines stand there. *)
Lemma firstDifference_None_occursAt (added : list string) (t : Z) :
  GoInt.fits added ->
  added <> [] ->
  0 <= t <= GoInt.maxInt ->
  firstDifference fileLines t 0 added = Done None ->
  t + GoInt.len added <= GoInt.len fileLines
  /\ occursAt fileLines added (Z.to_nat t).
Proof.
  intros Hfit Hne Ht Hd.
  pose proof (firstDifference_None t added 0 Hd) as Hall.
  unfold GoInt.fits in *.
  assert (Hb : t + GoInt.len added <= GoInt.len fileLines).
  { destruct (Z_le_gt_dec (t + GoInt.len added) (GoInt.len fileLines)) as [|Hgt];
      [assumption|exfalso].
    assert (H0 : t < GoInt.len fileLines).
    { destruct added as [|a rest]; [congruence|].
      pose proof (Hall 0%nat a eq_refl) as H0. simpl in H0.
      rewrite add_small in H0 by (unfold GoInt.minInt; lia).
      apply index_Done in H0. lia. }
    set (q := Z.to_nat (GoInt.len fileLines - t)).
    assert (Hq : (q < List.length added)%nat)
      by (unfold GoInt.len in *; lia).
    destruct (nth_error added q) as [x|] eqn:E;
      [|apply nth_error_None in E; lia].
    pose proof (Hall q x E) as Hx.
    rewrite add_small in Hx by (unfold GoInt.minInt, GoInt.len in *; lia).
    apply index_Done in Hx. unfold GoInt.len in *. lia. }
  split; [exact Hb|].
  apply occursAt_nth. intros q x Hq.
  assert (Hlt : (q < List.length added)%nat)
    by (apply nth_error_Some; congruence).
  pose proof (Hall q x Hq) as Hx.
  apply index_at in Hx; unfold GoInt.len in *; try lia.
  replace (Z.to_nat t + q)%nat with (Z.to_nat (t + (0 + Z.of_nat q))) by lia.
  exact Hx.
Qed.

End Comparison.

(** ** The two strategies *)

Section Strategies.

Variable fileLines : list string.
Variable added : list string.

Lemma searchOffsets_Done (idxs : list Z) (t : Z) :
  searchOffsets fileLines added idxs = Done t ->
  t = -1 \/ (In t idxs /\ firstDifference fileLines t 0 added = Done None).
Proof.
  induction idxs as [|i more IH]; simpl; intros H.
  - inversion H. left. reflexivity.
  - destruct (firstDifference fileLines i 0 added) as [[d|]| |] eqn:Hd;
      simpl in H; try discriminate.
    + destruct (IH H) as [->|[Hin Hn]]; [left; reflexivity | right; auto].
    + inversion H; subst. right. auto.
Qed.

Lemma searchOffsets_not_Fail (idxs : list Z) (e : applyError) :
  searchOffsets fileLines added idxs <> Fail e.
Proof.
  induction idxs as [|i more IH]; simpl.
  - discriminate.
  - destruct (firstDifference fileLines i 0 added) as [[d|]| |] eqn:Hd; simpl.
    + exact IH.
    + discriminate.
    + exfalso. eapply firstDifference_not_Fail. eassumption.
    + discriminate.
Qed.

(** The search stops at the first offset without difference. *)
Lemma searchOffsets_first (before after : list Z) (k : Z) :
  (forall i, In i before ->
             exists d, firstDifference fileLines i 0 added = Done (Some d)) ->
  firstDifference fileLines k 0 added = Done None ->
  searchOffsets fileLines added (before ++ k :: after)%list = Done k.
Proof.
  induction before as [|i more IH]; intros Hb Hk; simpl.
  - rewrite Hk. reflexivity.
  - destruct (Hb i (or_introl eq_refl)) as [d Hd]. rewrite Hd. simpl.
    apply IH; [|exact Hk]. intros i' Hi'. apply Hb. right. exact Hi'.
Qed.

Lemma contentMatching_Done (t : Z) :
  contentMatching fileLines added = Done t ->
  0 <= t <= GoInt.sub (GoInt.len fileLines) (GoInt.len added)
  /\ firstDifference fileLines t 0 added = Done None.
Proof.
  unfold contentMatching.
  destruct (searchOffsets fileLines added _) as [m| |] eqn:Hs; simpl;
    try discriminate.
  destruct (m =? -1) eqn:Hm.
  - destruct (index added 0); simpl; discriminate.
  - intros H. inversion H; subst m. apply Z.eqb_neq in Hm.
    destruct (searchOffsets_Done _ _ Hs) as [?|[Hin Hn]]; [contradiction|].
    apply zrange_In in Hin. split; [lia | exact Hn].
Qed.

Lemma contentMatching_Fail (e : applyError) :
  contentMatching fileLines added = Fail e ->
  exists count first, e = NoContentMatch count first.
Proof.
  unfold contentMatching.
  destruct (searchOffsets fileLines added _) as [m| |] eqn:Hs; simpl.
  - destruct (m =? -1); [|discriminate].
    destruct (index added 0) as [first| |] eqn:Hi; simpl; try discriminate.
    + intros H. inversion H. eauto.
    + exfalso. eapply index_not_Fail. eassumption.
  - exfalso. eapply searchOffsets_not_Fail. eassumption.
  - discriminate.
Qed.

Hypothesis file_fits : GoInt.fits fileLines.

(** Within the file, the comparison never panics. *)
Lemma firstDifference_in_range (base : Z) (rest : list string) :
  forall j,
    0 <= base -> 0 <= j ->
    base + j + GoInt.len rest <= GoInt.len fileLines ->
    exists r, firstDifference fileLines base j rest = Done r.
Proof.
  induction rest as [|expected rest IH]; intros j Hb Hj Hlen.
  - eexists. reflexivity.
  - rewrite len_cons in Hlen. pose proof (len_nonneg rest).
    unfold GoInt.fits in file_fits.
    cbn [firstDifference].
    rewrite add_small by (unfold GoInt.minInt; lia).
    destruct (index_in_range fileLines (base + j)) as [actual Hi]; [lia|].
    rewrite Hi. cbn [bind].
    destruct (String.eqb actual expected).
    + apply IH; lia.
    + eexists. reflexivity.
Qed.

(** Strategy 2 finds the only place where the added lines stand. *)
Lemma contentMatching_finds (k : nat) :
  added <> [] ->
  occursOnlyAt fileLines added k ->
  contentMatching fileLines added = Done (Z.of_nat k).
Proof.
  intros Hne [Hocc Honly].
  pose proof (occursAt_bound fileLines added k Hne Hocc) as Hb.
  pose proof (len_nonneg added) as Hn.
  unfold GoInt.fits in file_fits.
  assert (Hfit : GoInt.fits added) by (unfold GoInt.fits; lia).
  unfold contentMatching.
  rewrite sub_small by (unfold GoInt.minInt; lia).
  rewrite (zrange_app 0 (Z.of_nat k)) by lia.
  rewrite (zrange_cons (Z.of_nat k)) by lia.
  rewrite searchOffsets_first.
  - simpl. replace (Z.of_nat k =? -1) with false
      by (symmetry; apply Z.eqb_neq; lia).
    reflexivity.
  - intros i Hi. apply zrange_In in Hi.
    destruct (firstDifference_in_range i added 0) as [[d|] Hr]; try lia.
    + exists d. exact Hr.
    + exfalso.
      destruct (firstDifference_None_occursAt fileLines file_fits added i
                  Hfit Hne ltac:(lia) Hr) as [_ Ho].
      apply Honly in Ho. lia.
  - apply firstDifference_occursAt; assumption.
Qed.

End Strategies.

(** ** Locating the target line *)

Section Locate.

Lemma positionMapping_inRange (diffHunk : string) :
  GoInt.inRange (positionMapping diffHunk).
Proof.
  assert (R1 : GoInt.inRange (-1)) by (unfold GoInt.inRange; vm_compute; split; discriminate).
  assert (R0 : GoInt.inRange 0) by (unfold GoInt.inRange; vm_compute; split; discriminate).
  unfold positionMapping. destruct (isEmpty diffHunk); [exact R1|].
  destruct (ParseDiffHunk diffHunk) as [h|e]; [|exact R1].
  induction (Lines h) as [|line rest IH]; simpl; [exact R1|].
  destruct (DiffChangeType_eqb (Type_ line) Add); [|exact IH].
  unfold GetZeroBased. destruct (NewLineNumber line =? 0); [exact R0|].
  apply wrap_range.
Qed.

Variable writeFile : string -> string -> bool.
Variable comment : ReviewComment.
Variable fileLines : list string.

Let added : list string := GetAddedLines (DiffHunk_ comment).

Lemma candidate_inRange (t : Z) :
  candidate (DiffHunk_ comment) fileLines added = Done t -> GoInt.inRange t.
Proof.
  unfold candidate.
  destruct (positionMapping (DiffHunk_ comment) =? -1).
  - intros H. apply contentMatching_Done in H. destruct H as [[H0 H1] _].
    pose proof (wrap_range (GoInt.len fileLines - GoInt.len added)) as W.
    unfold GoInt.sub in H1. unfold GoInt.inRange, GoInt.minInt in *. lia.
  - intros H. inversion H. apply positionMapping_inRange.
Qed.

(** The verification lets a target through only where it found no
    difference, or where its guard kept it from looking. *)
Lemma verify_Done (t : Z) :
  verify writeFile comment fileLines added t = Done tt ->
  ((t >=? 0) && (GoInt.add t (GoInt.len added) <=? GoInt.len fileLines) = false)
  \/ firstDifference fileLines t 0 added = Done None.
Proof.
  unfold verify.
  destruct ((t >=? 0) && (GoInt.add t (GoInt.len added) <=? GoInt.len fileLines));
    [|left; reflexivity].
  destruct (firstDifference fileLines t 0 added) as [[j|]| |]; simpl;
    try discriminate.
  - destruct (saveMismatchDiff writeFile comment fileLines t added _); discriminate.
  - right. reflexivity.
Qed.

Lemma verify_no_difference (t : Z) :
  firstDifference fileLines t 0 added = Done None ->
  verify writeFile comment fileLines added t = Done tt.
Proof.
  intros H. unfold verify. rewrite H.
  destruct ((t >=? 0) && _); reflexivity.
Qed.

Lemma locate_Done (t : Z) :
  locate writeFile comment fileLines = Done t ->
  added <> []
  /\ candidate (DiffHunk_ comment) fileLines added = Done t
  /\ verify writeFile comment fileLines added t = Done tt.
Proof.
  unfold locate. fold added.
  destruct (GoInt.len added =? 0) eqn:Hl; [discriminate|].
  destruct (candidate (DiffHunk_ comment) fileLines added) as [c| |];
    simpl; try discriminate.
  destruct (verify writeFile comment fileLines added c) as [[]| |] eqn:Hv; simpl;
    try discriminate.
  intros H. inversion H; subst c. repeat split; try assumption.
  intros E. rewrite E in Hl. discriminate.
Qed.

Lemma added_nonempty : added <> [] -> (GoInt.len added =? 0) = false.
Proof.
  intros H. apply Z.eqb_neq. unfold GoInt.len.
  destruct added; [congruence | simpl; lia].
Qed.

End Locate.

(** ** Writing the patch *)

Section Synthesis.

Lemma append_assoc (a b c : string) : ((a ++ b) ++ c = a ++ (b ++ c))%string.
Proof. induction a as [|x a IH]; simpl; [reflexivity | rewrite IH; reflexivity]. Qed.

Lemma append_nil_r (a : string) : (a ++ EmptyString = a)%string.
Proof. induction a as [|x a IH]; simpl; [reflexivity | rewrite IH; reflexivity]. Qed.


Lemma writeEach_Done_inv {A : Type} (f : A -> outcome string) (xs : list A)
    (s : string) :
  writeEach f xs = Done s -> forall x, In x xs -> exists r, f x = Done r.
Proof.
  revert s. induction xs as [|y ys IH]; intros s H x Hin.
  - destruct Hin.
  - simpl in H. destruct (f y) as [r| |] eqn:Hy; simpl in H; try discriminate.
    destruct (writeEach f ys) as [t| |] eqn:Ht; simpl in H; try discriminate.
    destruct Hin as [->|Hin]; [eauto | eapply IH; eauto].
Qed.

Variable fileLines : list string.

Lemma skipn_nth_error (k : nat) (x : string) :
  nth_error fileLines k = Some x ->
  skipn k fileLines = x :: skipn (S k) fileLines.
Proof.
  revert k. induction fileLines as [|y ys IH]; intros k H.
  - destruct k; discriminate.
  - destruct k as [|k]; simpl in *.
    + inversion H. reflexivity.
    + apply IH. exact H.
Qed.

Lemma slice_nil (lo hi : Z) : hi <= lo -> slice fileLines lo hi = [].
Proof.
  intros H. unfold slice. replace (Z.to_nat (hi - lo)) with 0%nat by lia.
  reflexivity.
Qed.

Lemma slice_cons (lo hi : Z) (x : string) :
  0 <= lo < hi ->
  nth_error fileLines (Z.to_nat lo) = Some x ->
  slice fileLines lo hi = x :: slice fileLines (lo + 1) hi.
Proof.
  intros H Hx. unfold slice.
  replace (Z.to_nat (hi - lo)) with (S (Z.to_nat (hi - (lo + 1)))) by lia.
  rewrite (skipn_nth_error _ x Hx). simpl firstn.
  replace (Z.to_nat (lo + 1)) with (S (Z.to_nat lo)) by lia.
  reflexivity.
Qed.

(** A loop over lines that are all in the file writes them out. *)
Lemma writeLines_slice (prefix : string) (lo hi : Z) :
  0 <= lo -> hi <= GoInt.len fileLines ->
  writeLines prefix fileLines lo hi
  = Done (prefixed prefix (slice fileLines lo hi)).
Proof.
  intros Hlo Hhi. unfold writeLines.
  remember (Z.to_nat (hi - lo)) as n eqn:En.
  revert lo Hlo En. induction n as [|n IH]; intros lo Hlo En.
  - rewrite zrange_nil, slice_nil by lia. reflexivity.
  - rewrite zrange_cons by lia. cbn [writeEach].
    destruct (index_in_range fileLines lo) as [x Hx]; [lia|].
    rewrite Hx. cbn [bind]. rewrite (IH (lo + 1)) by lia. cbn [bind].
    apply index_Done in Hx. destruct Hx as [_ Hx].
    rewrite (slice_cons lo hi x) by (try assumption; lia).
    reflexivity.
Qed.

(** A loop that did not panic read lines of the file only. *)
Lemma writeLines_Done (prefix : string) (lo hi : Z) (s : string) :
  writeLines prefix fileLines lo hi = Done s ->
  forall i, lo <= i < hi -> 0 <= i < GoInt.len fileLines.
Proof.
  unfold writeLines. intros H i Hi.
  destruct (writeEach_Done_inv _ _ _ H i) as [r Hr].
  - apply zrange_In. exact Hi.
  - destruct (index fileLines i) as [x| |] eqn:Hx; simpl in Hr; try discriminate.
    apply index_Done in Hx. apply Hx.
Qed.

Variable path : string.
Variable targetLine removeCount : Z.
Variable suggestedCode : string.

(** [synthesize] returns a patch only for a range that the guard of the
    verification accepts. *)
Lemma synthesize_Done_guard (patch : string) :
  GoInt.inRange targetLine ->
  1 <= removeCount <= GoInt.maxInt ->
  synthesize path fileLines targetLine removeCount suggestedCode = Done patch ->
  (targetLine >=? 0)
  && (GoInt.add targetLine removeCount <=? GoInt.len fileLines) = true.
Proof.
  intros Ht Hrc H. unfold synthesize in H.
  destruct (writeLines " " fileLines _ targetLine) as [before| |];
    cbn [bind] in H; try discriminate.
  destruct (writeLines "-" fileLines targetLine (GoInt.add targetLine removeCount))
    as [removed| |] eqn:Hr; cbn [bind] in H; try discriminate.
  clear H. pose proof (writeLines_Done _ _ _ _ Hr) as Hin.
  pose proof (len_nonneg fileLines) as Hm.
  unfold GoInt.inRange in Ht.
  assert (Hpos : 0 <= targetLine).
  { destruct (Z_lt_le_dec targetLine 0) as [Hneg|]; [exfalso | assumption].
    rewrite add_small in Hin by (unfold GoInt.minInt, GoInt.maxInt in *; lia).
    specialize (Hin targetLine). lia. }
  apply andb_true_iff. split.
  - rewrite Z.geb_leb. apply Z.leb_le. exact Hpos.
  - apply Z.leb_le.
    destruct (Z_le_gt_dec (targetLine + removeCount) GoInt.maxInt) as [Hs|Hw].
    + rewrite add_small in Hin |- *
        by (unfold GoInt.minInt, GoInt.maxInt in *; lia).
      specialize (Hin (targetLine + removeCount - 1)). lia.
    + pose proof (add_overflow targetLine removeCount). lia.
Qed.

Hypothesis file_fits : GoInt.fits fileLines.
Hypothesis suggestion_fits : GoInt.fits (suggestionLinesOf suggestedCode).
Hypothesis target_nonneg : 0 <= targetLine.
Hypothesis count_nonneg : 0 <= removeCount.
Hypothesis range_in_file : targetLine + removeCount <= GoInt.len fileLines.

(** The patch for a range that lies in the file. *)
Lemma synthesize_in_file :
  let startLine := Z.max 0 (targetLine - 3) in
  let endLine := Z.min (GoInt.len fileLines) (targetLine + removeCount + 3) in
  let replacement := suggestionLinesOf suggestedCode in
  synthesize path fileLines targetLine removeCount suggestedCode
  = Done (patchHeader path
          ++ hunkHeader (startLine + 1) (endLine - startLine)
                        (startLine + 1)
                        (endLine - startLine - removeCount + GoInt.len replacement)
          ++ prefixed " " (slice fileLines startLine targetLine)
          ++ prefixed "-" (slice fileLines targetLine (targetLine + removeCount))
          ++ prefixed "+" replacement
          ++ prefixed " " (slice fileLines (targetLine + removeCount) endLine))%string.
Proof.
  intros startLine endLine replacement.
  unfold GoInt.fits in *.
  pose proof (len_nonneg (suggestionLinesOf suggestedCode)) as Hrep.
  fold replacement in Hrep, suggestion_fits.
  unfold synthesize. fold replacement.
  rewrite (sub_small targetLine 3) by (unfold GoInt.minInt, GoInt.maxInt in *; lia).
  rewrite (add_small targetLine removeCount)
    by (unfold GoInt.minInt, GoInt.maxInt in *; lia).
  rewrite (add_small (targetLine + removeCount) 3)
    by (unfold GoInt.minInt, GoInt.maxInt in *; lia).
  assert (Es : (if targetLine - 3 <? 0 then 0 else targetLine - 3) = startLine).
  { unfold startLine. destruct (targetLine - 3 <? 0) eqn:E.
    - apply Z.ltb_lt in E. lia.
    - apply Z.ltb_ge in E. lia. }
  assert (Ee : (if targetLine + removeCount + 3 >? GoInt.len fileLines
                then GoInt.len fileLines else targetLine + removeCount + 3)
               = endLine).
  { unfold endLine. rewrite Z.gtb_ltb.
    destruct (GoInt.len fileLines <? targetLine + removeCount + 3) eqn:E.
    - apply Z.ltb_lt in E. lia.
    - apply Z.ltb_ge in E. lia. }
  rewrite Es, Ee.
  assert (Hs : 0 <= startLine <= targetLine) by (unfold startLine; lia).
  assert (He : targetLine + removeCount <= endLine <= GoInt.len fileLines)
    by (unfold endLine; lia).
  rewrite (sub_small endLine startLine)
    by (unfold GoInt.minInt, GoInt.maxInt in *; lia).
  rewrite (sub_small (endLine - startLine) removeCount)
    by (unfold GoInt.minInt, GoInt.maxInt in *; lia).
  rewrite (add_small (endLine - startLine - removeCount) (GoInt.len replacement))
    by (unfold GoInt.minInt, GoInt.maxInt in *; lia).
  rewrite (add_small startLine 1)
    by (unfold GoInt.minInt, GoInt.maxInt in *; lia).
  rewrite !writeLines_slice by lia.
  cbn [bind]. reflexivity.
Qed.

End Synthesis.

(** ** The diagnostic of a mismatch *)

Section Diagnostic.

Lemma partOf_refl_app (x rest : string) : partOf x (x ++ rest).
Proof. exists EmptyString, rest. reflexivity. Qed.

Lemma partOf_app_l (x a b : string) : partOf x a -> partOf x (a ++ b).
Proof.
  intros (before & after & ->). exists before, (after ++ b).
  rewrite !append_assoc. reflexivity.
Qed.

Lemma partOf_app_r (x a b : string) : partOf x b -> partOf x (a ++ b).
Proof.
  intros (before & after & ->). exists (a ++ before), after.
  rewrite !append_assoc. reflexivity.
Qed.

(** Finds the part in a chain of appends that are nested to the right. *)
Ltac find_part H :=
  first [ exact H
        | apply partOf_app_l; exact H
        | apply partOf_app_r; find_part H ].

Variable fileLines : list string.
Variable targetLine mismatchLine : Z.

Lemma expectedListing_part (expectedLines : list string) :
  forall i q expected,
    nth_error expectedLines q = Some expected ->
    partOf (listingEntry targetLine mismatchLine (i + Z.of_nat q) expected)
           (expectedListing targetLine mismatchLine i expectedLines).
Proof.
  induction expectedLines as [|line rest IH]; intros i q expected Hq.
  - destruct q; discriminate.
  - cbn [expectedListing]. destruct q as [|q].
    + simpl in Hq. inversion Hq; subst line.
      change (Z.of_nat 0) with 0. rewrite Z.add_0_r. apply partOf_refl_app.
    + simpl in Hq. apply partOf_app_r.
      replace (i + Z.of_nat (S q)) with (i + 1 + Z.of_nat q) by lia.
      exact (IH (i + 1) q expected Hq).
Qed.

Hypothesis file_fits : GoInt.fits fileLines.
Hypothesis target_nonneg : 0 <= targetLine.

Lemma fileRange_Done (prefix : string) (lo hi : Z) :
  0 <= lo -> exists s, fileRange prefix fileLines lo hi = Done s.
Proof.
  intros Hlo. eexists.
  change (fileRange prefix fileLines lo hi)
    with (writeLines prefix fileLines lo (Z.min hi (GoInt.len fileLines))).
  apply writeLines_slice; lia.
Qed.

Lemma actualListing_Done (count : Z) :
  targetLine + count <= GoInt.len fileLines ->
  forall lo,
    0 <= lo ->
    exists s,
      actualListing fileLines targetLine mismatchLine (zrange lo count) = Done s
      /\ (forall i actual,
             lo <= i < count ->
             nth_error fileLines (Z.to_nat (targetLine + i)) = Some actual ->
             partOf (listingEntry targetLine mismatchLine i actual) s).
Proof.
  intros Hcount lo.
  remember (Z.to_nat (count - lo)) as n eqn:En.
  revert lo En. induction n as [|n IH]; intros lo En Hlo.
  - rewrite zrange_nil by lia. exists EmptyString. split; [reflexivity|].
    intros i actual Hi. lia.
  - rewrite zrange_cons by lia. cbn [actualListing].
    unfold GoInt.fits in file_fits.
    rewrite add_small by (unfold GoInt.minInt; lia).
    replace (targetLine + lo <? GoInt.len fileLines) with true
      by (symmetry; apply Z.ltb_lt; lia).
    destruct (index_in_range fileLines (targetLine + lo)) as [x Hx]; [lia|].
    rewrite Hx. cbn [bind].
    destruct (IH (lo + 1)) as (s & Hs & Hparts); try lia.
    rewrite Hs. cbn [bind]. eexists. split; [reflexivity|].
    intros i actual Hi Hactual.
    destruct (Z.eq_dec i lo) as [->|Hne].
    + apply index_Done in Hx. destruct Hx as [_ Hx].
      rewrite Hx in Hactual. inversion Hactual; subst.
      apply partOf_refl_app.
    + apply partOf_app_r. apply Hparts; [lia | exact Hactual].
Qed.

Variable comment : ReviewComment.
Variable expectedLines : list string.
Hypothesis range_in_file :
  targetLine + GoInt.len expectedLines <= GoInt.len fileLines.

(** For a range in the file, [saveMismatchDiff] builds its text, and
    both listings are part of it. *)
Lemma mismatchDiff_Done :
  exists diagnostic,
    mismatchDiff comment fileLines targetLine expectedLines mismatchLine
    = Done diagnostic
    /\ (forall q expected,
           nth_error expectedLines q = Some expected ->
           partOf (listingEntry targetLine mismatchLine (Z.of_nat q) expected)
                  diagnostic)
    /\ (forall q actual,
           (q < List.length expectedLines)%nat ->
           nth_error fileLines (Z.to_nat targetLine + q) = Some actual ->
           partOf (listingEntry targetLine mismatchLine (Z.of_nat q) actual)
                  diagnostic).
Proof.
  unfold mismatchDiff.
  pose proof (len_nonneg expectedLines) as Hn.
  unfold GoInt.fits in file_fits.
  destruct (actualListing_Done (GoInt.len expectedLines) range_in_file 0
              (Z.le_refl 0)) as (actual & Ha & Hparts).
  rewrite Ha. cbn [bind].
  rewrite (add_small targetLine (GoInt.len expectedLines))
    by (unfold GoInt.minInt; lia).
  match goal with
  | |- context [fileRange " " fileLines ?lo targetLine] =>
      destruct (fileRange_Done " " lo targetLine) as [before Hb]
  end.
  { destruct (GoInt.sub targetLine 5 <? 0) eqn:E; [lia|].
    apply Z.ltb_ge in E. exact E. }
  rewrite Hb. cbn [bind].
  destruct (fileRange_Done "+" targetLine (targetLine + GoInt.len expectedLines)
              target_nonneg) as [found Hf].
  rewrite Hf. cbn [bind].
  match goal with
  | |- context [fileRange " " fileLines (targetLine + GoInt.len expectedLines) ?hi] =>
      destruct (fileRange_Done " " (targetLine + GoInt.len expectedLines) hi)
        as [after Hafter]; [lia|]
  end.
  rewrite Hafter. cbn [bind].
  eexists. split; [reflexivity|]. split.
  - intros q expected Hq.
    pose proof (expectedListing_part expectedLines 0 q expected Hq) as P.
    rewrite Z.add_0_l in P.
    find_part P.
  - intros q x Hq Hx.
    assert (P : partOf (listingEntry targetLine mismatchLine (Z.of_nat q) x) actual).
    { apply Hparts; [unfold GoInt.len; lia|].
      replace (Z.to_nat (targetLine + Z.of_nat q)) with (Z.to_nat targetLine + q)%nat
        by lia.
      exact Hx. }
    find_part P.
Qed.

Variable writeFile : string -> string -> bool.

(** It hands the text to [os.WriteFile] and returns the name of the file
    when that succeeds, the empty string when it does not. *)
Lemma saveMismatchDiff_Done :
  exists diffFile,
    saveMismatchDiff writeFile comment fileLines targetLine expectedLines mismatchLine
    = Done diffFile
    /\ exists diagnostic,
         mismatchDiff comment fileLines targetLine expectedLines mismatchLine
         = Done diagnostic
         /\ diffFile
            = (if writeFile ("/tmp/gh-review-mismatch-" ++ itoa (ID comment) ++ ".diff")
                            diagnostic
               then "/tmp/gh-review-mismatch-" ++ itoa (ID comment) ++ ".diff"
               else EmptyString).
Proof.
  destruct mismatchDiff_Done as (diagnostic & Hd & _).
  unfold saveMismatchDiff. rewrite Hd. cbn [bind]. cbv zeta.
  destruct (writeFile _ diagnostic) eqn:Hw;
    (eexists; split; [reflexivity|]; exists diagnostic; split; [reflexivity|];
     rewrite Hw; reflexivity).
Qed.

End Diagnostic.

(** ** The properties of [locate] and [createPatch] *)

Section LocateProperties.

Variable writeFile : string -> string -> bool.
Variable comment : ReviewComment.
Variable fileLines : list string.

Local Abbreviation hunk := (DiffHunk_ comment).
Local Abbreviation added := (GetAddedLines (DiffHunk_ comment)).

Hypothesis file_fits : GoInt.fits fileLines.

(** What [locate] returns once the candidate is known and its range
    lies in the file. *)
Lemma locate_in_file (t : Z) :
  added <> [] ->
  candidate hunk fileLines added = Done t ->
  0 <= t -> t + GoInt.len added <= GoInt.len fileLines ->
  locate writeFile comment fileLines
  = (d <- firstDifference fileLines t 0 added ;;
     match d with
     | Some j =>
         diffFile <- saveMismatchDiff writeFile comment fileLines t added (t + j + 1) ;;
         Fail (ContentMismatch (t + j + 1) diffFile)
     | None => Done t
     end).
Proof.
  intros Hne Hc H0 Hlen. unfold locate.
  rewrite (added_nonempty comment Hne). rewrite Hc. cbn [bind].
  unfold verify. unfold GoInt.fits in file_fits.
  pose proof (len_nonneg added) as Hn.
  rewrite (add_small t (GoInt.len added)) by (unfold GoInt.minInt; lia).
  replace (t >=? 0) with true by (symmetry; rewrite Z.geb_leb; apply Z.leb_le; lia).
  replace (t + GoInt.len added <=? GoInt.len fileLines) with true
    by (symmetry; apply Z.leb_le; lia).
  cbn [andb].
  destruct (firstDifference fileLines t 0 added) as [[j|]| |] eqn:Hd;
    cbn [bind]; try reflexivity.
  assert (Hj : 0 <= j < GoInt.len added).
  { clear - Hd. assert (G : forall rest i k,
        firstDifference fileLines t i rest = Done (Some k) ->
        i <= k < i + GoInt.len rest).
    { induction rest as [|e rest IH]; intros i k H; [discriminate|].
      cbn [firstDifference] in H. rewrite len_cons.
      pose proof (len_nonneg rest).
      destruct (index fileLines (GoInt.add t i)); cbn [bind] in H;
        try discriminate.
      destruct (String.eqb a e).
      - apply IH in H. lia.
      - inversion H. lia. }
    apply G in Hd. lia. }
  rewrite (add_small t j) by (unfold GoInt.minInt; lia).
  rewrite (add_small (t + j) 1) by (unfold GoInt.minInt; lia).
  destruct (saveMismatchDiff writeFile comment fileLines t added (t + j + 1));
    reflexivity.
Qed.

(** C1, as amended: when the hunk's added lines stand verbatim and only
    at the 0-based offset [k] of the current file, [locate] returns [k]
    without error provided that Strategy 1 gives no candidate (the hunk
    header does not parse, so that Strategy 2 searches the file) or that
    its candidate, the zero-based declared new line number of the first
    added line, is [k]. A stale declared number is not recovered: when it
    points to another range of the file, Strategy 2 is not tried and
    [locate] fails with ContentMismatch. *)
Theorem locate_exact (k : nat) :
  occursOnlyAt fileLines added k ->
  (positionMapping hunk = -1 \/ positionMapping hunk = Z.of_nat k ->
   locate writeFile comment fileLines = Done (Z.of_nat k))
  /\ (forall t,
         positionMapping hunk = t -> t <> Z.of_nat k ->
         0 <= t -> t + GoInt.len added <= GoInt.len fileLines ->
         exists mismatchLine diffFile,
           locate writeFile comment fileLines
           = Fail (ContentMismatch mismatchLine diffFile)).
Proof.
  intros Honly.
  pose proof locate_in_file as Hlocate.
  assert (Hne : GetAddedLines (DiffHunk_ comment) <> []).
  { intros E. destruct Honly as [_ Hu]. rewrite E in Hu.
    pose proof (Hu 0%nat eq_refl). pose proof (Hu 1%nat eq_refl). lia. }
  pose proof (occursAt_bound fileLines added k Hne (proj1 Honly)) as Hb.
  pose proof (len_nonneg added) as Hn.
  assert (Hfit : GoInt.fits added)
    by (unfold GoInt.fits in *; lia).
  split.
  - intros Hpm.
    assert (Hc : candidate hunk fileLines added = Done (Z.of_nat k)).
    { unfold candidate. destruct Hpm as [E|E]; rewrite E.
      - apply (contentMatching_finds fileLines added file_fits k Hne Honly).
      - replace (Z.of_nat k =? -1) with false
          by (symmetry; apply Z.eqb_neq; lia).
        reflexivity. }
    rewrite (Hlocate (Z.of_nat k) Hne Hc) by lia.
    rewrite (firstDifference_occursAt fileLines file_fits added k Hne (proj1 Honly)).
    reflexivity.
  - intros t Hpm Hk H0 Hlen.
    assert (Hc : candidate hunk fileLines added = Done t).
    { unfold candidate. rewrite Hpm.
      replace (t =? -1) with false by (symmetry; apply Z.eqb_neq; lia).
      reflexivity. }
    rewrite (Hlocate t Hne Hc H0 Hlen).
    destruct (firstDifference_in_range fileLines file_fits t added 0)
      as [[j|] Hd]; try lia.
    + rewrite Hd. cbn [bind].
      destruct (saveMismatchDiff_Done fileLines t (t + j + 1) file_fits H0
                  comment added Hlen writeFile) as (diffFile & Hs & _).
      rewrite Hs. cbn [bind]. eauto.
    + exfalso.
      assert (Ht : 0 <= t <= GoInt.maxInt)
        by (unfold GoInt.fits in *; lia).
      destruct (firstDifference_None_occursAt fileLines file_fits added t
                  Hfit Hne Ht Hd) as [_ Ho].
      apply (proj2 Honly) in Ho. lia.
Qed.

(** What the error of a mismatch is made of, for a range in the file. *)
Lemma locate_mismatch (t j : Z) :
  added <> [] ->
  candidate hunk fileLines added = Done t ->
  0 <= t -> t + GoInt.len added <= GoInt.len fileLines ->
  firstDifference fileLines t 0 added = Done (Some j) ->
  exists diff,
    mismatchDiff comment fileLines t added (t + j + 1) = Done diff
    /\ locate writeFile comment fileLines
       = Fail (ContentMismatch (t + j + 1)
                 (if writeFile ("/tmp/gh-review-mismatch-" ++ itoa (ID comment) ++ ".diff")
                               diff
                  then "/tmp/gh-review-mismatch-" ++ itoa (ID comment) ++ ".diff"
                  else EmptyString)).
Proof.
  intros Hne Hc H0 Hlen Hd.
  rewrite (locate_in_file t Hne Hc H0 Hlen), Hd. cbn [bind].
  destruct (saveMismatchDiff_Done fileLines t (t + j + 1) file_fits H0
              comment added Hlen writeFile) as (diffFile & Hs & diff & Hdiff & E).
  rewrite Hs. cbn [bind]. exists diff. split; [exact Hdiff|].
  rewrite E. reflexivity.
Qed.

(** C10: a candidate that Strategy 2 produced lies in the file and passes
    the verification, which finds no differing index; so a
    ContentMismatch error means that Strategy 1 produced the
    candidate. *)
Theorem content_match_is_verified :
  GoInt.fits added ->
  (forall t,
      positionMapping hunk = -1 ->
      candidate hunk fileLines added = Done t ->
      0 <= t /\ t + GoInt.len added <= GoInt.len fileLines
      /\ firstDifference fileLines t 0 added = Done None
      /\ verify writeFile comment fileLines added t = Done tt)
  /\ (forall mismatchLine diffFile,
         locate writeFile comment fileLines = Fail (ContentMismatch mismatchLine diffFile) ->
         positionMapping hunk <> -1).
Proof.
  intros Hfit. split.
  - intros t Hpm Hc. unfold candidate in Hc. rewrite Hpm in Hc.
    change (-1 =? -1) with true in Hc. cbn iota in Hc.
    apply contentMatching_Done in Hc. destruct Hc as [[H0 Hlast] Hd].
    pose proof (len_nonneg added) as Hn. pose proof (len_nonneg fileLines) as Hm.
    unfold GoInt.fits in *.
    rewrite sub_small in Hlast
      by (unfold GoInt.minInt, GoInt.maxInt in *; lia).
    repeat split; try lia; try assumption.
    apply verify_no_difference. exact Hd.
  - intros mismatchLine diffFile Hl Hpm.
    unfold locate in Hl.
    destruct (GoInt.len (GetAddedLines (DiffHunk_ comment)) =? 0); [discriminate|].
    unfold candidate in Hl. rewrite Hpm in Hl.
    change (-1 =? -1) with true in Hl. cbn iota in Hl.
    destruct (contentMatching fileLines (GetAddedLines (DiffHunk_ comment)))
      as [t|e|] eqn:Hc;
      cbn [bind] in Hl; try discriminate.
    + apply contentMatching_Done in Hc. destruct Hc as [_ Hd].
      rewrite (verify_no_difference writeFile comment fileLines t Hd) in Hl.
      discriminate.
    + apply contentMatching_Fail in Hc. destruct Hc as (c & f & ->).
      discriminate.
Qed.

End LocateProperties.

(** C6, as amended: when the candidate's range lies in the file and the
    file first differs from the added lines at the relative index [j],
    [locate] fails with ContentMismatch at the 1-based line
    [targetLine + j + 1]. The error carries that number and the name of
    the diagnostic file, not the texts: the expected line and the actual
    line stand, marked and under that number, in the text that
    [saveMismatchDiff] hands to [os.WriteFile] for
    [/tmp/gh-review-mismatch-<id>.diff], and the error names the file
    when the write succeeded and no file when it did not. *)
Theorem mismatch_report (comment : ReviewComment) (fileLines : list string)
    (targetLine : Z) (j : nat) (expected actual : string) :
  GoInt.fits fileLines ->
  candidate (DiffHunk_ comment) fileLines (GetAddedLines (DiffHunk_ comment))
  = Done targetLine ->
  0 <= targetLine ->
  targetLine + GoInt.len (GetAddedLines (DiffHunk_ comment)) <= GoInt.len fileLines ->
  (forall q x, (q < j)%nat ->
               nth_error (GetAddedLines (DiffHunk_ comment)) q = Some x ->
               nth_error fileLines (Z.to_nat targetLine + q) = Some x) ->
  nth_error (GetAddedLines (DiffHunk_ comment)) j = Some expected ->
  nth_error fileLines (Z.to_nat targetLine + j) = Some actual ->
  actual <> expected ->
  let mismatchLine := targetLine + Z.of_nat j + 1 in
  let diffFile := "/tmp/gh-review-mismatch-" ++ itoa (ID comment) ++ ".diff" in
  exists diff,
    partOf ("# ! [" ++ itoa mismatchLine ++ "] " ++ expected ++ nl) diff
    /\ partOf ("# ! [" ++ itoa mismatchLine ++ "] " ++ actual ++ nl) diff
    /\ forall writeFile,
         locate writeFile comment fileLines
         = Fail (ContentMismatch mismatchLine
                   (if writeFile diffFile diff then diffFile else EmptyString)).
Proof.
  intros file_fits Hc H0 Hlen Hbefore He Ha Hne mismatchLine diffFile.
  set (added := GetAddedLines (DiffHunk_ comment)) in *.
  assert (Hj : (j < List.length added)%nat)
    by (apply nth_error_Some; congruence).
  assert (Hadded : added <> [])
    by (intros E; rewrite E in Hj; simpl in Hj; lia).
  assert (Hi : forall q x, (q <= j)%nat ->
               nth_error fileLines (Z.to_nat targetLine + q) = Some x ->
               index fileLines (GoInt.add targetLine (0 + Z.of_nat q)) = Done x).
  { intros q x Hq Hx. rewrite Z.add_0_l.
    apply index_at; unfold GoInt.len in *; try lia; try assumption.
    replace (Z.to_nat (targetLine + Z.of_nat q)) with (Z.to_nat targetLine + q)%nat
      by lia.
    exact Hx. }
  assert (Hd : firstDifference fileLines targetLine 0 added
               = Done (Some (0 + Z.of_nat j))).
  { apply (firstDifference_Some fileLines targetLine added 0 j expected actual).
    - intros q x Hq Hx. apply Hi; [lia|]. apply Hbefore; assumption.
    - exact He.
    - apply Hi; [lia | exact Ha].
    - exact Hne. }
  rewrite Z.add_0_l in Hd.
  destruct (mismatchDiff_Done fileLines targetLine mismatchLine file_fits H0
              comment added Hlen) as (diff & Hs & Hexp & Hact).
  exists diff.
  assert (E : forall text,
             listingEntry targetLine mismatchLine (Z.of_nat j) text
             = "# ! [" ++ itoa mismatchLine ++ "] " ++ text ++ nl).
  { intros text. unfold listingEntry, marker.
    unfold GoInt.fits, GoInt.len in *.
    rewrite (add_small targetLine (Z.of_nat j)) by (unfold GoInt.minInt; lia).
    rewrite (add_small (targetLine + Z.of_nat j) 1) by (unfold GoInt.minInt; lia).
    fold mismatchLine. rewrite Z.eqb_refl. reflexivity. }
  split; [rewrite <- E; apply Hexp; exact He|].
  split; [rewrite <- E; apply Hact; assumption|].
  intros writeFile.
  destruct (locate_mismatch writeFile comment fileLines file_fits targetLine
              (Z.of_nat j) Hadded Hc H0 Hlen Hd) as (diff' & Hs' & Hl).
  fold mismatchLine in Hs'. fold added in Hs'. rewrite Hs in Hs'.
  injection Hs' as <-. exact Hl.
Qed.


(** ** The statements at the sample inputs *)

Section AtSamples.

Lemma fileAfterDrift_fits : GoInt.fits fileAfterDrift.
Proof. unfold GoInt.fits. vm_compute. discriminate. Defined.


Lemma targets_fit : GoInt.fits ["TARGET1"; "TARGET2"].
Proof. unfold GoInt.fits. vm_compute. discriminate. Defined.

Lemma targets_only_at_3 :
  occursOnlyAt fileAfterDrift ["TARGET1"; "TARGET2"] 3.
Proof.
  split; [reflexivity|].
  intros i H. unfold occursAt in H.
  do 6 (destruct i as [|i]; [first [reflexivity | discriminate H]|]).
  destruct i; discriminate H.
Defined.

End AtSamples.

Lemma locate_exact_witness :
  GoInt.fits fileAfterDrift
  /\ occursOnlyAt fileAfterDrift (GetAddedLines unparsableHunk) 3
  /\ positionMapping unparsableHunk = -1
  /\ locate (fun _ _ => true) (commentOn unparsableHunk "NEW1") fileAfterDrift = Done 3.
Proof.
  split; [exact fileAfterDrift_fits|].
  split; [exact targets_only_at_3|].
  split; [reflexivity|].
  apply (proj1 (locate_exact (fun _ _ => true) (commentOn unparsableHunk "NEW1")
                  fileAfterDrift fileAfterDrift_fits 3 targets_only_at_3)).
  left. reflexivity.
Defined.

(** C1 as stated fails: Strategy 2 runs only when Strategy 1 leaves no
    candidate. After a line was inserted above the reviewed lines, they
    stand only at offset 3, the header still declares new line 3 (offset 2)
    for the first of them, and [locate] reports a mismatch at line 3. *)
Lemma locate_exact_counterexample :
  occursOnlyAt fileAfterDrift (GetAddedLines reviewedHunk) 3
  /\ positionMapping reviewedHunk = 2
  /\ forall writeFile, exists diffFile,
       locate writeFile (commentOn reviewedHunk "NEW1") fileAfterDrift
       = Fail (ContentMismatch 3 diffFile).
Proof.
  split; [exact targets_only_at_3|]. split; [reflexivity|].
  intros writeFile. vm_compute.
  destruct (writeFile _ _); eexists; reflexivity.
Qed.



Lemma mismatch_report_witness :
  candidate reviewedHunk fileAfterDrift (GetAddedLines reviewedHunk) = Done 2
  /\ nth_error (GetAddedLines reviewedHunk) 0 = Some "TARGET1"
  /\ nth_error fileAfterDrift 2 = Some "b"
  /\ exists diff,
       partOf ("# ! [3] TARGET1" ++ nl) diff
       /\ partOf ("# ! [3] b" ++ nl) diff
       /\ forall writeFile,
            locate writeFile (commentOn reviewedHunk "NEW1") fileAfterDrift
            = Fail (ContentMismatch 3
                      (if writeFile "/tmp/gh-review-mismatch-7.diff" diff
                       then "/tmp/gh-review-mismatch-7.diff" else EmptyString)).
Proof.
  split; [reflexivity|]. split; [reflexivity|]. split; [reflexivity|].
  apply (mismatch_report (commentOn reviewedHunk "NEW1") fileAfterDrift
           2 0 "TARGET1" "b").
  - exact fileAfterDrift_fits.
  - reflexivity.
  - lia.
  - vm_compute. discriminate.
  - intros q x Hq. lia.
  - reflexivity.
  - reflexivity.
  - discriminate.
Defined.

(** C6 as stated fails in two ways. Where the range of the candidate
    leaves the file, the region differs from the added lines (here at the
    relative index 0, line 3 of the file) and [locate] reports no error at
    all, the guard of the verification being false. And the error of a
    mismatch holds the line number and the name of the diagnostic file, or
    the number alone when the file could not be written; it holds neither
    the expected nor the actual text. *)
Lemma mismatch_report_counterexample :
  candidate reviewedHunk fileCutShort (GetAddedLines reviewedHunk) = Done 2
  /\ nth_error (GetAddedLines reviewedHunk) 0 = Some "TARGET1"
  /\ nth_error fileCutShort 2 = Some "WRONG"
  /\ (forall writeFile,
         locate writeFile (commentOn reviewedHunk "NEW1") fileCutShort = Done 2)
  /\ locate (fun _ _ => true) (commentOn reviewedHunk "NEW1") fileAfterDrift
     = Fail (ContentMismatch 3 "/tmp/gh-review-mismatch-7.diff")
  /\ locate (fun _ _ => false) (commentOn reviewedHunk "NEW1") fileAfterDrift
     = Fail (ContentMismatch 3 EmptyString).
Proof.
  split; [reflexivity|]. split; [reflexivity|]. split; [reflexivity|].
  split; [intros writeFile; reflexivity|].
  split; reflexivity.
Qed.

Lemma content_match_is_verified_witness :
  positionMapping unparsableHunk = -1
  /\ candidate unparsableHunk fileAfterDrift (GetAddedLines unparsableHunk) = Done 3
  /\ 0 <= 3 /\ 3 + GoInt.len (GetAddedLines unparsableHunk) <= GoInt.len fileAfterDrift
  /\ firstDifference fileAfterDrift 3 0 (GetAddedLines unparsableHunk) = Done None
  /\ verify (fun _ _ => true) (commentOn unparsableHunk "NEW1") fileAfterDrift
            (GetAddedLines unparsableHunk) 3 = Done tt.
Proof.
  split; [reflexivity|]. split; [reflexivity|].
  apply (proj1 (content_match_is_verified (fun _ _ => true)
                  (commentOn unparsableHunk "NEW1")
                  fileAfterDrift fileAfterDrift_fits targets_fit) 3);
    reflexivity.
Defined.

(** Where the declared range leaves the file, the guard of the
    verification is false, nothing is compared, and the loop that writes
    the removed lines indexes the file out of range. *)
Example createPatch_beyond_file :
  positionMapping beyondFileHunk = 8
  /\ verify (fun _ _ => true) (commentOn beyondFileHunk "NEW1") fileAtReview
            (GetAddedLines beyondFileHunk) 8 = Done tt
  /\ createPatch (fun _ => Some (unlines fileAtReview)) (fun _ _ => true)
                 (commentOn beyondFileHunk "NEW1") = Panic.
Proof. repeat split. Qed.


(** * Further properties of the code *)

(** ** What the parser returns *)

Section ParsedLines.

Lemma addedOf_parseLines (body : list string) :
  forall o n pos, addedOf body = textsOf Add (parseLines body o n pos).
Proof.
  unfold textsOf.
  induction body as [|text body IH]; intros o n pos; [reflexivity|].
  destruct text as [|c text]; [apply IH|].
  simpl addedOf. simpl parseLines.
  destruct (Ascii.eqb c " ") eqn:E1.
  { apply Ascii.eqb_eq in E1. subst c. simpl. apply IH. }
  destruct (Ascii.eqb c "+") eqn:E2.
  { simpl. f_equal. apply IH. }
  destruct (Ascii.eqb c "-") eqn:E3.
  { simpl. apply IH. }
  destruct (Ascii.eqb c "\"); simpl; apply IH.
Qed.

Lemma removedOf_parseLines (body : list string) :
  forall o n pos, removedOf body = textsOf Delete (parseLines body o n pos).
Proof.
  unfold textsOf.
  induction body as [|text body IH]; intros o n pos; [reflexivity|].
  destruct text as [|c text]; [apply IH|].
  simpl removedOf. simpl parseLines.
  destruct (Ascii.eqb c " ") eqn:E1.
  { apply Ascii.eqb_eq in E1. subst c. simpl. apply IH. }
  destruct (Ascii.eqb c "+") eqn:E2.
  { apply Ascii.eqb_eq in E2. subst c. simpl. apply IH. }
  destruct (Ascii.eqb c "-") eqn:E3.
  { simpl. f_equal. apply IH. }
  destruct (Ascii.eqb c "\"); simpl; apply IH.
Qed.

(** The parser numbers the lines it keeps 0, 1, 2, ... *)
Lemma parseLines_positions (body : list string) :
  forall o n pos k line,
    GoInt.minInt <= pos -> pos + GoInt.len body <= GoInt.maxInt ->
    nth_error (parseLines body o n pos) k = Some line ->
    PositionInHunk line = pos + Z.of_nat k.
Proof.
  induction body as [|text body IH]; intros o n pos k line Hlo Hhi H.
  - destruct k; discriminate.
  - rewrite len_cons in Hhi. pose proof (len_nonneg body) as Hn.
    destruct text as [|c text].
    + simpl in H. apply (IH o n pos k line); [lia | lia | exact H].
    + assert (step : forall l o' n',
                 PositionInHunk l = pos ->
                 nth_error (l :: parseLines body o' n' (GoInt.add pos 1)) k = Some line ->
                 PositionInHunk line = pos + Z.of_nat k).
      { intros l o' n' Hl Hk. destruct k as [|k].
        - inversion Hk; subst. lia.
        - simpl in Hk. rewrite add_small in Hk by lia.
          rewrite (IH o' n' (pos + 1) k line); [lia | lia | lia | exact Hk]. }
      simpl parseLines in H.
      destruct (Ascii.eqb c " "); [eapply step; [|exact H]; reflexivity|].
      destruct (Ascii.eqb c "+"); [eapply step; [|exact H]; reflexivity|].
      destruct (Ascii.eqb c "-"); [eapply step; [|exact H]; reflexivity|].
      destruct (Ascii.eqb c "\"); eapply step; try exact H; reflexivity.
Qed.

Lemma parseLines_sentinels (body : list string) :
  forall o n pos line,
    In line (parseLines body o n pos) -> sentinels line.
Proof.
  induction body as [|text body IH]; intros o n pos line H; [destruct H|].
  destruct text as [|c text]; [exact (IH _ _ _ _ H)|].
  simpl parseLines in H.
  destruct (Ascii.eqb c " ");
    [destruct H as [<-|H]; [exact I | exact (IH _ _ _ _ H)]|].
  destruct (Ascii.eqb c "+");
    [destruct H as [<-|H]; [reflexivity | exact (IH _ _ _ _ H)]|].
  destruct (Ascii.eqb c "-");
    [destruct H as [<-|H]; [reflexivity | exact (IH _ _ _ _ H)]|].
  destruct (Ascii.eqb c "\");
    (destruct H as [<-|H]; [|exact (IH _ _ _ _ H)]).
  - split; reflexivity.
  - exact I.
Qed.

(** X1: the lines [GetAddedLines] and [GetRemovedLines] extract from the
    text of a hunk are the texts of the Add lines and of the Delete lines
    that [ParseDiffHunk] returns for it, in the same order. *)
Theorem extraction_agrees_with_parser (hunk : string) (h : DiffHunk) :
  ParseDiffHunk hunk = Ok h ->
  GetAddedLines hunk = textsOf Add (Lines h)
  /\ GetRemovedLines hunk = textsOf Delete (Lines h).
Proof.
  intros H.
  destruct (ParseDiffHunk_Ok hunk h H) as (header & body & Es & El & _).
  unfold GetAddedLines, GetRemovedLines. rewrite Es, El. split.
  - apply addedOf_parseLines.
  - apply removedOf_parseLines.
Qed.

Lemma extraction_agrees_with_parser_witness :
  ParseDiffHunk deletionPatch = Ok deletionParsed
  /\ GetAddedLines deletionPatch = []
  /\ GetRemovedLines deletionPatch = ["deleted 1"; "deleted 2"].
Proof.
  split; [reflexivity|].
  exact (extraction_agrees_with_parser deletionPatch deletionParsed eq_refl).
Defined.

(** X2: in a parsed hunk the field [PositionInHunk] of a line is its
    0-based index among the lines of the hunk; blank physical lines, which
    the parser drops, take no position. *)
Theorem parsed_positions_are_indices (hunk : string) (h : DiffHunk)
    (k : nat) (line : DiffLine) :
  GoInt.fits (Split hunk) ->
  ParseDiffHunk hunk = Ok h ->
  nth_error (Lines h) k = Some line ->
  PositionInHunk line = Z.of_nat k.
Proof.
  intros Hfit H Hk.
  destruct (ParseDiffHunk_Ok hunk h H) as (header & body & Es & El & _).
  rewrite El in Hk. unfold GoInt.fits in Hfit. rewrite Es, len_cons in Hfit.
  pose proof (len_nonneg body).
  rewrite (parseLines_positions body (OldStart h) (NewStart h) 0 k line);
    try exact Hk; unfold GoInt.minInt in *; lia.
Qed.

Lemma parsed_positions_are_indices_witness :
  GoInt.fits (Split blankContextHunk)
  /\ ParseDiffHunk blankContextHunk = Ok blankContextParsed
  /\ nth_error (Lines blankContextParsed) 1 = Some (mkDiffLine Delete 2 (-1) "b" 1)
  /\ PositionInHunk (mkDiffLine Delete 2 (-1) "b" 1) = 1.
Proof.
  assert (F : GoInt.fits (Split blankContextHunk)) by (vm_compute; discriminate).
  split; [exact F|]. split; [reflexivity|]. split; [reflexivity|].
  exact (parsed_positions_are_indices blankContextHunk blankContextParsed 1
           (mkDiffLine Delete 2 (-1) "b" 1) F eq_refl eq_refl).
Defined.

(** X3: in a parsed hunk an Add line carries the old line number -1, a
    Delete line the new line number -1, and a Control line -1 on both
    sides. *)
Theorem parsed_lines_carry_sentinels (hunk : string) (h : DiffHunk) (line : DiffLine) :
  ParseDiffHunk hunk = Ok h ->
  In line (Lines h) ->
  sentinels line.
Proof.
  intros H Hin.
  destruct (ParseDiffHunk_Ok hunk h H) as (header & body & _ & El & _).
  rewrite El in Hin. exact (parseLines_sentinels body _ _ _ line Hin).
Qed.

Lemma parsed_lines_carry_sentinels_witness :
  ParseDiffHunk noNewlinePatch = Ok noNewlineParsed
  /\ In (mkDiffLine Control (-1) (-1) "\ No newline at end of file" 2)
        (Lines noNewlineParsed)
  /\ sentinels (mkDiffLine Control (-1) (-1) "\ No newline at end of file" 2).
Proof.
  assert (L : In (mkDiffLine Control (-1) (-1) "\ No newline at end of file" 2)
                 (Lines noNewlineParsed))
    by (right; right; left; reflexivity).
  split; [reflexivity|]. split; [exact L|].
  exact (parsed_lines_carry_sentinels noNewlinePatch noNewlineParsed _ eq_refl L).
Defined.

End ParsedLines.

(** ** The Hunk invariant of a parsed hunk *)

Section ParsedInvariant.

Lemma knownMarker_cases (c : ascii) (text : string) :
  knownMarker (String c text) = true ->
  Ascii.eqb c " " = false -> Ascii.eqb c "+" = false ->
  Ascii.eqb c "-" = false -> Ascii.eqb c "\" = true.
Proof.
  unfold knownMarker. intros H E1 E2 E3. rewrite E1, E2, E3 in H. exact H.
Qed.

(** With known markers and cursors that stay in [int], the parser
    numbers the lines as the replay of the data model does. *)
Lemma parseLines_numbered (body : list string) :
  forall o n pos,
    forallb knownMarker body = true ->
    GoInt.minInt <= o -> GoInt.minInt <= n ->
    o + oldCount (parseLines body o n pos) <= GoInt.maxInt ->
    n + newCount (parseLines body o n pos) <= GoInt.maxInt ->
    numbered (parseLines body o n pos) o n = true.
Proof.
  induction body as [|text body IH]; intros o n pos Hk Ho Hn Bo Bn; [reflexivity|].
  simpl in Hk. apply andb_true_iff in Hk. destruct Hk as [Hc Hk].
  destruct text as [|c text]; [exact (IH o n pos Hk Ho Hn Bo Bn)|].
  simpl parseLines in *.
  destruct (Ascii.eqb c " ") eqn:E1.
  { rewrite oldCount_cons in Bo. rewrite newCount_cons in Bn.
    cbn [onOldSide onNewSide Type_] in Bo, Bn.
    pose proof (oldCount_nonneg
                  (parseLines body (GoInt.add o 1) (GoInt.add n 1) (GoInt.add pos 1))).
    pose proof (newCount_nonneg
                  (parseLines body (GoInt.add o 1) (GoInt.add n 1) (GoInt.add pos 1))).
    assert (Eo : GoInt.add o 1 = o + 1) by (apply add_small; lia).
    assert (En : GoInt.add n 1 = n + 1) by (apply add_small; lia).
    rewrite Eo, En in *.
    cbn [numbered Type_ OldLineNumber NewLineNumber]. rewrite !Z.eqb_refl.
    apply (IH (o + 1) (n + 1)); try assumption; lia. }
  destruct (Ascii.eqb c "+") eqn:E2.
  { rewrite oldCount_cons in Bo. rewrite newCount_cons in Bn.
    cbn [onOldSide onNewSide Type_] in Bo, Bn.
    pose proof (newCount_nonneg
                  (parseLines body o (GoInt.add n 1) (GoInt.add pos 1))).
    assert (En : GoInt.add n 1 = n + 1) by (apply add_small; lia).
    rewrite En in *.
    cbn [numbered Type_ OldLineNumber NewLineNumber]. rewrite !Z.eqb_refl.
    apply (IH o (n + 1)); try assumption; lia. }
  destruct (Ascii.eqb c "-") eqn:E3.
  { rewrite oldCount_cons in Bo. rewrite newCount_cons in Bn.
    cbn [onOldSide onNewSide Type_] in Bo, Bn.
    pose proof (oldCount_nonneg
                  (parseLines body (GoInt.add o 1) n (GoInt.add pos 1))).
    assert (Eo : GoInt.add o 1 = o + 1) by (apply add_small; lia).
    rewrite Eo in *.
    cbn [numbered Type_ OldLineNumber NewLineNumber]. rewrite !Z.eqb_refl.
    apply (IH (o + 1) n); try assumption; lia. }
  pose proof (knownMarker_cases c text Hc E1 E2 E3) as E4.
  rewrite E4 in *.
  rewrite oldCount_cons in Bo. rewrite newCount_cons in Bn.
  cbn [onOldSide onNewSide Type_] in Bo, Bn.
  cbn [numbered Type_]. apply (IH o n); try assumption; lia.
Qed.

(** X4: for a hunk whose body lines all start with one of the markers the
    parser knows, the parsed hunk satisfies the Hunk invariant of the data
    model exactly when the counts of its header are the numbers of its
    old-side and new-side lines and both ends stay within [int]: the
    numbering of the lines is the parser's own work, the counts are taken
    from the header unchecked. *)
Theorem parsed_hunk_invariant (hunk : string) (h : DiffHunk) :
  ParseDiffHunk hunk = Ok h ->
  knownMarkers hunk = true ->
  (hunkInvariant h = true <->
   oldCount (Lines h) = OldLines h /\ newCount (Lines h) = NewLines h
   /\ OldStart h + OldLines h <= GoInt.maxInt
   /\ NewStart h + NewLines h <= GoInt.maxInt).
Proof.
  intros H Hk.
  destruct (ParseDiffHunk_Ok hunk h H) as (header & body & Es & El & Ho & _ & Hn & _).
  unfold knownMarkers in Hk. rewrite Es in Hk. simpl tl in Hk.
  split.
  - intros Hinv. destruct (hunkInvariant_true h Hinv) as (_ & _ & _ & ? & ? & ? & ?).
    auto.
  - intros (Eo & En & Bo & Bn).
    unfold hunkInvariant. rewrite Eo, En, !Z.eqb_refl.
    replace (0 <=? OldStart h) with true by (symmetry; apply Z.leb_le; lia).
    replace (0 <=? NewStart h) with true by (symmetry; apply Z.leb_le; lia).
    replace (OldStart h + OldLines h <=? GoInt.maxInt) with true
      by (symmetry; apply Z.leb_le; lia).
    replace (NewStart h + NewLines h <=? GoInt.maxInt) with true
      by (symmetry; apply Z.leb_le; lia).
    rewrite !andb_true_r. cbn [andb].
    rewrite El. apply parseLines_numbered; try assumption;
      try (unfold GoInt.minInt; lia); rewrite <- El; lia.
Qed.

Lemma parsed_hunk_invariant_witness :
  ParseDiffHunk noNewlinePatch = Ok noNewlineParsed
  /\ knownMarkers noNewlinePatch = true
  /\ hunkInvariant noNewlineParsed = true.
Proof.
  split; [reflexivity|]. split; [reflexivity|].
  apply (parsed_hunk_invariant noNewlinePatch noNewlineParsed eq_refl eq_refl).
  vm_compute. repeat split; discriminate.
Defined.

End ParsedInvariant.

(** ** The outcomes of the parser *)

Section ParserOutcomes.

Lemma Split_cons (s : string) : exists first rest, Split s = first :: rest.
Proof.
  induction s as [|c s IH]; simpl.
  - eauto.
  - destruct (Ascii.eqb c newline); [eauto|].
    destruct IH as (first & rest & ->). eauto.
Qed.

Lemma ParseDiffHunk_Err (hunk : string) (e : parseError) :
  ParseDiffHunk hunk = Err e ->
  exists header,
    hd_error (Split hunk) = Some header
    /\ matchHeader header = None /\ e = InvalidHeader header.
Proof.
  unfold ParseDiffHunk.
  destruct (Split_cons hunk) as (header & body & ->).
  destruct (matchHeader header) as [[[[m1 m2] m3] m4]|] eqn:Hm; [discriminate|].
  intros H. inversion H. exists header. auto.
Qed.

Lemma hunkSlices_length (patch : string) (starts : list nat) :
  List.length (hunkSlices patch starts) = List.length starts.
Proof.
  induction starts as [|start more IH]; simpl; [reflexivity|].
  rewrite IH. reflexivity.
Qed.

Lemma parseHunks_outcomes (slices : list string) :
  forall i,
    match parseHunks i slices with
    | Ok hunks => List.length hunks = List.length slices
    | Err e =>
        exists j slice header,
          e = HunkFailed (i + j) (InvalidHeader header)
          /\ nth_error slices j = Some slice
          /\ hd_error (Split slice) = Some header
          /\ matchHeader header = None
    end.
Proof.
  induction slices as [|hunkStr more IH]; intros i; simpl; [reflexivity|].
  destruct (ParseDiffHunk hunkStr) as [hunk|e] eqn:Hp.
  - specialize (IH (S i)).
    destruct (parseHunks (S i) more) as [hunks|e].
    + simpl. rewrite IH. reflexivity.
    + destruct IH as (j & slice & header & -> & Hn & Hh & Hm).
      exists (S j), slice, header. repeat split; try assumption.
      f_equal. lia.
  - destruct (ParseDiffHunk_Err hunkStr e Hp) as (header & Hh & Hm & ->).
    exists 0%nat, hunkStr, header. repeat split; try assumption.
    f_equal. lia.
Qed.

(** X5: [ParsePatch] has three outcomes. It returns one hunk for each
    match of the hunk-start expression, and so never an empty list; it
    fails with "no hunks found" exactly when there is no match; or it
    fails at the hunk of index [i] whose first line is not a header. The
    error "empty diff hunk" of [ParseDiffHunk] is never returned. *)
Theorem ParsePatch_outcomes (patch : string) :
  let starts := findHunkStarts patch 0 true 0 in
  match ParsePatch patch with
  | Ok hunks => hunks <> [] /\ List.length hunks = List.length starts
  | Err NoHunksFound => starts = []
  | Err (HunkFailed i (InvalidHeader header)) =>
      starts <> []
      /\ exists slice,
           nth_error (hunkSlices patch starts) i = Some slice
           /\ hd_error (Split slice) = Some header
           /\ matchHeader header = None
  | Err _ => False
  end.
Proof.
  intros starts. unfold ParsePatch. fold starts.
  destruct starts as [|start more] eqn:E; [reflexivity|].
  pose proof (parseHunks_outcomes (hunkSlices patch (start :: more)) 0) as H.
  destruct (parseHunks 0 (hunkSlices patch (start :: more))) as [hunks|e].
  - rewrite hunkSlices_length in H. split; [|exact H].
    destruct hunks; [discriminate H | discriminate].
  - destruct H as (j & slice & header & -> & Hn & Hh & Hm).
    simpl Nat.add. split; [discriminate|]. exists slice. auto.
Qed.

End ParserOutcomes.

(** ** When each strategy runs *)

Section StrategyOne.

Lemma GetZeroBased_not_minus_one (z : Z) :
  GoInt.inRange z -> GetZeroBased z <> -1.
Proof.
  unfold GoInt.inRange, GetZeroBased. intros Hr.
  destruct (z =? 0) eqn:E; [discriminate|].
  apply Z.eqb_neq in E.
  destruct (Z.eq_dec z GoInt.minInt) as [->|Hne].
  - vm_compute. discriminate.
  - rewrite sub_small by (unfold GoInt.minInt, GoInt.maxInt in *; lia). lia.
Qed.

(** The new line numbers the parser gives to Add lines are [int]s. *)
Lemma parseLines_new_inRange (body : list string) :
  forall o n pos line,
    GoInt.inRange n ->
    In line (parseLines body o n pos) -> Type_ line = Add ->
    GoInt.inRange (NewLineNumber line).
Proof.
  induction body as [|text body IH]; intros o n pos line Hn H Hk; [destruct H|].
  destruct text as [|c text]; [exact (IH _ _ _ _ Hn H Hk)|].
  simpl parseLines in H.
  destruct (Ascii.eqb c " ").
  { destruct H as [<-|H]; [discriminate|].
    exact (IH _ _ _ _ (add_inRange n 1) H Hk). }
  destruct (Ascii.eqb c "+").
  { destruct H as [<-|H]; [exact Hn|].
    exact (IH _ _ _ _ (add_inRange n 1) H Hk). }
  destruct (Ascii.eqb c "-").
  { destruct H as [<-|H]; [discriminate|]. exact (IH _ _ _ _ Hn H Hk). }
  destruct (Ascii.eqb c "\");
    (destruct H as [<-|H]; [discriminate|]; exact (IH _ _ _ _ Hn H Hk)).
Qed.

Lemma firstAdded_none (lines : list DiffLine) :
  textsOf Add lines = [] -> firstAdded lines = -1.
Proof.
  unfold textsOf. induction lines as [|line rest IH]; simpl; [reflexivity|].
  destruct (DiffChangeType_eqb (Type_ line) Add); [discriminate | exact IH].
Qed.

Lemma firstAdded_some (lines : list DiffLine) :
  (forall line, In line lines -> Type_ line = Add ->
                GoInt.inRange (NewLineNumber line)) ->
  textsOf Add lines <> [] -> firstAdded lines <> -1.
Proof.
  unfold textsOf. induction lines as [|line rest IH]; simpl; intros Hr Hne;
    [congruence|].
  destruct (DiffChangeType_eqb (Type_ line) Add) eqn:E.
  - apply GetZeroBased_not_minus_one. apply Hr; [left; reflexivity|].
    destruct (Type_ line); try discriminate. reflexivity.
  - apply IH; [|exact Hne]. intros l Hl. apply Hr. right. exact Hl.
Qed.

(** X6: for a hunk with added lines, Strategy 1 leaves no candidate
    exactly when [ParseDiffHunk] rejects the hunk, that is when its first
    line is not a header; a hunk that parses always gives a candidate,
    so that Strategy 2 searches the file only for hunks with an invalid
    header. *)
Theorem position_mapping_fails_only_on_invalid_header (diffHunk : string) :
  GetAddedLines diffHunk <> [] ->
  (positionMapping diffHunk = -1 <-> exists e, ParseDiffHunk diffHunk = Err e).
Proof.
  intros Hne. unfold positionMapping.
  destruct (isEmpty diffHunk) eqn:Hempty.
  { destruct diffHunk; [|discriminate]. exfalso. apply Hne. reflexivity. }
  destruct (ParseDiffHunk diffHunk) as [h|e] eqn:Hp.
  - split; [|intros [e He]; discriminate]. intros Hf. exfalso.
    destruct (ParseDiffHunk_Ok diffHunk h Hp)
      as (header & body & Es & El & _ & _ & Hn & _).
    unfold GetAddedLines in Hne. rewrite Es in Hne.
    rewrite (addedOf_parseLines body (OldStart h) (NewStart h) 0), <- El in Hne.
    revert Hf. apply firstAdded_some; [|exact Hne].
    intros line Hl Hk. rewrite El in Hl.
    apply (parseLines_new_inRange body (OldStart h) (NewStart h) 0 line);
      try assumption.
    unfold GoInt.inRange, GoInt.minInt. lia.
  - split; [eauto | reflexivity].
Qed.

Lemma position_mapping_fails_only_on_invalid_header_witness :
  GetAddedLines unparsableHunk <> []
  /\ (positionMapping unparsableHunk = -1
      <-> exists e, ParseDiffHunk unparsableHunk = Err e).
Proof.
  assert (N : GetAddedLines unparsableHunk <> []) by (vm_compute; discriminate).
  split; [exact N|].
  exact (position_mapping_fails_only_on_invalid_header unparsableHunk N).
Defined.

End StrategyOne.

Section StrategyTwo.

Variable writeFile : string -> string -> bool.
Variable comment : ReviewComment.
Variable fileLines : list string.

Local Abbreviation hunk := (DiffHunk_ comment).
Local Abbreviation added := (GetAddedLines (DiffHunk_ comment)).

Hypothesis file_fits : GoInt.fits fileLines.

Lemma searchOffsets_none (idxs : list Z) :
  (forall i, In i idxs ->
             exists d, firstDifference fileLines i 0 added = Done (Some d)) ->
  searchOffsets fileLines added idxs = Done (-1).
Proof.
  induction idxs as [|i more IH]; intros H; simpl; [reflexivity|].
  destruct (H i (or_introl eq_refl)) as [d ->]. simpl.
  apply IH. intros k Hk. apply H. right. exact Hk.
Qed.

Lemma searchOffsets_minus_one (idxs : list Z) :
  (forall i, In i idxs -> i <> -1) ->
  searchOffsets fileLines added idxs = Done (-1) ->
  forall i, In i idxs -> firstDifference fileLines i 0 added <> Done None.
Proof.
  induction idxs as [|i more IH]; intros Hpos H k Hk; [destruct Hk|].
  simpl in H.
  destruct (firstDifference fileLines i 0 added) as [[d|]| |] eqn:Hd;
    cbn [bind] in H; try discriminate.
  - destruct Hk as [<-|Hk]; [rewrite Hd; discriminate|].
    apply IH; try assumption. intros q Hq. apply Hpos. right. exact Hq.
  - inversion H. exfalso. apply (Hpos i); [left; reflexivity | assumption].
Qed.

Hypothesis added_fits : GoInt.fits added.

(** Strategy 2 fails when the added lines stand nowhere in the file. *)
Lemma contentMatching_nowhere (first : string) (rest : list string) :
  added = first :: rest ->
  (forall k, ~ occursAt fileLines added k) ->
  contentMatching fileLines added
  = Fail (NoContentMatch (GoInt.len added) first).
Proof.
  intros Ea Hno. unfold contentMatching.
  assert (Hne : added <> []) by (rewrite Ea; discriminate).
  rewrite searchOffsets_none.
  - cbn [bind]. change (-1 =? -1) with true. cbv iota.
    rewrite Ea at 1. reflexivity.
  - intros i Hi. apply zrange_In in Hi.
    pose proof (len_nonneg added) as Hn.
    assert (Hlast : GoInt.sub (GoInt.len fileLines) (GoInt.len added)
                    = GoInt.len fileLines - GoInt.len added).
    { pose proof (len_nonneg fileLines). unfold GoInt.fits in *.
      apply sub_small. unfold GoInt.minInt, GoInt.maxInt in *. lia. }
    rewrite Hlast in Hi.
    destruct (firstDifference_in_range fileLines file_fits i added 0) as [[d|] Hd];
      try lia; [eauto|].
    exfalso. apply (Hno (Z.to_nat i)).
    unfold GoInt.fits in file_fits.
    apply (firstDifference_None_occursAt fileLines file_fits added i);
      try assumption; unfold GoInt.fits, GoInt.maxInt in *; lia.
Qed.

Lemma contentMatching_Fail_inv (e : applyError) :
  contentMatching fileLines added = Fail e ->
  searchOffsets fileLines added
    (zrange 0 (GoInt.sub (GoInt.len fileLines) (GoInt.len added) + 1)) = Done (-1)
  /\ exists first,
       hd_error added = Some first /\ e = NoContentMatch (GoInt.len added) first.
Proof.
  unfold contentMatching.
  destruct (searchOffsets fileLines added _) as [m| |] eqn:Hs; cbn [bind];
    try discriminate.
  - destruct (m =? -1) eqn:Hm; [|discriminate].
    apply Z.eqb_eq in Hm. subst m.
    destruct (index added 0) as [first| |] eqn:Hi; cbn [bind]; try discriminate;
      [|exfalso; exact (index_not_Fail added 0 _ Hi)].
    intros H. inversion H. split; [reflexivity|].
    exists first. split; [|reflexivity].
    apply index_Done in Hi. destruct Hi as [_ Hi]. revert Hi.
    destruct added; [discriminate | intros Hi; exact Hi].
  - intros _. exfalso. exact (searchOffsets_not_Fail fileLines added _ _ Hs).
Qed.

Lemma writeEach_not_Fail {A : Type} (f : A -> outcome string) (xs : list A)
    (e : applyError) :
  (forall x, f x <> Fail e) -> writeEach f xs <> Fail e.
Proof.
  intros Hf. induction xs as [|x rest IH]; simpl; [discriminate|].
  destruct (f x) as [s| |] eqn:Hx; cbn [bind]; try discriminate.
  - destruct (writeEach f rest) as [t| |]; cbn [bind]; try discriminate.
    exact IH.
  - rewrite <- Hx. apply Hf.
Qed.

Lemma fileRange_not_Fail (prefix : string) (lo hi : Z) (e : applyError) :
  fileRange prefix fileLines lo hi <> Fail e.
Proof.
  unfold fileRange. apply writeEach_not_Fail. intros i.
  destruct (index fileLines i) as [line| |] eqn:Hi; cbn [bind]; try discriminate.
  rewrite <- Hi. apply index_not_Fail.
Qed.

Lemma actualListing_not_Fail (targetLine mismatchLine : Z) (idxs : list Z)
    (e : applyError) :
  actualListing fileLines targetLine mismatchLine idxs <> Fail e.
Proof.
  induction idxs as [|i more IH]; simpl; [discriminate|].
  destruct (GoInt.add targetLine i <? GoInt.len fileLines); [|discriminate].
  destruct (index fileLines (GoInt.add targetLine i)) as [x| |] eqn:Hi;
    cbn [bind]; try discriminate.
  - destruct (actualListing fileLines targetLine mismatchLine more) as [t| |];
      cbn [bind]; try discriminate. exact IH.
  - rewrite <- Hi. apply index_not_Fail.
Qed.

Lemma bind_not_Fail {A B : Type} (m : outcome A) (f : A -> outcome B)
    (e : applyError) :
  m <> Fail e -> (forall a, f a <> Fail e) -> bind m f <> Fail e.
Proof.
  intros Hm Hf. destruct m as [a|e'|]; cbn [bind]; [apply Hf | | discriminate].
  intros H. apply Hm. inversion H. reflexivity.
Qed.

(** Writing the diagnostic never fails with an error of its own. *)
Lemma mismatchDiff_not_Fail (targetLine : Z) (expectedLines : list string)
    (mismatchLine : Z) (e : applyError) :
  mismatchDiff comment fileLines targetLine expectedLines mismatchLine <> Fail e.
Proof.
  unfold mismatchDiff. cbv zeta.
  apply bind_not_Fail; [apply actualListing_not_Fail | intros a].
  apply bind_not_Fail; [apply fileRange_not_Fail | intros b].
  apply bind_not_Fail; [apply fileRange_not_Fail | intros c].
  apply bind_not_Fail; [apply fileRange_not_Fail | intros d].
  discriminate.
Qed.

Lemma saveMismatchDiff_not_Fail (targetLine : Z) (expectedLines : list string)
    (mismatchLine : Z) (e : applyError) :
  saveMismatchDiff writeFile comment fileLines targetLine expectedLines mismatchLine
  <> Fail e.
Proof.
  unfold saveMismatchDiff. cbv zeta.
  apply bind_not_Fail; [apply mismatchDiff_not_Fail | intros diff].
  destruct (writeFile _ diff); discriminate.
Qed.

(** The only error of the verification is ContentMismatch. *)
Lemma verify_Fail (lines : list string) (t : Z) (e : applyError) :
  verify writeFile comment fileLines lines t = Fail e ->
  exists mismatchLine diffFile, e = ContentMismatch mismatchLine diffFile.
Proof.
  unfold verify.
  destruct ((t >=? 0) && _); [|discriminate].
  destruct (firstDifference fileLines t 0 lines) as [[j|]| |] eqn:Hd;
    cbn [bind]; try discriminate.
  - destruct (saveMismatchDiff writeFile comment fileLines t lines _) as [d| |] eqn:Hs;
      cbn [bind]; try discriminate.
    + intros H. inversion H. eauto.
    + intros _. exfalso. exact (saveMismatchDiff_not_Fail _ _ _ _ Hs).
  - intros _. exfalso. exact (firstDifference_not_Fail fileLines t lines 0 _ Hd).
Qed.

(** X7: [locate] fails with "could not find matching content" exactly
    when Strategy 1 leaves no candidate, there are added lines, and the
    added lines stand nowhere in the file as consecutive lines; the error
    then carries the number of added lines and the first of them. *)
Theorem no_content_match :
  ((exists count first,
       locate writeFile comment fileLines = Fail (NoContentMatch count first))
   <-> positionMapping hunk = -1 /\ added <> []
       /\ forall k, ~ occursAt fileLines added k)
  /\ (forall count first,
         locate writeFile comment fileLines = Fail (NoContentMatch count first) ->
         count = GoInt.len added /\ hd_error added = Some first).
Proof.
  assert (Hinv : forall count first,
             locate writeFile comment fileLines = Fail (NoContentMatch count first) ->
             positionMapping hunk = -1 /\ added <> []
             /\ (forall k, ~ occursAt fileLines added k)
             /\ count = GoInt.len added /\ hd_error added = Some first).
  { intros count first H. unfold locate in H.
    destruct (GoInt.len added =? 0) eqn:Hl; [discriminate|].
    assert (Hne : added <> []).
    { intros E. rewrite E in Hl. discriminate. }
    unfold candidate in H.
    destruct (positionMapping hunk =? -1) eqn:Hpm.
    - apply Z.eqb_eq in Hpm.
      destruct (contentMatching fileLines added) as [t|e|] eqn:Hc;
        cbn [bind] in H; try discriminate.
      + exfalso.
        destruct (verify writeFile comment fileLines added t) as [[]|e|] eqn:Hv;
          cbn [bind] in H; try discriminate.
        destruct (verify_Fail added t e Hv) as (m & d & ->). discriminate.
      + destruct (contentMatching_Fail_inv e Hc) as (Hs & f & Hf & ->).
        inversion H; subst count first; clear H.
        repeat split; try assumption.
        intros k Hocc.
        pose proof (occursAt_bound fileLines added k Hne Hocc) as Hb.
        pose proof (len_nonneg added) as Hn.
        assert (Hlast : GoInt.sub (GoInt.len fileLines) (GoInt.len added)
                        = GoInt.len fileLines - GoInt.len added).
        { unfold GoInt.fits in *. apply sub_small.
          unfold GoInt.minInt, GoInt.maxInt in *. lia. }
        rewrite Hlast in Hs.
        assert (Hidx : forall i,
                   In i (zrange 0 (GoInt.len fileLines - GoInt.len added + 1)) ->
                   i <> -1).
        { intros i Hi. apply zrange_In in Hi. lia. }
        apply (searchOffsets_minus_one _ Hidx Hs (Z.of_nat k)).
        * apply zrange_In. lia.
        * apply firstDifference_occursAt; assumption.
    - exfalso. cbn [bind] in H.
      destruct (verify writeFile comment fileLines added (positionMapping hunk))
        as [[]|e|] eqn:Hv; cbn [bind] in H; try discriminate.
      destruct (verify_Fail added _ e Hv) as (m & d & ->). discriminate. }
  split; [split|].
  - intros (count & first & H).
    destruct (Hinv count first H) as (? & ? & ? & _). auto.
  - intros (Hpm & Hne & Hno).
    assert (Ea : exists first rest, added = first :: rest).
    { clear - Hne. destruct added; [congruence | eauto]. }
    destruct Ea as (first & rest & Ea).
    exists (GoInt.len added), first.
    unfold locate. rewrite (added_nonempty comment Hne).
    unfold candidate. rewrite Hpm. change (-1 =? -1) with true. cbv iota.
    rewrite (contentMatching_nowhere first rest Ea Hno). reflexivity.
  - intros count first H.
    destruct (Hinv count first H) as (_ & _ & _ & ? & ?). auto.
Qed.

End StrategyTwo.

Lemma no_content_match_witness :
  GoInt.fits ["a"; "b"]
  /\ GoInt.fits (GetAddedLines unparsableHunk)
  /\ positionMapping unparsableHunk = -1
  /\ (forall k, ~ occursAt ["a"; "b"] (GetAddedLines unparsableHunk) k).
Proof.
  assert (F : GoInt.fits ["a"; "b"]) by (vm_compute; discriminate).
  assert (G : GoInt.fits (GetAddedLines unparsableHunk)) by (vm_compute; discriminate).
  split; [exact F|]. split; [exact G|].
  destruct (proj1 (proj1 (no_content_match (fun _ _ => true)
                            (commentOn unparsableHunk "x")
                            ["a"; "b"] F G)))
    as (Hpm & _ & Hno).
  - exists 2, "TARGET1". reflexivity.
  - split; [exact Hpm | exact Hno].
Defined.

(** ** Outdated comments *)

Section CommentPosition.

Lemma ParsePatch_nonempty (patch : string) (hunks : list DiffHunk) :
  ParsePatch patch = Ok hunks -> isEmpty patch = false.
Proof. destruct patch; [discriminate | reflexivity]. Qed.

Variable diffHunk : string.
Variable hunks : list DiffHunk.
Hypothesis parsed : ParsePatch diffHunk = Ok hunks.
Hypothesis invariant : patchInvariant hunks = true.

Variable hunk : DiffHunk.
Variable line : DiffLine.
Hypothesis hunk_in : In hunk hunks.
Hypothesis line_in : In line (Lines hunk).

(** The numbers of a line on its own side are not negative. *)
Lemma own_numbers_nonneg :
  (onOldSide line = true -> 0 <= OldLineNumber line)
  /\ (onNewSide line = true -> 0 <= NewLineNumber line).
Proof.
  destruct (patchInvariant_hunk hunks invariant hunk hunk_in) as (_ & _ & Hh).
  destruct (hunkInvariant_true hunk Hh) as (So & Sn & Hnum & Eo & En & Bo & Bn).
  split; intros Hside.
  - destruct (walkOld_found (Lines hunk) (OldStart hunk) (NewStart hunk) line Hnum)
      as [R _]; try assumption; try (unfold GoInt.minInt; lia); lia.
  - destruct (walkNew_found (Lines hunk) (OldStart hunk) (NewStart hunk) line Hnum)
      as [R _]; try assumption; try (unfold GoInt.minInt; lia); lia.
Qed.

Lemma outdated_on_the_right (originalLine : Z) :
  onNewSide line = true ->
  CommentPositions.IsOutdated
    (CommentPositions.CalculateCommentPosition
       (NewLineNumber line) originalLine diffHunk CommentPositions.DiffSideRight)
  = match Type_ line with
    | Context => negb (OldLineNumber line =? originalLine)
    | _ => false
    end.
Proof.
  intros Hside. unfold CommentPositions.CalculateCommentPosition.
  rewrite (ParsePatch_nonempty diffHunk hunks parsed).
  change (String.eqb CommentPositions.DiffSideRight CommentPositions.DiffSideRight
          && negb false) with true. cbv iota.
  rewrite (MapNewPositionToOld_at_line diffHunk hunks parsed invariant hunk line
             hunk_in line_in Hside).
  destruct own_numbers_nonneg as [Ho _].
  unfold onNewSide in Hside. unfold onOldSide in Ho.
  destruct (Type_ line); try discriminate.
  - specialize (Ho eq_refl).
    replace (OldLineNumber line =? -1) with false
      by (symmetry; apply Z.eqb_neq; lia).
    destruct (OldLineNumber line =? originalLine); reflexivity.
  - reflexivity.
Qed.

Lemma outdated_on_the_left (commentLine : Z) :
  onOldSide line = true ->
  CommentPositions.IsOutdated
    (CommentPositions.CalculateCommentPosition
       commentLine (OldLineNumber line) diffHunk CommentPositions.DiffSideLeft)
  = match Type_ line with
    | Delete => true
    | _ => false
    end.
Proof.
  intros Hside. unfold CommentPositions.CalculateCommentPosition.
  rewrite (ParsePatch_nonempty diffHunk hunks parsed).
  change (String.eqb CommentPositions.DiffSideLeft CommentPositions.DiffSideRight
          && negb false) with false.
  change (String.eqb CommentPositions.DiffSideLeft CommentPositions.DiffSideLeft
          && negb false) with true. cbv iota.
  rewrite (MapOldPositionToNew_at_line diffHunk hunks parsed invariant hunk line
             hunk_in line_in Hside).
  destruct own_numbers_nonneg as [_ Hn].
  unfold onOldSide in Hside. unfold onNewSide in Hn.
  destruct (Type_ line); try discriminate.
  - specialize (Hn eq_refl).
    replace (NewLineNumber line =? -1) with false
      by (symmetry; apply Z.eqb_neq; lia).
    reflexivity.
  - reflexivity.
Qed.

End CommentPosition.

(** X8: for a hunk text that parses into hunks satisfying the Hunk
    invariant in file order, a comment on the RIGHT side at the new number
    of an Add line is never outdated and at a Context line is outdated
    exactly when the old number of that line differs from the original
    line given; a comment on the LEFT side at the old number of a Delete
    line is outdated and at a Context line is not. *)
Theorem comment_position_outdated (diffHunk : string) (hunks : list DiffHunk)
    (hunk : DiffHunk) (line : DiffLine) :
  ParsePatch diffHunk = Ok hunks ->
  patchInvariant hunks = true ->
  In hunk hunks -> In line (Lines hunk) ->
  (forall originalLine,
      onNewSide line = true ->
      CommentPositions.IsOutdated
        (CommentPositions.CalculateCommentPosition
           (NewLineNumber line) originalLine diffHunk CommentPositions.DiffSideRight)
      = match Type_ line with
        | Context => negb (OldLineNumber line =? originalLine)
        | _ => false
        end)
  /\ (forall commentLine,
         onOldSide line = true ->
         CommentPositions.IsOutdated
           (CommentPositions.CalculateCommentPosition
              commentLine (OldLineNumber line) diffHunk CommentPositions.DiffSideLeft)
         = match Type_ line with
           | Delete => true
           | _ => false
           end).
Proof.
  intros Hp Hinv Hh Hl. split.
  - intros originalLine.
    exact (outdated_on_the_right diffHunk hunks Hp Hinv hunk line Hh Hl originalLine).
  - intros commentLine.
    exact (outdated_on_the_left diffHunk hunks Hp Hinv hunk line Hh Hl commentLine).
Qed.

Lemma comment_position_outdated_witness :
  ParsePatch twoHunkPatch = Ok twoHunkParsed
  /\ patchInvariant twoHunkParsed = true
  /\ CommentPositions.IsOutdated
       (CommentPositions.CalculateCommentPosition 21 20 twoHunkPatch
          CommentPositions.DiffSideRight) = true
  /\ CommentPositions.IsOutdated
       (CommentPositions.CalculateCommentPosition 21 21 twoHunkPatch
          CommentPositions.DiffSideLeft) = false.
Proof.
  split; [reflexivity|]. split; [reflexivity|].
  destruct (comment_position_outdated twoHunkPatch twoHunkParsed
              (mkDiffHunk 20 2 19 3
                 [mkDiffLine Context 20 19 "before" 0;
                  mkDiffLine Add (-1) 20 "added line" 1;
                  mkDiffLine Context 21 21 "after" 2])
              (mkDiffLine Context 21 21 "after" 2) eq_refl eq_refl)
    as [R L].
  - right; left; reflexivity.
  - right; right; left; reflexivity.
  - split; [exact (R 20 eq_refl) | exact (L 21 eq_refl)].
Defined.

(** X9: [CalculateCommentPosition] swallows the error of the mapping: for
    a hunk text that [ParsePatch] rejects, on any side, it returns the
    position with the line numbers it was given, each range one line long,
    and not outdated. *)
Theorem comment_position_of_unparsable_hunk (line originalLine : Z)
    (diffHunk diffSide : string) (e : parseError) :
  ParsePatch diffHunk = Err e ->
  CommentPositions.CalculateCommentPosition line originalLine diffHunk diffSide
  = CommentPositions.mkCommentPosition line originalLine line line
      originalLine originalLine diffSide false.
Proof.
  intros Hp. unfold CommentPositions.CalculateCommentPosition,
    MapNewPositionToOld, MapOldPositionToNew.
  rewrite Hp.
  destruct (String.eqb diffSide CommentPositions.DiffSideRight && _);
    [reflexivity|].
  destruct (String.eqb diffSide CommentPositions.DiffSideLeft && _); reflexivity.
Qed.

Lemma comment_position_of_unparsable_hunk_witness :
  ParsePatch unparsableHunk = Err (HunkFailed 0 (InvalidHeader "@@ stale @@"))
  /\ CommentPositions.CalculateCommentPosition 3 3 unparsableHunk "RIGHT"
     = CommentPositions.mkCommentPosition 3 3 3 3 3 3 "RIGHT" false.
Proof.
  split; [reflexivity|].
  exact (comment_position_of_unparsable_hunk 3 3 unparsableHunk "RIGHT" _ eq_refl).
Defined.

(** ** The line numbers the commenting ranges cover *)

Section RangeCoverage.

Lemma runs_concat (c : DiffLine -> bool) (lines : list DiffLine) :
  List.concat (runs c lines) = filter c lines.
Proof.
  induction lines as [|line rest IH]; [reflexivity|].
  simpl runs. simpl filter. destruct (c line); [|exact IH].
  destruct (startsWith c rest) eqn:Hs.
  - destruct (runs_startsWith c rest Hs) as (run & more & E & _).
    rewrite E in *. simpl. simpl in IH. rewrite IH. reflexivity.
  - simpl. rewrite IH. reflexivity.
Qed.

(** A line is in a run exactly when it is a commentable line. *)
Lemma runs_In (c : DiffLine -> bool) (lines : list DiffLine) (line : DiffLine) :
  (exists run, In run (runs c lines) /\ In line run)
  <-> In line lines /\ c line = true.
Proof.
  rewrite <- filter_In, <- runs_concat, in_concat. reflexivity.
Qed.

(** X10: for a patch that parses, an integer lies in one of the ranges of
    [GetCommentingRanges] exactly when it is the line number, on the side
    asked for, of a line of the patch that is commentable on that side and
    has a positive number there: the ranges cover the commentable lines
    and nothing else. *)
Theorem commenting_ranges_cover (patch : string) (isBase : bool)
    (hunks : list DiffHunk) (z : Z) :
  ParsePatch patch = Ok hunks ->
  exists ranges,
    GetCommentingRanges patch isBase = Ok ranges
    /\ ((exists r, In r ranges /\ fst r <= z <= snd r)
        <-> exists hunk line,
              In hunk hunks /\ In line (Lines hunk)
              /\ anchored isBase line = true /\ key isBase line = z).
Proof.
  intros Hp. exists (coalesced (anchored isBase) isBase hunks). split.
  { unfold GetCommentingRanges. rewrite Hp, rangesOfHunks_coalesced. reflexivity. }
  unfold coalesced. split.
  - intros (r & Hr & Hz). apply in_flat_map in Hr.
    destruct Hr as (hunk & Hh & Hr). apply in_map_iff in Hr.
    destruct Hr as (run & <- & Hrun).
    destruct (parsed_runs isBase patch hunks hunk run Hp Hh Hrun) as [_ Hkeys].
    assert (Hin : In z (map (key isBase) run)).
    { rewrite Hkeys. apply zrange_In. lia. }
    apply in_map_iff in Hin. destruct Hin as (line & Hk & Hl).
    exists hunk, line.
    destruct (proj1 (runs_In (anchored isBase) (Lines hunk) line)) as [Hlines Ha];
      [eauto|]. auto.
  - intros (hunk & line & Hh & Hl & Ha & Hk).
    destruct (proj2 (runs_In (anchored isBase) (Lines hunk) line)) as (run & Hrun & Hlr);
      [auto|].
    destruct (parsed_runs isBase patch hunks hunk run Hp Hh Hrun) as [_ Hkeys].
    exists (interval isBase run). split.
    + apply in_flat_map. exists hunk. split; [exact Hh|].
      apply in_map. exact Hrun.
    + assert (Hin : In z (map (key isBase) run)).
      { rewrite <- Hk. apply in_map. exact Hlr. }
      rewrite Hkeys in Hin. apply zrange_In in Hin. lia.
Qed.

Lemma commenting_ranges_cover_witness :
  ParsePatch deletionPatch = Ok [deletionParsed]
  /\ exists ranges,
       GetCommentingRanges deletionPatch false = Ok ranges
       /\ ((exists r, In r ranges /\ fst r <= 11 <= snd r)
           <-> exists hunk line,
                 In hunk [deletionParsed] /\ In line (Lines hunk)
                 /\ anchored false line = true /\ key false line = 11).
Proof.
  split; [reflexivity|].
  exact (commenting_ranges_cover deletionPatch false [deletionParsed] 11 eq_refl).
Defined.

End RangeCoverage.

(** ** The number of original lines of a comment *)

Section OriginalLines.

Lemma matchHeader_at (header : string) (m : string * string * string * string) :
  matchHeader header = Some m -> exists rest, header = String "@" rest.
Proof.
  unfold matchHeader. destruct header as [|c rest]; [discriminate|].
  cbn [expect]. destruct (Ascii.eqb "@" c) eqn:E; [|discriminate].
  apply Ascii.eqb_eq in E. subst c. eauto.
Qed.

Lemma ParseDiffHunk_header (hunk : string) (h : DiffHunk) :
  ParseDiffHunk hunk = Ok h ->
  exists header body m,
    Split hunk = header :: body /\ matchHeader header = Some m.
Proof.
  unfold ParseDiffHunk.
  destruct (Split hunk) as [|header body]; [discriminate|].
  destruct (matchHeader header) as [m|] eqn:Hm; [|discriminate].
  intros _. eauto.
Qed.

(** On lines with known markers the loop counts the lines that the
    parser puts on the old side. *)
Lemma countOriginal_parseLines (body : list string) :
  forall count o n pos,
    forallb knownMarker body = true ->
    GoInt.minInt <= count -> count + GoInt.len body <= GoInt.maxInt ->
    countOriginal body count = count + oldCount (parseLines body o n pos).
Proof.
  induction body as [|text body IH]; intros count o n pos Hk Hlo Hhi.
  - simpl. unfold oldCount, GoInt.len. simpl. lia.
  - rewrite len_cons in Hhi. pose proof (len_nonneg body) as Hn.
    simpl in Hk. apply andb_true_iff in Hk. destruct Hk as [Hc Hk].
    destruct text as [|c text].
    + simpl. apply IH; try assumption. lia.
    + assert (Ec : GoInt.add count 1 = count + 1) by (apply add_small; lia).
      simpl countOriginal. simpl parseLines.
      destruct (Ascii.eqb c " ") eqn:E1.
      { cbn [orb]. rewrite oldCount_cons. cbn [onOldSide Type_].
        rewrite Ec, (IH (count + 1) (GoInt.add o 1) (GoInt.add n 1) (GoInt.add pos 1));
          try assumption; lia. }
      destruct (Ascii.eqb c "+") eqn:E2.
      { apply Ascii.eqb_eq in E2. subst c.
        change (Ascii.eqb "+" "-") with false. cbn [orb].
        rewrite oldCount_cons. cbn [onOldSide Type_].
        rewrite (IH count o (GoInt.add n 1) (GoInt.add pos 1)); try assumption; lia. }
      destruct (Ascii.eqb c "-") eqn:E3.
      { cbn [orb]. rewrite oldCount_cons. cbn [onOldSide Type_].
        rewrite Ec, (IH (count + 1) (GoInt.add o 1) n (GoInt.add pos 1));
          try assumption; lia. }
      rewrite (knownMarker_cases c text Hc E1 E2 E3).
      cbn [orb]. rewrite oldCount_cons. cbn [onOldSide Type_].
      rewrite (IH count o n (GoInt.add pos 1)); try assumption; lia.
Qed.

(** X11: for a hunk that parses and whose body lines all start with a
    marker the parser knows, [calculateOriginalLines] returns the number
    of Context and Delete lines of the parsed hunk, and 1 when there is
    none; the line number it is given plays no part. *)
Theorem original_lines_of_parsed_hunk (diffHunk : string) (h : DiffHunk)
    (originalLine : Z) :
  GoInt.fits (Split diffHunk) ->
  ParseDiffHunk diffHunk = Ok h ->
  knownMarkers diffHunk = true ->
  calculateOriginalLines diffHunk originalLine
  = if oldCount (Lines h) =? 0 then 1 else oldCount (Lines h).
Proof.
  intros Hfit Hp Hk.
  destruct (ParseDiffHunk_header diffHunk h Hp) as (header & body & m & Es & Hm).
  destruct (ParseDiffHunk_Ok diffHunk h Hp) as (header' & body' & Es' & El & _).
  rewrite Es in Es'. inversion Es'; subst header' body'; clear Es'.
  destruct (matchHeader_at header m Hm) as (rest & ->).
  unfold knownMarkers in Hk. unfold GoInt.fits in Hfit.
  unfold calculateOriginalLines. rewrite Es in *. simpl tl in Hk.
  rewrite len_cons in Hfit. pose proof (len_nonneg body).
  cbn [countOriginal]. change (Ascii.eqb "@" " " || Ascii.eqb "@" "-") with false.
  cbv iota.
  rewrite (countOriginal_parseLines body 0 (OldStart h) (NewStart h) 0 Hk),
    <- El, Z.add_0_l; try reflexivity; unfold GoInt.minInt, GoInt.maxInt in *; lia.
Qed.

Lemma original_lines_of_parsed_hunk_witness :
  GoInt.fits (Split deletionPatch)
  /\ ParseDiffHunk deletionPatch = Ok deletionParsed
  /\ knownMarkers deletionPatch = true
  /\ calculateOriginalLines deletionPatch 11 = 5.
Proof.
  assert (F : GoInt.fits (Split deletionPatch)) by (vm_compute; discriminate).
  split; [exact F|]. split; [reflexivity|]. split; [reflexivity|].
  exact (original_lines_of_parsed_hunk deletionPatch deletionParsed 11
           F eq_refl eq_refl).
Defined.

End OriginalLines.

(** ** Lines outside the hunks *)

Section UnchangedLines.

Lemma wrap_add_r (a b : Z) :
  GoInt.wrap (a + GoInt.wrap b) = GoInt.wrap (a + b).
Proof. rewrite Z.add_comm, wrap_add_l, Z.add_comm. reflexivity. Qed.

Lemma wrap_sub_r (a b : Z) :
  GoInt.wrap (a - GoInt.wrap b) = GoInt.wrap (a - b).
Proof.
  unfold GoInt.wrap.
  f_equal.
  replace (a - ((b - GoInt.minInt) mod GoInt.modulus + GoInt.minInt) - GoInt.minInt)
    with ((a - 2 * GoInt.minInt) - (b - GoInt.minInt) mod GoInt.modulus) by lia.
  rewrite Zminus_mod_idemp_r. f_equal. lia.
Qed.

Variable z : Z.

Lemma growthBeforeOld_zero (hunks : list DiffHunk) :
  (forall hunk, In hunk hunks -> z < OldStart hunk + OldLines hunk) ->
  growthBeforeOld hunks z = 0.
Proof.
  induction hunks as [|hunk rest IH]; intros H; [reflexivity|].
  simpl. rewrite IH by (intros h Hh; apply H; right; exact Hh).
  replace (OldStart hunk + OldLines hunk <=? z) with false; [reflexivity|].
  symmetry. apply Z.leb_gt. apply H. left. reflexivity.
Qed.

Lemma growthBeforeNew_zero (hunks : list DiffHunk) :
  (forall hunk, In hunk hunks -> z < NewStart hunk + NewLines hunk) ->
  growthBeforeNew hunks z = 0.
Proof.
  induction hunks as [|hunk rest IH]; intros H; [reflexivity|].
  simpl. rewrite IH by (intros h Hh; apply H; right; exact Hh).
  replace (NewStart hunk + NewLines hunk <=? z) with false; [reflexivity|].
  symmetry. apply Z.leb_gt. apply H. left. reflexivity.
Qed.

(** In a patch in file order every hunk ends at or after the start of
    the first one. *)
Lemma ends_after_first_start (first : DiffHunk) (rest : list DiffHunk) (hunk : DiffHunk) :
  forallb hunkInvariant (first :: rest) = true ->
  inFileOrder (first :: rest) = true ->
  In hunk (first :: rest) ->
  OldStart first <= OldStart hunk + OldLines hunk
  /\ NewStart first <= NewStart hunk + NewLines hunk.
Proof.
  intros Hinv Hord Hin.
  destruct (first_start first rest hunk Hinv Hord Hin) as [Ho Hn].
  rewrite forallb_forall in Hinv.
  destruct (hunkInvariant_true hunk (Hinv hunk Hin)) as (_ & _ & _ & Eo & En & _ & _).
  pose proof (oldCount_nonneg (Lines hunk)).
  pose proof (newCount_nonneg (Lines hunk)). lia.
Qed.

Lemma mapOldLoop_outside (hunks : list DiffHunk) :
  forall offset,
    forallb hunkInvariant hunks = true ->
    inFileOrder hunks = true ->
    outsideOld hunks z = true ->
    mapOldLoop hunks (GoInt.wrap offset) z
    = GoInt.wrap (z + offset + growthBeforeOld hunks z).
Proof.
  induction hunks as [|hunk rest IH]; intros offset Hinv Hord Hout.
  - simpl. unfold GoInt.add. rewrite wrap_add_r. f_equal. lia.
  - pose proof Hinv as Hinv'. pose proof Hord as Hord'.
    simpl in Hinv, Hord, Hout.
    apply andb_true_iff in Hinv. destruct Hinv as [Hh Hinv].
    apply andb_true_iff in Hord. destruct Hord as [Hbefore Hord].
    apply andb_true_iff in Hout. destruct Hout as [Hhere Hout].
    destruct (hunkInvariant_true hunk Hh) as (So & Sn & _ & Eo & En & Bo & Bn).
    pose proof (oldCount_nonneg (Lines hunk)) as Co.
    cbn [mapOldLoop].
    destruct (z <? OldStart hunk) eqn:Hlt.
    + apply Z.ltb_lt in Hlt.
      rewrite growthBeforeOld_zero.
      * unfold GoInt.add. rewrite wrap_add_r. f_equal. lia.
      * intros h Hin.
        destruct (ends_after_first_start hunk rest h Hinv' Hord' Hin). lia.
    + apply Z.ltb_ge in Hlt. cbn [orb] in Hhere. apply Z.leb_le in Hhere.
      rewrite (add_small (OldStart hunk) (OldLines hunk))
        by (unfold GoInt.minInt; lia).
      replace (z >=? OldStart hunk + OldLines hunk) with true
        by (symmetry; rewrite Z.geb_leb; apply Z.leb_le; exact Hhere).
      unfold GoInt.add at 1. unfold GoInt.sub. rewrite wrap_add_l, wrap_add_r.
      rewrite (IH (offset + (NewLines hunk - OldLines hunk)) Hinv Hord Hout).
      cbn [growthBeforeOld].
      replace (OldStart hunk + OldLines hunk <=? z) with true
        by (symmetry; apply Z.leb_le; exact Hhere).
      f_equal. lia.
Qed.

Lemma mapNewLoop_outside (hunks : list DiffHunk) :
  forall offset,
    forallb hunkInvariant hunks = true ->
    inFileOrder hunks = true ->
    outsideNew hunks z = true ->
    mapNewLoop hunks (GoInt.wrap offset) z
    = GoInt.wrap (z - offset - growthBeforeNew hunks z).
Proof.
  induction hunks as [|hunk rest IH]; intros offset Hinv Hord Hout.
  - simpl. unfold GoInt.sub. rewrite wrap_sub_r. f_equal. lia.
  - pose proof Hinv as Hinv'. pose proof Hord as Hord'.
    simpl in Hinv, Hord, Hout.
    apply andb_true_iff in Hinv. destruct Hinv as [Hh Hinv].
    apply andb_true_iff in Hord. destruct Hord as [Hbefore Hord].
    apply andb_true_iff in Hout. destruct Hout as [Hhere Hout].
    destruct (hunkInvariant_true hunk Hh) as (So & Sn & _ & Eo & En & Bo & Bn).
    pose proof (newCount_nonneg (Lines hunk)) as Cn.
    cbn [mapNewLoop].
    destruct (z <? NewStart hunk) eqn:Hlt.
    + apply Z.ltb_lt in Hlt.
      rewrite growthBeforeNew_zero.
      * unfold GoInt.sub. rewrite wrap_sub_r. f_equal. lia.
      * intros h Hin.
        destruct (ends_after_first_start hunk rest h Hinv' Hord' Hin). lia.
    + apply Z.ltb_ge in Hlt. cbn [orb] in Hhere. apply Z.leb_le in Hhere.
      rewrite (add_small (NewStart hunk) (NewLines hunk))
        by (unfold GoInt.minInt; lia).
      replace (z >=? NewStart hunk + NewLines hunk) with true
        by (symmetry; rewrite Z.geb_leb; apply Z.leb_le; exact Hhere).
      unfold GoInt.add at 1. unfold GoInt.sub at 1. rewrite wrap_add_l, wrap_add_r.
      rewrite (IH (offset + (NewLines hunk - OldLines hunk)) Hinv Hord Hout).
      cbn [growthBeforeNew].
      replace (NewStart hunk + NewLines hunk <=? z) with true
        by (symmetry; apply Z.leb_le; exact Hhere).
      f_equal. lia.
Qed.

End UnchangedLines.

(** X12: for a patch that parses into hunks satisfying the Hunk invariant
    in file order, a line number that lies outside every hunk is shifted
    by the growth of the hunks that end before it: [MapOldPositionToNew]
    adds to an old line number the sum of new count minus old count of
    those hunks, and [MapNewPositionToOld] subtracts it from a new line
    number. *)
Theorem unchanged_lines_shift (patch : string) (hunks : list DiffHunk) (z : Z) :
  ParsePatch patch = Ok hunks ->
  patchInvariant hunks = true ->
  GoInt.inRange z ->
  (outsideOld hunks z = true ->
   MapOldPositionToNew patch z = Ok (GoInt.add z (growthBeforeOld hunks z)))
  /\ (outsideNew hunks z = true ->
      MapNewPositionToOld patch z = Ok (GoInt.sub z (growthBeforeNew hunks z))).
Proof.
  intros Hp Hinv Hz. unfold patchInvariant in Hinv.
  apply andb_true_iff in Hinv. destruct Hinv as [Hall Hord].
  assert (W0 : GoInt.wrap 0 = 0) by reflexivity.
  split; intros Hout.
  - unfold MapOldPositionToNew. rewrite Hp.
    assert (Hloop : mapOldLoop hunks 0 z = GoInt.add z (growthBeforeOld hunks z)).
    { rewrite <- W0 at 1. rewrite (mapOldLoop_outside z hunks 0 Hall Hord Hout).
      unfold GoInt.add. f_equal. lia. }
    destruct hunks as [|first rest]; [rewrite Hloop; reflexivity|].
    destruct (z <? OldStart first) eqn:Hlt; [|rewrite Hloop; reflexivity].
    apply Z.ltb_lt in Hlt. rewrite growthBeforeOld_zero.
    + rewrite add_small by (unfold GoInt.inRange in Hz; lia).
      rewrite Z.add_0_r. reflexivity.
    + intros h Hin.
      destruct (ends_after_first_start first rest h Hall Hord Hin). lia.
  - unfold MapNewPositionToOld. rewrite Hp.
    assert (Hloop : mapNewLoop hunks 0 z = GoInt.sub z (growthBeforeNew hunks z)).
    { rewrite <- W0 at 1. rewrite (mapNewLoop_outside z hunks 0 Hall Hord Hout).
      unfold GoInt.sub. f_equal. lia. }
    destruct hunks as [|first rest]; [rewrite Hloop; reflexivity|].
    destruct (z <? NewStart first) eqn:Hlt; [|rewrite Hloop; reflexivity].
    apply Z.ltb_lt in Hlt. rewrite growthBeforeNew_zero.
    + rewrite sub_small by (unfold GoInt.inRange in Hz; lia).
      rewrite Z.sub_0_r. reflexivity.
    + intros h Hin.
      destruct (ends_after_first_start first rest h Hall Hord Hin). lia.
Qed.

Lemma unchanged_lines_shift_witness :
  ParsePatch twoHunkPatch = Ok twoHunkParsed
  /\ patchInvariant twoHunkParsed = true
  /\ GoInt.inRange 15
  /\ MapOldPositionToNew twoHunkPatch 15 = Ok 14
  /\ MapNewPositionToOld twoHunkPatch 15 = Ok 16.
Proof.
  assert (R : GoInt.inRange 15) by (unfold GoInt.inRange; vm_compute; split; discriminate).
  split; [reflexivity|]. split; [reflexivity|]. split; [exact R|].
  destruct (unchanged_lines_shift twoHunkPatch twoHunkParsed 15 eq_refl eq_refl R)
    as [O N].
  split; [exact (O eq_refl) | exact (N eq_refl)].
Defined.

(** ** Applying a patch to a file *)

Section ApplyPatch.

Variable originalLines : list string.
Hypothesis original_fits : GoInt.fits originalLines.

Lemma slice_beyond (lo hi : Z) :
  GoInt.len originalLines <= lo -> slice originalLines lo hi = [].
Proof.
  intros H. unfold slice. rewrite skipn_all2; [apply firstn_nil|].
  unfold GoInt.len in H. lia.
Qed.

(** The loop before a hunk copies the lines of the file up to the hunk,
    as far as the file goes. *)
Lemma copyUnchanged_slice (hi : Z) :
  hi <= GoInt.maxInt ->
  forall lo,
    1 <= lo ->
    copyUnchanged originalLines (zrange lo hi)
    = Done (slice originalLines (lo - 1) (hi - 1)).
Proof.
  intros Hhi lo. remember (Z.to_nat (hi - lo)) as n eqn:En.
  revert lo En. induction n as [|n IH]; intros lo En Hlo.
  - rewrite zrange_nil, slice_nil by lia. reflexivity.
  - rewrite zrange_cons by lia. cbn [copyUnchanged].
    rewrite sub_small by (unfold GoInt.minInt; lia).
    rewrite (IH (lo + 1)) by lia.
    replace (lo + 1 - 1) with (lo - 1 + 1) by lia.
    destruct (lo - 1 <? GoInt.len originalLines) eqn:Hin.
    + apply Z.ltb_lt in Hin.
      destruct (index_in_range originalLines (lo - 1)) as [x Hx]; [lia|].
      rewrite Hx. cbn [bind].
      apply index_Done in Hx. destruct Hx as [_ Hx].
      rewrite (slice_cons originalLines (lo - 1) (hi - 1) x) by (try assumption; lia).
      reflexivity.
    + apply Z.ltb_ge in Hin.
      rewrite !slice_beyond by lia. reflexivity.
Qed.

(** The loop after the last hunk copies the rest of the file. *)
Lemma copyRemaining_slice :
  forall lo,
    1 <= lo ->
    copyRemaining originalLines (zrange lo (GoInt.len originalLines + 1))
    = Done (slice originalLines (lo - 1) (GoInt.len originalLines)).
Proof.
  intros lo. remember (Z.to_nat (GoInt.len originalLines + 1 - lo)) as n eqn:En.
  revert lo En. induction n as [|n IH]; intros lo En Hlo.
  - rewrite zrange_nil, slice_nil by lia. reflexivity.
  - rewrite zrange_cons by lia. cbn [copyRemaining].
    unfold GoInt.fits in original_fits.
    rewrite sub_small by (unfold GoInt.minInt, GoInt.maxInt in *; lia).
    destruct (index_in_range originalLines (lo - 1)) as [x Hx]; [lia|].
    rewrite Hx. cbn [bind]. rewrite (IH (lo + 1)) by lia. cbn [bind].
    apply index_Done in Hx. destruct Hx as [_ Hx].
    rewrite (slice_cons originalLines (lo - 1) (GoInt.len originalLines) x)
      by (try assumption; lia).
    replace (lo + 1 - 1) with (lo - 1 + 1) by lia. reflexivity.
Qed.

(** The loop over the lines of a hunk emits its new side and advances
    over its old side. *)
Lemma applyLines_newSide (lines : list DiffLine) :
  forall cur,
    GoInt.minInt <= cur -> cur + oldCount lines <= GoInt.maxInt ->
    applyLines lines cur
    = (map Text (filter onNewSide lines), cur + oldCount lines).
Proof.
  induction lines as [|line rest IH]; intros cur Hlo Hhi.
  - simpl. unfold oldCount, GoInt.len. simpl. f_equal. lia.
  - rewrite oldCount_cons in *. pose proof (oldCount_nonneg rest) as Hn.
    cbn [applyLines filter]. unfold onOldSide, onNewSide in *.
    destruct (Type_ line).
    + rewrite add_small by lia. rewrite IH by lia.
      cbn [map]. f_equal. lia.
    + rewrite IH by lia. cbn [map]. f_equal.
    + rewrite add_small by lia. rewrite IH by lia. f_equal. lia.
    + rewrite IH by lia. f_equal.
Qed.

Lemma applyHunks_patched (hunks : list DiffHunk) :
  forall cur,
    1 <= cur ->
    forallb hunkInvariant hunks = true ->
    inFileOrder hunks = true ->
    (forall hunk, In hunk hunks -> cur <= OldStart hunk) ->
    exists body cur',
      applyHunks originalLines hunks cur = Done (body, cur')
      /\ 1 <= cur'
      /\ (body ++ slice originalLines (cur' - 1) (GoInt.len originalLines))%list
         = patched originalLines hunks (cur - 1).
Proof.
  induction hunks as [|hunk rest IH]; intros cur Hcur Hinv Hord Hstart.
  - exists [], cur. split; [reflexivity|]. split; [exact Hcur | reflexivity].
  - simpl in Hinv, Hord.
    apply andb_true_iff in Hinv. destruct Hinv as [Hh Hinv].
    apply andb_true_iff in Hord. destruct Hord as [Hbefore Hord].
    destruct (hunkInvariant_true hunk Hh) as (So & Sn & _ & Eo & En & Bo & Bn).
    pose proof (oldCount_nonneg (Lines hunk)) as Co.
    pose proof (Hstart hunk (or_introl eq_refl)) as Hle.
    destruct (IH (OldStart hunk + OldLines hunk)) as (body & cur' & Hr & Hc' & Hb);
      try assumption; [lia| |].
    { intros h Hin. rewrite forallb_forall in Hbefore.
      destruct (endsBefore_true hunk h (Hbefore h Hin)). lia. }
    exists ((slice originalLines (cur - 1) (OldStart hunk - 1) ++ newSide hunk ++ body)%list),
      cur'.
    cbn [applyHunks].
    rewrite copyUnchanged_slice by lia. cbn [bind].
    assert (Hreached : (if cur <? OldStart hunk then OldStart hunk else cur)
                       = OldStart hunk).
    { destruct (cur <? OldStart hunk) eqn:E; [reflexivity|].
      apply Z.ltb_ge in E. lia. }
    rewrite Hreached.
    rewrite applyLines_newSide by (unfold GoInt.minInt; lia).
    rewrite Eo, Hr. cbn [bind fst snd].
    split; [reflexivity|]. split; [exact Hc'|].
    cbn [patched]. rewrite <- !app_assoc. rewrite Hb.
    replace (OldStart hunk + OldLines hunk - 1)
      with (OldStart hunk - 1 + OldLines hunk) by lia.
    reflexivity.
Qed.

End ApplyPatch.

(** X13: for a patch that parses into hunks satisfying the Hunk invariant
    in file order, each starting at line 1 or later,
    [GetModifiedContentFromDiffHunk] returns without error or panic the
    lines of the original content with, for each hunk, the old lines the
    header declares replaced by the texts of the Context and Add lines of
    the hunk, joined by newlines. The texts of Context lines are taken
    from the patch and are not compared with the original. *)
Theorem patch_application (originalContent patch : string) (hunks : list DiffHunk) :
  GoInt.fits (Split originalContent) ->
  ParsePatch patch = Ok hunks ->
  patchInvariant hunks = true ->
  (forall hunk, In hunk hunks -> 1 <= OldStart hunk) ->
  GetModifiedContentFromDiffHunk originalContent patch
  = Done (Ok (Join (patched (Split originalContent) hunks 0))).
Proof.
  intros Hfit Hp Hinv Hstart. unfold patchInvariant in Hinv.
  apply andb_true_iff in Hinv. destruct Hinv as [Hall Hord].
  unfold GetModifiedContentFromDiffHunk. rewrite Hp.
  destruct (applyHunks_patched (Split originalContent) hunks 1)
    as (body & cur' & Hr & Hc' & Hb); try assumption; [lia|].
  rewrite Hr. cbn [bind fst snd].
  rewrite copyRemaining_slice by assumption. cbn [bind].
  rewrite Hb. reflexivity.
Qed.

Lemma patch_application_witness :
  GoInt.fits (Split (unlines fileAtReview))
  /\ ParsePatch reviewedPatch
     = Ok [mkDiffHunk 1 5 1 4
             [mkDiffLine Context 1 1 "a" 0; mkDiffLine Context 2 2 "b" 1;
              mkDiffLine Delete 3 (-1) "TARGET1" 2;
              mkDiffLine Delete 4 (-1) "TARGET2" 3;
              mkDiffLine Add (-1) 3 "NEW1" 4; mkDiffLine Context 5 4 "c" 5]]
  /\ GetModifiedContentFromDiffHunk (unlines fileAtReview) reviewedPatch
     = Done (Ok (unlines ["a"; "b"; "NEW1"; "c"])).
Proof.
  assert (F : GoInt.fits (Split (unlines fileAtReview))) by (vm_compute; discriminate).
  assert (P : ParsePatch reviewedPatch
              = Ok [mkDiffHunk 1 5 1 4
                      [mkDiffLine Context 1 1 "a" 0; mkDiffLine Context 2 2 "b" 1;
                       mkDiffLine Delete 3 (-1) "TARGET1" 2;
                       mkDiffLine Delete 4 (-1) "TARGET2" 3;
                       mkDiffLine Add (-1) 3 "NEW1" 4; mkDiffLine Context 5 4 "c" 5]])
    by (vm_compute; reflexivity).
  split; [exact F|]. split; [exact P|].
  rewrite (patch_application (unlines fileAtReview) reviewedPatch _ F P).
  - vm_compute. reflexivity.
  - vm_compute. reflexivity.
  - intros hunk [<-|[]]. vm_compute. discriminate.
Defined.

(** ** Texts: numerals, lines and prefixes *)

Section Numerals.

Lemma string_of_uint_digits (d : Decimal.uint) :
  allOf isDigit (NilEmpty.string_of_uint d) = true.
Proof.
  induction d; cbn [NilEmpty.string_of_uint allOf]; try reflexivity;
    rewrite IHd; reflexivity.
Qed.

Lemma string_of_uint_nil (d : Decimal.uint) :
  NilEmpty.string_of_uint d = EmptyString -> d = Decimal.Nil.
Proof. destruct d; simpl; intros H; try discriminate. reflexivity. Qed.

Lemma decimal_of_uint_acc (d : Decimal.uint) :
  forall acc,
    decimal (Z.pos acc) (NilEmpty.string_of_uint d) = Z.pos (Pos.of_uint_acc d acc).
Proof.
  induction d; intros acc; cbn [NilEmpty.string_of_uint decimal Pos.of_uint_acc];
    try reflexivity; rewrite <- IHd; f_equal; unfold digitValue;
    cbn [nat_of_ascii]; vm_compute Z.of_nat; lia.
Qed.

Lemma decimal_of_uint (d : Decimal.uint) :
  decimal 0 (NilEmpty.string_of_uint d) = Z.of_N (Pos.of_uint d).
Proof.
  induction d; cbn [NilEmpty.string_of_uint decimal Pos.of_uint];
    try reflexivity;
    [exact IHd | ..];
    match goal with
    | |- decimal ?x _ = _ =>
        let v := eval vm_compute in x in change x with v
    end;
    rewrite decimal_of_uint_acc; reflexivity.
Qed.

(** [Atoi] reads back what [itoa] writes. *)
Lemma Atoi_itoa (z : Z) : 0 <= z <= GoInt.maxInt -> Atoi (itoa z) = z.
Proof.
  intros Hz. unfold Atoi, itoa. destruct z as [|p|p]; [reflexivity| |lia].
  cbn [Z.to_int NilEmpty.string_of_int].
  rewrite decimal_of_uint, Unsigned.of_to. cbn [Z.of_N]. lia.
Qed.

Lemma itoa_digits (z : Z) : 0 <= z -> allOf isDigit (itoa z) = true.
Proof.
  intros Hz. unfold itoa. destruct z as [|p|p]; [reflexivity| |lia].
  apply string_of_uint_digits.
Qed.

Lemma itoa_nonempty (z : Z) : 0 <= z -> itoa z <> EmptyString.
Proof.
  intros Hz. unfold itoa. destruct z as [|p|p]; [discriminate| |lia].
  cbn [Z.to_int NilEmpty.string_of_int]. intros H.
  apply string_of_uint_nil in H. exact (Unsigned.to_uint_nonnil p H).
Qed.

End Numerals.

Section Spans.

Lemma span_app (p : ascii -> bool) (a b : string) :
  allOf p a = true -> stopsAt p b -> span p (a ++ b) = (a, b).
Proof.
  induction a as [|c a IH]; intros Ha Hb.
  - destruct b as [|c b]; [reflexivity|]. simpl in *. rewrite Hb. reflexivity.
  - simpl in Ha. apply andb_true_iff in Ha. destruct Ha as [Hc Ha].
    cbn [append span]. rewrite Hc, (IH Ha Hb). reflexivity.
Qed.

Lemma span1_app (p : ascii -> bool) (a b : string) :
  a <> EmptyString -> allOf p a = true -> stopsAt p b ->
  span1 p (a ++ b) = Some (a, b).
Proof.
  intros Hne Ha Hb. unfold span1. rewrite (span_app p a b Ha Hb).
  destruct a; [congruence | reflexivity].
Qed.

Lemma optCount_app (a b : string) :
  a <> EmptyString -> allOf isDigit a = true -> stopsAt isDigit b ->
  optCount ("," ++ a ++ b) = (a, b).
Proof.
  intros Hne Ha Hb. unfold optCount. cbn [append expect].
  change (Ascii.eqb "," ",") with true. cbv iota.
  rewrite (span1_app isDigit a b Hne Ha Hb). reflexivity.
Qed.

(** The header expression matches a header written with four
    numerals. *)
Lemma matchHeader_numerals (a b c d : string) :
  a <> EmptyString -> allOf isDigit a = true ->
  b <> EmptyString -> allOf isDigit b = true ->
  c <> EmptyString -> allOf isDigit c = true ->
  d <> EmptyString -> allOf isDigit d = true ->
  matchHeader ("@@ -" ++ a ++ "," ++ b ++ " +" ++ c ++ "," ++ d ++ " @@")
  = Some (a, b, c, d).
Proof.
  intros Na Da Nb Db Nc Dc Nd Dd. unfold matchHeader.
  change (expect "@@" ("@@ -" ++ a ++ "," ++ b ++ " +" ++ c ++ "," ++ d ++ " @@"))
    with (Some (" " ++ "-" ++ a ++ "," ++ b ++ " +" ++ c ++ "," ++ d ++ " @@")).
  cbv iota.
  rewrite (span1_app isSpace " " _) by (try discriminate; reflexivity).
  change (expect "-" ("-" ++ a ++ "," ++ b ++ " +" ++ c ++ "," ++ d ++ " @@"))
    with (Some (a ++ "," ++ b ++ " +" ++ c ++ "," ++ d ++ " @@")).
  cbv iota.
  rewrite (span1_app isDigit a _ Na Da) by reflexivity.
  rewrite (optCount_app b _ Nb Db) by reflexivity.
  change (" +" ++ c ++ "," ++ d ++ " @@") with (" " ++ "+" ++ c ++ "," ++ d ++ " @@").
  rewrite (span1_app isSpace " " _) by (try discriminate; reflexivity).
  change (expect "+" ("+" ++ c ++ "," ++ d ++ " @@"))
    with (Some (c ++ "," ++ d ++ " @@")).
  cbv iota.
  rewrite (span1_app isDigit c _ Nc Dc) by reflexivity.
  rewrite (optCount_app d _ Nd Dd) by reflexivity.
  change (" @@") with (" " ++ "@@").
  rewrite (span1_app isSpace " " _) by (try discriminate; reflexivity).
  reflexivity.
Qed.

End Spans.

Section TextLines.

Lemma oneLine_app (a b : string) :
  oneLine (a ++ b) = oneLine a && oneLine b.
Proof.
  unfold oneLine. induction a as [|c a IH]; [reflexivity|].
  cbn [append allOf]. rewrite IH, andb_assoc. reflexivity.
Qed.

Lemma Split_line (line rest : string) :
  oneLine line = true -> Split (line ++ nl ++ rest) = line :: Split rest.
Proof.
  unfold oneLine. induction line as [|c line IH]; intros H.
  - cbn [append nl Split]. rewrite Ascii.eqb_refl. reflexivity.
  - cbn [allOf] in H. apply andb_true_iff in H. destruct H as [Hc H].
    apply negb_true_iff in Hc.
    change (String c line ++ nl ++ rest) with (String c (line ++ nl ++ rest)).
    cbn [Split]. rewrite Hc, (IH H). reflexivity.
Qed.

Lemma Split_oneLine (s : string) : Forall (fun line => oneLine line = true) (Split s).
Proof.
  induction s as [|c s IH]; cbn [Split].
  - constructor; [reflexivity | constructor].
  - destruct (Ascii.eqb c newline) eqn:Hc.
    + constructor; [reflexivity | exact IH].
    + destruct (Split s) as [|l ls]; [repeat constructor; unfold oneLine; simpl; rewrite Hc; reflexivity|].
      inversion IH; subst. constructor; [|assumption].
      unfold oneLine in *. cbn [allOf]. rewrite Hc. assumption.
Qed.

(** Joining the lines of a text gives the text back. *)
Lemma Join_Split (s : string) : Join (Split s) = s.
Proof.
  unfold Join. induction s as [|c s IH]; [reflexivity|].
  cbn [Split]. destruct (Ascii.eqb c newline) eqn:Hc.
  - apply Ascii.eqb_eq in Hc. subst c.
    destruct (Split_cons s) as (first & rest & E). rewrite E in *.
    cbn [String.concat]. cbn [String.concat] in IH. rewrite IH. reflexivity.
  - destruct (Split_cons s) as (first & rest & E). rewrite E in *.
    destruct rest as [|r rest]; cbn [String.concat] in *; rewrite <- IH; reflexivity.
Qed.

Lemma Split_prefixed (prefix : string) (lines : list string) (rest : string) :
  oneLine prefix = true ->
  Forall (fun line => oneLine line = true) lines ->
  Split (prefixed prefix lines ++ rest)
  = (map (append prefix) lines ++ Split rest)%list.
Proof.
  intros Hp Hl. induction Hl as [|line more Hline _ IH]; [reflexivity|].
  cbn [prefixed map].
  rewrite !append_assoc.
  rewrite <- (append_assoc prefix line).
  rewrite Split_line by (rewrite oneLine_app, Hp, Hline; reflexivity).
  rewrite IH. reflexivity.
Qed.

End TextLines.

(** ** Finding the hunks of a patch *)

Section HunkStarts.

Lemma string_length_app (a b : string) :
  String.length (a ++ b) = (String.length a + String.length b)%nat.
Proof. induction a as [|c a IH]; [reflexivity|]. cbn [append String.length]. rewrite IH. reflexivity. Qed.

Lemma substring_all (b : string) : String.substring 0 (String.length b) b = b.
Proof. induction b as [|c b IH]; [reflexivity|]. cbn [String.length String.substring]. rewrite IH. reflexivity. Qed.

Lemma substring_suffix (a b : string) :
  String.substring (String.length a) (String.length (a ++ b) - String.length a) (a ++ b) = b.
Proof.
  rewrite string_length_app.
  replace (String.length a + String.length b - String.length a)%nat
    with (String.length b) by lia.
  induction a as [|c a IH]; [apply substring_all|].
  cbn [append String.length String.substring]. exact IH.
Qed.

(** Passing over the bytes of a match. *)
Lemma findHunkStarts_skip (a b : string) :
  forall pos bol,
    findHunkStarts (a ++ b) pos bol (String.length a)
    = findHunkStarts b (pos + String.length a) (bolAfter bol a) 0.
Proof.
  induction a as [|c a IH]; intros pos bol.
  - cbn [append String.length bolAfter]. rewrite Nat.add_0_r. reflexivity.
  - cbn [append String.length bolAfter findHunkStarts]. rewrite IH.
    f_equal. lia.
Qed.

Lemma bolAfter_oneLine (a : string) :
  oneLine a = true -> bolAfter false a = false.
Proof.
  unfold oneLine. induction a as [|c a IH]; intros H; [reflexivity|].
  cbn [allOf] in H. apply andb_true_iff in H. destruct H as [Hc H].
  apply negb_true_iff in Hc. cbn [bolAfter]. rewrite Hc. exact (IH H).
Qed.

(** Within a line nothing matches; the next line is read from its
    start. *)
Lemma findHunkStarts_within (line rest : string) :
  oneLine line = true ->
  forall pos,
    findHunkStarts (line ++ nl ++ rest) pos false 0
    = findHunkStarts rest (pos + String.length line + 1) true 0.
Proof.
  unfold oneLine. induction line as [|c line IH]; intros H pos.
  - cbn [append nl findHunkStarts String.length]. rewrite Ascii.eqb_refl.
    f_equal. lia.
  - cbn [allOf] in H. apply andb_true_iff in H. destruct H as [Hc H].
    apply negb_true_iff in Hc.
    change (String c line ++ nl ++ rest) with (String c (line ++ nl ++ rest)).
    cbn [findHunkStarts String.length]. rewrite Hc, (IH H). f_equal. lia.
Qed.

(** A line that does not start with [@] starts no hunk. *)
Lemma findHunkStarts_line (line rest : string) :
  stopsAt (Ascii.eqb "@") line ->
  oneLine line = true ->
  forall pos,
    findHunkStarts (line ++ nl ++ rest) pos true 0
    = findHunkStarts rest (pos + String.length line + 1) true 0.
Proof.
  intros Hat H pos. destruct line as [|c line].
  - cbn [append nl findHunkStarts String.length]. rewrite Ascii.eqb_refl.
    unfold matchHunkStart. cbn [expect].
    change (Ascii.eqb "@" newline) with false. cbv iota. f_equal. lia.
  - unfold oneLine in H. cbn [allOf] in H. cbn [stopsAt] in Hat.
    apply andb_true_iff in H. destruct H as [Hc H]. apply negb_true_iff in Hc.
    change (String c line ++ nl ++ rest) with (String c (line ++ nl ++ rest)).
    cbn [findHunkStarts]. unfold matchHunkStart. cbn [expect]. rewrite Hat, Hc.
    rewrite (findHunkStarts_within line rest H). cbn [String.length]. f_equal. lia.
Qed.

Lemma noStarts_nil : noStarts EmptyString.
Proof. intros pos. reflexivity. Qed.

Lemma noStarts_line (line rest : string) :
  stopsAt (Ascii.eqb "@") line ->
  oneLine line = true ->
  noStarts rest -> noStarts (line ++ nl ++ rest).
Proof.
  intros Hat H Hrest pos. rewrite (findHunkStarts_line line rest Hat H).
  apply Hrest.
Qed.

(** Lines written after a prefix other than [@] start no hunk. *)
Lemma noStarts_prefixed (p : ascii) (lines : list string) (rest : string) :
  Ascii.eqb "@" p = false -> Ascii.eqb p newline = false ->
  Forall (fun line => oneLine line = true) lines ->
  noStarts rest ->
  noStarts (prefixed (String p EmptyString) lines ++ rest).
Proof.
  intros Hat Hp Hl Hrest. induction Hl as [|line more Hline _ IH]; [exact Hrest|].
  cbn [prefixed]. rewrite !append_assoc.
  change (String p EmptyString ++ line ++ nl ++ prefixed (String p EmptyString) more ++ rest)
    with (String p line ++ nl ++ prefixed (String p EmptyString) more ++ rest).
  apply (noStarts_line (String p line)); [exact Hat| |exact IH].
  unfold oneLine in *. cbn [allOf]. rewrite Hp, Hline. reflexivity.
Qed.

(** The hunk-start expression matches a header line. *)
Lemma matchHunkStart_header (mid rest : string) :
  mid <> EmptyString ->
  allOf (fun c => negb (Ascii.eqb c "@")) mid = true ->
  matchHunkStart ("@@" ++ mid ++ "@@" ++ rest)
  = Some (2 + String.length mid + 2)%nat.
Proof.
  intros Hne Hmid. unfold matchHunkStart.
  change (expect "@@" ("@@" ++ mid ++ "@@" ++ rest)) with (Some (mid ++ "@@" ++ rest)).
  cbv iota. rewrite span1_app; try assumption; reflexivity.
Qed.

Lemma findHunkStarts_header (mid rest : string) (pos : nat) :
  mid <> EmptyString ->
  allOf (fun c => negb (Ascii.eqb c "@")) mid = true ->
  oneLine mid = true ->
  findHunkStarts ("@@" ++ mid ++ "@@" ++ nl ++ rest) pos true 0
  = pos :: findHunkStarts rest (pos + String.length ("@@" ++ mid ++ "@@") + 1) true 0.
Proof.
  intros Hne Hmid Hline.
  change ("@@" ++ mid ++ "@@" ++ nl ++ rest)
    with (String "@" ("@" ++ mid ++ "@@" ++ nl ++ rest)).
  cbn [findHunkStarts].
  change (String "@" ("@" ++ mid ++ "@@" ++ nl ++ rest))
    with ("@@" ++ mid ++ "@@" ++ nl ++ rest).
  rewrite (matchHunkStart_header mid (nl ++ rest) Hne Hmid).
  f_equal.
  assert (E : ("@" ++ mid ++ "@@" ++ nl ++ rest) = (("@" ++ mid ++ "@@") ++ nl ++ rest)).
  { rewrite !append_assoc. reflexivity. }
  rewrite E.
  replace (Nat.pred (2 + String.length mid + 2)) with (String.length ("@" ++ mid ++ "@@"))
    by (rewrite !string_length_app; cbn [String.length]; lia).
  change (Ascii.eqb "@" newline) with false.
  rewrite (findHunkStarts_skip ("@" ++ mid ++ "@@") (nl ++ rest)).
  rewrite bolAfter_oneLine
    by (rewrite !oneLine_app, Hline; reflexivity).
  assert (L1 : String.length ("@" ++ mid ++ "@@") = (String.length mid + 3)%nat)
    by (rewrite !string_length_app; cbn [String.length]; lia).
  assert (L2 : String.length ("@@" ++ mid ++ "@@") = (String.length mid + 4)%nat)
    by (rewrite !string_length_app; cbn [String.length]; lia).
  rewrite L1, L2.
  change (nl ++ rest) with (String newline rest).
  cbn [findHunkStarts]. rewrite Ascii.eqb_refl.
  f_equal. lia.
Qed.

End HunkStarts.

(** ** The shape of a parsed body *)

Section Shapes.

Lemma parseLines_shape (body : list string) :
  forall o n pos, shape (parseLines body o n pos) = marks body.
Proof.
  unfold shape, marks.
  induction body as [|line body IH]; intros o n pos; [reflexivity|].
  destruct line as [|c text]; [apply IH|].
  cbn [parseLines flat_map markOf].
  destruct (Ascii.eqb c " "); [cbn [map app Type_ Text]; f_equal; apply IH|].
  destruct (Ascii.eqb c "+"); [cbn [map app Type_ Text]; f_equal; apply IH|].
  destruct (Ascii.eqb c "-"); [cbn [map app Type_ Text]; f_equal; apply IH|].
  destruct (Ascii.eqb c "\"); cbn [map app Type_ Text]; f_equal; apply IH.
Qed.

Lemma oldCount_shape (lines : list DiffLine) :
  oldCount lines = GoInt.len (filter oldKind (shape lines)).
Proof.
  unfold oldCount, shape, GoInt.len. f_equal.
  induction lines as [|line rest IH]; [reflexivity|].
  cbn [filter map]. change (oldKind (Type_ line, Text line)) with (onOldSide line).
  destruct (onOldSide line); cbn [List.length]; rewrite IH; reflexivity.
Qed.

Lemma newCount_shape (lines : list DiffLine) :
  newCount lines = GoInt.len (filter newKind (shape lines)).
Proof.
  unfold newCount, shape, GoInt.len. f_equal.
  induction lines as [|line rest IH]; [reflexivity|].
  cbn [filter map]. change (newKind (Type_ line, Text line)) with (onNewSide line).
  destruct (onNewSide line); cbn [List.length]; rewrite IH; reflexivity.
Qed.

Lemma newSide_shape (hunk : DiffHunk) :
  newSide hunk = map snd (filter newKind (shape (Lines hunk))).
Proof.
  unfold newSide, shape.
  induction (Lines hunk) as [|line rest IH]; [reflexivity|].
  cbn [filter map]. change (newKind (Type_ line, Text line)) with (onNewSide line).
  destruct (onNewSide line); cbn [map snd]; rewrite IH; reflexivity.
Qed.

Lemma filter_marked (f : DiffChangeType * string -> bool) (kind : DiffChangeType)
    (texts : list string) (b : bool) :
  (forall text, f (kind, text) = b) ->
  filter f (marked kind texts) = if b then marked kind texts else [].
Proof.
  intros Hf. unfold marked.
  induction texts as [|text rest IH]; [destruct b; reflexivity|].
  cbn [map filter]. rewrite Hf, IH. destruct b; reflexivity.
Qed.

Lemma marked_length (kind : DiffChangeType) (texts : list string) :
  GoInt.len (marked kind texts) = GoInt.len texts.
Proof. unfold marked, GoInt.len. rewrite length_map. reflexivity. Qed.

Lemma marked_snd (kind : DiffChangeType) (texts : list string) :
  map snd (marked kind texts) = texts.
Proof.
  unfold marked. rewrite map_map. cbn [snd]. apply map_id.
Qed.

Lemma len_app {A : Type} (xs ys : list A) :
  GoInt.len (xs ++ ys)%list = GoInt.len xs + GoInt.len ys.
Proof. unfold GoInt.len. rewrite length_app. lia. Qed.

(** The marks of lines written after one of the three prefixes. *)
Lemma marks_prefixed (p : ascii) (kind : DiffChangeType) (texts : list string) :
  markOf (String p EmptyString) = Some (kind, EmptyString) ->
  Ascii.eqb p "\" = false ->
  marks (map (append (String p EmptyString)) texts) = marked kind texts.
Proof.
  intros Hp Hb. unfold marks, marked.
  induction texts as [|text rest IH]; [reflexivity|].
  cbn [map flat_map]. rewrite IH.
  change (String p EmptyString ++ text) with (String p text).
  unfold markOf in *.
  destruct (Ascii.eqb p " "); [inversion Hp; reflexivity|].
  destruct (Ascii.eqb p "+"); [inversion Hp; reflexivity|].
  destruct (Ascii.eqb p "-"); [inversion Hp; reflexivity|].
  rewrite Hb in Hp. discriminate.
Qed.

Lemma knownMarker_prefixed (p : ascii) (texts : list string) :
  knownMarker (String p EmptyString) = true ->
  forallb knownMarker (map (append (String p EmptyString)) texts) = true.
Proof.
  intros Hp. induction texts as [|text rest IH]; [reflexivity|].
  cbn [map forallb]. rewrite IH, andb_true_r. exact Hp.
Qed.

End Shapes.

(** ** Parsing a patch that [createPatch] wrote *)

Section WrittenPatch.

Lemma allOf_app (p : ascii -> bool) (a b : string) :
  allOf p (a ++ b) = allOf p a && allOf p b.
Proof.
  induction a as [|c a IH]; [reflexivity|].
  cbn [append allOf]. rewrite IH, andb_assoc. reflexivity.
Qed.

Lemma allOf_digits (q : ascii -> bool) (s : string) :
  (forall c, isDigit c = true -> q c = true) ->
  allOf isDigit s = true -> allOf q s = true.
Proof.
  intros Hq. induction s as [|c s IH]; [reflexivity|].
  cbn [allOf]. intros H. apply andb_true_iff in H. destruct H as [Hc H].
  rewrite (Hq c Hc), (IH H). reflexivity.
Qed.

Lemma digit_not_at (c : ascii) : isDigit c = true -> negb (Ascii.eqb c "@") = true.
Proof.
  intros H. destruct (Ascii.eqb c "@") eqn:E; [|reflexivity].
  apply Ascii.eqb_eq in E. subst c. discriminate.
Qed.

Lemma digit_not_newline (c : ascii) :
  isDigit c = true -> negb (Ascii.eqb c newline) = true.
Proof.
  intros H. destruct (Ascii.eqb c newline) eqn:E; [|reflexivity].
  apply Ascii.eqb_eq in E. subst c. discriminate.
Qed.

Variable path : string.
Variables before removed replacement after : list string.
Variables oldStart oldLines newStart newLines : Z.

Hypothesis path_line : oneLine path = true.
Hypothesis before_lines : Forall (fun line => oneLine line = true) before.
Hypothesis removed_lines : Forall (fun line => oneLine line = true) removed.
Hypothesis replacement_lines : Forall (fun line => oneLine line = true) replacement.
Hypothesis after_lines : Forall (fun line => oneLine line = true) after.
Hypothesis oldStart_range : 0 <= oldStart <= GoInt.maxInt.
Hypothesis oldLines_range : 0 <= oldLines <= GoInt.maxInt.
Hypothesis newStart_range : 0 <= newStart <= GoInt.maxInt.
Hypothesis newLines_range : 0 <= newLines <= GoInt.maxInt.

Local Abbreviation bodyText :=
  (prefixed " " before ++ prefixed "-" removed
   ++ prefixed "+" replacement ++ prefixed " " after).

Local Abbreviation bodyLines :=
  (map (append " ") before ++ map (append "-") removed
   ++ map (append "+") replacement ++ map (append " ") after
   ++ [EmptyString])%list.

Local Abbreviation headerLine :=
  ("@@ -" ++ itoa oldStart ++ "," ++ itoa oldLines
   ++ " +" ++ itoa newStart ++ "," ++ itoa newLines ++ " @@").

Local Abbreviation middle :=
  (" -" ++ itoa oldStart ++ "," ++ itoa oldLines
   ++ " +" ++ itoa newStart ++ "," ++ itoa newLines ++ " ").

Lemma body_Split : Split bodyText = bodyLines.
Proof.
  rewrite (Split_prefixed " " before) by (try assumption; reflexivity).
  rewrite (Split_prefixed "-" removed) by (try assumption; reflexivity).
  rewrite (Split_prefixed "+" replacement) by (try assumption; reflexivity).
  rewrite <- (append_nil_r (prefixed " " after)).
  rewrite (Split_prefixed " " after) by (try assumption; reflexivity).
  reflexivity.
Qed.

Lemma body_noStarts : noStarts bodyText.
Proof.
  apply (noStarts_prefixed " "); try assumption; try reflexivity.
  apply (noStarts_prefixed "-"); try assumption; try reflexivity.
  apply (noStarts_prefixed "+"); try assumption; try reflexivity.
  rewrite <- (append_nil_r (prefixed " " after)).
  apply (noStarts_prefixed " "); try assumption; try reflexivity.
  apply noStarts_nil.
Qed.

Lemma numeral_facts (z : Z) :
  0 <= z ->
  itoa z <> EmptyString /\ allOf isDigit (itoa z) = true
  /\ oneLine (itoa z) = true
  /\ allOf (fun c => negb (Ascii.eqb c "@")) (itoa z) = true.
Proof.
  intros Hz. pose proof (itoa_digits z Hz) as Hd.
  split; [apply itoa_nonempty; exact Hz|]. split; [exact Hd|]. split.
  - unfold oneLine. apply (allOf_digits _ _ digit_not_newline Hd).
  - apply (allOf_digits _ _ digit_not_at Hd).
Qed.

Lemma middle_facts :
  middle <> EmptyString
  /\ allOf (fun c => negb (Ascii.eqb c "@")) middle = true
  /\ oneLine middle = true.
Proof.
  destruct (numeral_facts oldStart) as (_ & _ & L1 & A1); [lia|].
  destruct (numeral_facts oldLines) as (_ & _ & L2 & A2); [lia|].
  destruct (numeral_facts newStart) as (_ & _ & L3 & A3); [lia|].
  destruct (numeral_facts newLines) as (_ & _ & L4 & A4); [lia|].
  split; [discriminate|]. split.
  - rewrite !allOf_app, A1, A2, A3, A4. reflexivity.
  - unfold oneLine in *. rewrite !allOf_app, L1, L2, L3, L4. reflexivity.
Qed.

Lemma hunkHeader_text (rest : string) :
  hunkHeader oldStart oldLines newStart newLines ++ rest
  = "@@" ++ middle ++ "@@" ++ nl ++ rest.
Proof. unfold hunkHeader. rewrite !append_assoc. reflexivity. Qed.

Lemma hunkHeader_line (rest : string) :
  hunkHeader oldStart oldLines newStart newLines ++ rest
  = headerLine ++ nl ++ rest.
Proof. unfold hunkHeader. rewrite !append_assoc. reflexivity. Qed.

Lemma patchHeader_length :
  String.length (patchHeader path)
  = (String.length ("diff --git a/" ++ path ++ " b/" ++ path) + 1
     + String.length ("--- a/" ++ path) + 1
     + String.length ("+++ b/" ++ path) + 1)%nat.
Proof.
  unfold patchHeader. rewrite !string_length_app. cbn [String.length nl]. lia.
Qed.

(** The only hunk of the patch starts after the three lines of its
    heading. *)
Lemma written_patch_starts :
  findHunkStarts
    (patchHeader path ++ hunkHeader oldStart oldLines newStart newLines ++ bodyText)
    0 true 0
  = [String.length (patchHeader path)].
Proof.
  destruct middle_facts as (Mn & Ma & Ml).
  assert (E : patchHeader path
              ++ hunkHeader oldStart oldLines newStart newLines ++ bodyText
              = ("diff --git a/" ++ path ++ " b/" ++ path) ++ nl
                ++ ("--- a/" ++ path) ++ nl
                ++ ("+++ b/" ++ path) ++ nl
                ++ "@@" ++ middle ++ "@@" ++ nl ++ bodyText).
  { rewrite hunkHeader_text. unfold patchHeader. rewrite !append_assoc. reflexivity. }
  rewrite E.
  rewrite findHunkStarts_line;
    [|reflexivity | unfold oneLine in *; rewrite !allOf_app, path_line; reflexivity].
  rewrite findHunkStarts_line;
    [|reflexivity | unfold oneLine in *; rewrite !allOf_app, path_line; reflexivity].
  rewrite findHunkStarts_line;
    [|reflexivity | unfold oneLine in *; rewrite !allOf_app, path_line; reflexivity].
  rewrite (findHunkStarts_header middle bodyText _ Mn Ma Ml).
  rewrite body_noStarts. f_equal.
  rewrite patchHeader_length. reflexivity.
Qed.

Lemma written_hunk_parses :
  ParseDiffHunk (hunkHeader oldStart oldLines newStart newLines ++ bodyText)
  = Ok (mkDiffHunk oldStart oldLines newStart newLines
          (parseLines bodyLines oldStart newStart 0)).
Proof.
  destruct (numeral_facts oldStart) as (N1 & D1 & L1 & _); [lia|].
  destruct (numeral_facts oldLines) as (N2 & D2 & L2 & _); [lia|].
  destruct (numeral_facts newStart) as (N3 & D3 & L3 & _); [lia|].
  destruct (numeral_facts newLines) as (N4 & D4 & L4 & _); [lia|].
  unfold ParseDiffHunk. rewrite hunkHeader_line.
  rewrite Split_line
    by (unfold oneLine in *; rewrite !allOf_app, L1, L2, L3, L4; reflexivity).
  rewrite (matchHeader_numerals _ _ _ _ N1 D1 N2 D2 N3 D3 N4 D4).
  rewrite body_Split.
  rewrite !Atoi_itoa by assumption.
  destruct (itoa oldLines) eqn:E2; [congruence|].
  destruct (itoa newLines) eqn:E4; [congruence|].
  reflexivity.
Qed.

(** A patch written as [createPatch] writes it parses into one hunk with
    the numbers of its header. *)
Lemma written_patch_parses :
  ParsePatch
    (patchHeader path ++ hunkHeader oldStart oldLines newStart newLines ++ bodyText)
  = Ok [mkDiffHunk oldStart oldLines newStart newLines
          (parseLines bodyLines oldStart newStart 0)].
Proof.
  unfold ParsePatch. rewrite written_patch_starts. cbn [hunkSlices].
  rewrite substring_suffix. cbn [parseHunks].
  rewrite written_hunk_parses. reflexivity.
Qed.

(** The kinds and texts of the lines of that hunk. *)
Lemma written_body_marks :
  marks bodyLines
  = (marked Context before ++ marked Delete removed
     ++ marked Add replacement ++ marked Context after)%list.
Proof.
  unfold marks. rewrite !flat_map_app.
  fold (marks (map (append " ") before)). fold (marks (map (append "-") removed)).
  fold (marks (map (append "+") replacement)). fold (marks (map (append " ") after)).
  rewrite (marks_prefixed " " Context), (marks_prefixed "-" Delete),
    (marks_prefixed "+" Add), (marks_prefixed " " Context) by reflexivity.
  cbn [flat_map markOf]. rewrite !app_nil_r. reflexivity.
Qed.

Lemma written_body_known : forallb knownMarker bodyLines = true.
Proof.
  rewrite !forallb_app.
  rewrite !knownMarker_prefixed by reflexivity. reflexivity.
Qed.

End WrittenPatch.

(** ** The patch of [createPatch], parsed and applied *)

Section CreatedPatch.

Lemma hunkInvariant_intro (h : DiffHunk) :
  0 <= OldStart h -> 0 <= NewStart h ->
  numbered (Lines h) (OldStart h) (NewStart h) = true ->
  oldCount (Lines h) = OldLines h -> newCount (Lines h) = NewLines h ->
  OldStart h + OldLines h <= GoInt.maxInt ->
  NewStart h + NewLines h <= GoInt.maxInt ->
  hunkInvariant h = true.
Proof.
  intros So Sn Hnum Eo En Bo Bn. unfold hunkInvariant.
  rewrite Hnum, Eo, En, !Z.eqb_refl.
  replace (0 <=? OldStart h) with true by (symmetry; apply Z.leb_le; lia).
  replace (0 <=? NewStart h) with true by (symmetry; apply Z.leb_le; lia).
  replace (OldStart h + OldLines h <=? GoInt.maxInt) with true
    by (symmetry; apply Z.leb_le; lia).
  replace (NewStart h + NewLines h <=? GoInt.maxInt) with true
    by (symmetry; apply Z.leb_le; lia).
  reflexivity.
Qed.

Variable fileLines : list string.

Lemma slice_length (lo hi : Z) :
  0 <= lo <= hi -> hi <= GoInt.len fileLines ->
  GoInt.len (slice fileLines lo hi) = hi - lo.
Proof.
  intros H Hhi. unfold slice, GoInt.len in *.
  rewrite length_firstn, length_skipn. lia.
Qed.

Lemma slice_Forall (P : string -> Prop) (lo hi : Z) :
  Forall P fileLines -> Forall P (slice fileLines lo hi).
Proof.
  intros H. unfold slice.
  assert (Hs : Forall P (skipn (Z.to_nat lo) fileLines)).
  { revert H. generalize (Z.to_nat lo) as n.
    induction fileLines as [|x xs IH]; intros n H; [rewrite skipn_nil; constructor|].
    destruct n as [|n]; [exact H|]. inversion H; subst. apply IH. assumption. }
  revert Hs. generalize (skipn (Z.to_nat lo) fileLines) as ys.
  generalize (Z.to_nat (hi - lo)) as n.
  induction n as [|n IH]; intros ys Hs; [constructor|].
  destruct ys as [|y ys]; [constructor|].
  inversion Hs; subst. cbn [firstn]. constructor; [assumption | apply IH; assumption].
Qed.

Lemma slice_app (lo mid hi : Z) :
  0 <= lo <= mid -> mid <= hi ->
  (slice fileLines lo mid ++ slice fileLines mid hi)%list = slice fileLines lo hi.
Proof.
  intros H Hhi. unfold slice.
  replace (Z.to_nat mid) with (Z.to_nat (mid - lo) + Z.to_nat lo)%nat by lia.
  rewrite <- skipn_skipn.
  replace (Z.to_nat (hi - lo)) with (Z.to_nat (mid - lo) + Z.to_nat (hi - mid))%nat
    by lia.
  generalize (skipn (Z.to_nat lo) fileLines) as xs.
  generalize (Z.to_nat (hi - mid)) as m.
  induction (Z.to_nat (mid - lo)) as [|n IH]; intros m xs; [reflexivity|].
  destruct xs as [|x xs]; [rewrite !firstn_nil; reflexivity|].
  cbn [Nat.add firstn skipn app]. rewrite IH. reflexivity.
Qed.

Variable path : string.
Variable targetLine removeCount : Z.
Variable suggestedCode : string.

Hypothesis file_fits : GoInt.fits fileLines.
Hypothesis suggestion_fits : GoInt.fits (suggestionLinesOf suggestedCode).
Hypothesis target_nonneg : 0 <= targetLine.
Hypothesis count_nonneg : 0 <= removeCount.
Hypothesis range_in_file : targetLine + removeCount <= GoInt.len fileLines.
Hypothesis path_line : oneLine path = true.
Hypothesis file_lines : Forall (fun line => oneLine line = true) fileLines.

Local Abbreviation startLine := (Z.max 0 (targetLine - 3)).
Local Abbreviation endLine :=
  (Z.min (GoInt.len fileLines) (targetLine + removeCount + 3)).
Local Abbreviation replacement := (suggestionLinesOf suggestedCode).
Local Abbreviation writtenLines :=
  (parseLines
     (map (append " ") (slice fileLines startLine targetLine)
      ++ map (append "-") (slice fileLines targetLine (targetLine + removeCount))
      ++ map (append "+") replacement
      ++ map (append " ") (slice fileLines (targetLine + removeCount) endLine)
      ++ [EmptyString])%list
     (startLine + 1) (startLine + 1) 0).
Local Abbreviation writtenHunk :=
  (mkDiffHunk (startLine + 1) (endLine - startLine) (startLine + 1)
     (endLine - startLine - removeCount + GoInt.len replacement) writtenLines).

Lemma written_shape :
  shape writtenLines
  = (marked Context (slice fileLines startLine targetLine)
     ++ marked Delete (slice fileLines targetLine (targetLine + removeCount))
     ++ marked Add replacement
     ++ marked Context (slice fileLines (targetLine + removeCount) endLine))%list.
Proof. rewrite parseLines_shape. apply written_body_marks. Qed.

Lemma written_counts :
  oldCount writtenLines = endLine - startLine
  /\ newCount writtenLines
     = endLine - startLine - removeCount + GoInt.len replacement.
Proof.
  rewrite oldCount_shape, newCount_shape, written_shape, !filter_app.
  repeat rewrite (filter_marked oldKind Context _ true) by reflexivity.
  rewrite (filter_marked oldKind Delete _ true) by reflexivity.
  rewrite (filter_marked oldKind Add _ false) by reflexivity.
  repeat rewrite (filter_marked newKind Context _ true) by reflexivity.
  rewrite (filter_marked newKind Delete _ false) by reflexivity.
  rewrite (filter_marked newKind Add _ true) by reflexivity.
  cbn [app]. rewrite !len_app, !marked_length.
  rewrite !slice_length by lia. lia.
Qed.

Lemma written_patch :
  synthesize path fileLines targetLine removeCount suggestedCode
  = Done (patchHeader path
          ++ hunkHeader (startLine + 1) (endLine - startLine) (startLine + 1)
               (endLine - startLine - removeCount + GoInt.len replacement)
          ++ prefixed " " (slice fileLines startLine targetLine)
          ++ prefixed "-" (slice fileLines targetLine (targetLine + removeCount))
          ++ prefixed "+" replacement
          ++ prefixed " " (slice fileLines (targetLine + removeCount) endLine)).
Proof. apply synthesize_in_file; assumption. Qed.

Lemma written_parse (patch : string) :
  synthesize path fileLines targetLine removeCount suggestedCode = Done patch ->
  ParsePatch patch = Ok [writtenHunk].
Proof.
  rewrite written_patch. intros H. inversion H; subst patch; clear H.
  pose proof (len_nonneg replacement) as Hrep.
  unfold GoInt.fits in *.
  apply written_patch_parses; try assumption;
    try (apply slice_Forall; assumption);
    try (unfold suggestionLinesOf; apply Split_oneLine);
    unfold GoInt.maxInt in *; lia.
Qed.

Lemma written_invariant : hunkInvariant writtenHunk = true.
Proof.
  destruct written_counts as [Co Cn].
  pose proof (len_nonneg replacement) as Hrep.
  unfold GoInt.fits in *.
  apply hunkInvariant_intro; cbn [OldStart NewStart OldLines NewLines Lines];
    try assumption; try (unfold GoInt.maxInt in *; lia).
  apply parseLines_numbered;
    [apply written_body_known | | | |];
    rewrite ?Co, ?Cn; unfold GoInt.minInt, GoInt.maxInt in *; lia.
Qed.

Lemma written_newSide :
  newSide writtenHunk
  = (slice fileLines startLine targetLine ++ replacement
     ++ slice fileLines (targetLine + removeCount) endLine)%list.
Proof.
  rewrite newSide_shape. cbn [Lines]. rewrite written_shape, !filter_app.
  repeat rewrite (filter_marked newKind Context _ true) by reflexivity.
  rewrite (filter_marked newKind Delete _ false) by reflexivity.
  rewrite (filter_marked newKind Add _ true) by reflexivity.
  cbn [app]. rewrite !map_app, !marked_snd. reflexivity.
Qed.

(** The file with the old lines of the written hunk replaced by its new
    side is the file with the target lines replaced by the
    replacement. *)
Lemma written_patched :
  patched fileLines [writtenHunk] 0
  = (slice fileLines 0 targetLine ++ replacement
     ++ slice fileLines (targetLine + removeCount) (GoInt.len fileLines))%list.
Proof.
  cbn [patched OldStart OldLines]. rewrite written_newSide.
  replace (startLine + 1 - 1) with startLine by lia.
  replace (startLine + (endLine - startLine)) with endLine by lia.
  rewrite <- (slice_app 0 startLine targetLine) by lia.
  rewrite <- (slice_app (targetLine + removeCount) endLine (GoInt.len fileLines))
    by lia.
  rewrite <- !app_assoc. reflexivity.
Qed.

End CreatedPatch.

(** Applying a patch of one hunk that satisfies the Hunk invariant. *)
Lemma apply_single_hunk (content patch : string) (hunk : DiffHunk) :
  GoInt.fits (Split content) ->
  ParsePatch patch = Ok [hunk] ->
  hunkInvariant hunk = true ->
  1 <= OldStart hunk ->
  GetModifiedContentFromDiffHunk content patch
  = Done (Ok (Join (patched (Split content) [hunk] 0))).
Proof.
  intros Hfit Hp Hinv Hstart.
  unfold GetModifiedContentFromDiffHunk. rewrite Hp.
  destruct (applyHunks_patched (Split content) [hunk] 1)
    as (body & cur' & Hr & Hc' & Hb);
    [lia | cbn [forallb]; rewrite Hinv; reflexivity | reflexivity
     | intros h [<-|[]]; exact Hstart |].
  rewrite Hr. cbn [bind fst snd].
  rewrite copyRemaining_slice by assumption. cbn [bind].
  rewrite Hb. reflexivity.
Qed.

(** X14: for a target range that lies in the file and a path without a
    newline, the patch [synthesize] writes is one that [ParsePatch] reads
    back as a single hunk satisfying the Hunk invariant: the counts
    [createPatch] computes for the header are the numbers of old-side and
    new-side lines of the body it writes. The hunk holds the context
    before as Context lines, the target lines as Delete lines, the
    replacement as Add lines and the context after as Context lines. *)
Theorem created_patch_is_well_formed (path : string) (fileLines : list string)
    (targetLine removeCount : Z) (suggestedCode : string) :
  GoInt.fits fileLines ->
  GoInt.fits (suggestionLinesOf suggestedCode) ->
  0 <= targetLine -> 0 <= removeCount ->
  targetLine + removeCount <= GoInt.len fileLines ->
  oneLine path = true ->
  Forall (fun line => oneLine line = true) fileLines ->
  let startLine := Z.max 0 (targetLine - 3) in
  let endLine := Z.min (GoInt.len fileLines) (targetLine + removeCount + 3) in
  exists patch hunk,
    synthesize path fileLines targetLine removeCount suggestedCode = Done patch
    /\ ParsePatch patch = Ok [hunk]
    /\ hunkInvariant hunk = true
    /\ shape (Lines hunk)
       = (marked Context (slice fileLines startLine targetLine)
          ++ marked Delete (slice fileLines targetLine (targetLine + removeCount))
          ++ marked Add (suggestionLinesOf suggestedCode)
          ++ marked Context (slice fileLines (targetLine + removeCount) endLine))%list.
Proof.
  intros Hfile Hsug Ht Hc Hrange Hpath Hlines startLine endLine.
  eexists. eexists. split; [|split; [|split]].
  - apply written_patch; assumption.
  - apply (written_parse fileLines path targetLine removeCount suggestedCode);
      try assumption. apply written_patch; assumption.
  - apply written_invariant; assumption.
  - apply written_shape.
Qed.

Lemma created_patch_is_well_formed_witness :
  GoInt.fits fileAtReview
  /\ GoInt.fits (suggestionLinesOf "NEW1")
  /\ oneLine "main.go" = true
  /\ Forall (fun line => oneLine line = true) fileAtReview
  /\ exists patch hunk,
       synthesize "main.go" fileAtReview 2 2 "NEW1" = Done patch
       /\ ParsePatch patch = Ok [hunk]
       /\ hunkInvariant hunk = true
       /\ shape (Lines hunk)
          = [(Context, "a"); (Context, "b"); (Delete, "TARGET1");
             (Delete, "TARGET2"); (Add, "NEW1"); (Context, "c")].
Proof.
  assert (F : GoInt.fits fileAtReview) by (vm_compute; discriminate).
  assert (G : GoInt.fits (suggestionLinesOf "NEW1")) by (vm_compute; discriminate).
  assert (L : Forall (fun line => oneLine line = true) fileAtReview)
    by (repeat constructor).
  split; [exact F|]. split; [exact G|]. split; [reflexivity|]. split; [exact L|].
  exact (created_patch_is_well_formed "main.go" fileAtReview 2 2 "NEW1" F G
           ltac:(lia) ltac:(lia) ltac:(vm_compute; discriminate) eq_refl L).
Defined.

(** X15: applying the patch [synthesize] writes for a target range of
    the file, with [GetModifiedContentFromDiffHunk], to the content of
    the file gives the file with exactly the target lines replaced by the
    lines of the suggestion; every other line is kept, in order. *)
Theorem created_patch_applies (path content : string)
    (targetLine removeCount : Z) (suggestedCode patch : string) :
  GoInt.fits (Split content) ->
  GoInt.fits (suggestionLinesOf suggestedCode) ->
  0 <= targetLine -> 0 <= removeCount ->
  targetLine + removeCount <= GoInt.len (Split content) ->
  oneLine path = true ->
  synthesize path (Split content) targetLine removeCount suggestedCode = Done patch ->
  GetModifiedContentFromDiffHunk content patch
  = Done (Ok (Join (slice (Split content) 0 targetLine
                    ++ suggestionLinesOf suggestedCode
                    ++ slice (Split content) (targetLine + removeCount)
                         (GoInt.len (Split content)))%list)).
Proof.
  intros Hfile Hsug Ht Hc Hrange Hpath Hs.
  pose proof (Split_oneLine content) as Hlines.
  pose proof (written_parse (Split content) path targetLine removeCount
                suggestedCode Hfile Hsug Ht Hc Hrange Hpath Hlines patch Hs) as Hp.
  rewrite (apply_single_hunk content patch _ Hfile Hp).
  - rewrite written_patched by assumption. reflexivity.
  - apply written_invariant; assumption.
  - cbn [OldStart]. lia.
Qed.

Lemma created_patch_applies_witness :
  GoInt.fits (Split (unlines fileAtReview))
  /\ GoInt.fits (suggestionLinesOf "NEW1")
  /\ oneLine "main.go" = true
  /\ synthesize "main.go" (Split (unlines fileAtReview)) 2 2 "NEW1"
     = Done reviewedPatch
  /\ GetModifiedContentFromDiffHunk (unlines fileAtReview) reviewedPatch
     = Done (Ok (unlines ["a"; "b"; "NEW1"; "c"])).
Proof.
  assert (F : GoInt.fits (Split (unlines fileAtReview))) by (vm_compute; discriminate).
  assert (G : GoInt.fits (suggestionLinesOf "NEW1")) by (vm_compute; discriminate).
  assert (S : synthesize "main.go" (Split (unlines fileAtReview)) 2 2 "NEW1"
              = Done reviewedPatch) by (vm_compute; reflexivity).
  split; [exact F|]. split; [exact G|]. split; [reflexivity|]. split; [exact S|].
  rewrite (created_patch_applies "main.go" (unlines fileAtReview) 2 2 "NEW1"
             reviewedPatch F G);
    try lia; try reflexivity; try exact S.
  vm_compute. discriminate.
Defined.

Section EndToEnd.

Variable readFile : string -> option string.
Variable writeFile : string -> string -> bool.
Variable comment : ReviewComment.
Variable content : string.

Local Abbreviation added := (GetAddedLines (DiffHunk_ comment)).

Hypothesis file_read : readFile (Path comment) = Some content.
Hypothesis file_fits : GoInt.fits (Split content).
Hypothesis added_fits : GoInt.fits added.

(** What is known of the target when [createPatch] returns a patch. *)
Lemma createPatch_target (patch : string) :
  createPatch readFile writeFile comment = Done patch ->
  exists targetLine,
    0 <= targetLine
    /\ added <> []
    /\ targetLine + GoInt.len added <= GoInt.len (Split content)
    /\ occursAt (Split content) added (Z.to_nat targetLine)
    /\ synthesize (Path comment) (Split content) targetLine (GoInt.len added)
         (SuggestedCode comment) = Done patch
    /\ candidate (DiffHunk_ comment) (Split content) added = Done targetLine.
Proof.
  intros H. unfold createPatch in H. rewrite file_read in H.
  destruct (locate writeFile comment (Split content)) as [t| |] eqn:Hl;
    cbn [bind] in H; try discriminate.
  destruct (locate_Done writeFile comment (Split content) t Hl) as (Hne & Hc & Hv).
  pose proof (candidate_inRange comment (Split content) t Hc) as Ht.
  pose proof (len_nonneg added) as Hn.
  assert (Hcount : 1 <= GoInt.len added <= GoInt.maxInt).
  { unfold GoInt.fits, GoInt.len in *.
    destruct added; [congruence|]. simpl List.length in *. lia. }
  pose proof (synthesize_Done_guard (Split content) (Path comment) t _
                (SuggestedCode comment) patch Ht Hcount H) as Hg.
  destruct (verify_Done writeFile comment (Split content) t Hv) as [Hno|Hd];
    [rewrite Hg in Hno; discriminate|].
  apply andb_true_iff in Hg. destruct Hg as [Hg0 _].
  rewrite Z.geb_leb in Hg0. apply Z.leb_le in Hg0.
  assert (Hrange : 0 <= t <= GoInt.maxInt) by (unfold GoInt.inRange in Ht; lia).
  destruct (firstDifference_None_occursAt (Split content) file_fits _ t
              added_fits Hne Hrange Hd) as [Hlen Hocc].
  exists t. repeat split; assumption.
Qed.

End EndToEnd.

(** X16: when [createPatch] returns a patch for a file it read, applying
    that patch to the content of the file with
    [GetModifiedContentFromDiffHunk] replaces a range of lines that holds
    the added lines of the comment's hunk, line by line, with the lines
    of the suggested code, and keeps every other line of the file. *)
Theorem createPatch_replaces_reviewed_lines (readFile : string -> option string)
    (writeFile : string -> string -> bool)
    (comment : ReviewComment) (content patch : string) :
  readFile (Path comment) = Some content ->
  GoInt.fits (Split content) ->
  GoInt.fits (GetAddedLines (DiffHunk_ comment)) ->
  GoInt.fits (suggestionLinesOf (SuggestedCode comment)) ->
  oneLine (Path comment) = true ->
  createPatch readFile writeFile comment = Done patch ->
  exists targetLine,
    0 <= targetLine
    /\ occursAt (Split content) (GetAddedLines (DiffHunk_ comment))
                (Z.to_nat targetLine)
    /\ GetModifiedContentFromDiffHunk content patch
       = Done (Ok (Join (slice (Split content) 0 targetLine
                         ++ suggestionLinesOf (SuggestedCode comment)
                         ++ slice (Split content)
                              (targetLine
                               + GoInt.len (GetAddedLines (DiffHunk_ comment)))
                              (GoInt.len (Split content)))%list)).
Proof.
  intros Hread Hfile Hadded Hsug Hpath H.
  destruct (createPatch_target readFile writeFile comment content Hread Hfile Hadded patch H)
    as (t & Ht & Hne & Hlen & Hocc & Hs & _).
  exists t. split; [exact Ht|]. split; [exact Hocc|].
  pose proof (Split_oneLine content) as Hlines.
  pose proof (len_nonneg (GetAddedLines (DiffHunk_ comment))) as Hn.
  pose proof (written_parse (Split content) (Path comment) t _
                (SuggestedCode comment) Hfile Hsug Ht Hn Hlen Hpath Hlines patch Hs)
    as Hp.
  rewrite (apply_single_hunk content patch _ Hfile Hp).
  - rewrite written_patched by assumption. reflexivity.
  - apply written_invariant; assumption.
  - cbn [OldStart]. lia.
Qed.

Lemma createPatch_replaces_reviewed_lines_witness :
  GoInt.fits (Split (unlines fileAtReview))
  /\ GoInt.fits (GetAddedLines reviewedHunk)
  /\ GoInt.fits (suggestionLinesOf "NEW1")
  /\ createPatch (fun _ => Some (unlines fileAtReview)) (fun _ _ => true) (commentOn reviewedHunk "NEW1")
     = Done reviewedPatch
  /\ exists targetLine,
       0 <= targetLine
       /\ occursAt (Split (unlines fileAtReview)) (GetAddedLines reviewedHunk)
                   (Z.to_nat targetLine)
       /\ GetModifiedContentFromDiffHunk (unlines fileAtReview) reviewedPatch
          = Done (Ok (Join (slice (Split (unlines fileAtReview)) 0 targetLine
                            ++ suggestionLinesOf "NEW1"
                            ++ slice (Split (unlines fileAtReview))
                                 (targetLine + GoInt.len (GetAddedLines reviewedHunk))
                                 (GoInt.len (Split (unlines fileAtReview))))%list)).
Proof.
  assert (F : GoInt.fits (Split (unlines fileAtReview))) by (vm_compute; discriminate).
  assert (G : GoInt.fits (GetAddedLines reviewedHunk)) by (vm_compute; discriminate).
  assert (S : GoInt.fits (suggestionLinesOf "NEW1")) by (vm_compute; discriminate).
  assert (C : createPatch (fun _ => Some (unlines fileAtReview)) (fun _ _ => true)
                (commentOn reviewedHunk "NEW1") = Done reviewedPatch)
    by (vm_compute; reflexivity).
  split; [exact F|]. split; [exact G|]. split; [exact S|]. split; [exact C|].
  exact (createPatch_replaces_reviewed_lines (fun _ => Some (unlines fileAtReview)) (fun _ _ => true)
           (commentOn reviewedHunk "NEW1")
           (unlines fileAtReview) reviewedPatch eq_refl F G S eq_refl C).
Defined.

(** ** The line at a position, Control lines included *)

Section PositionOfLine.

Lemma counted_cons (line : DiffLine) (lines : list DiffLine) :
  counted (line :: lines) = (if isControl line then 0 else 1) + counted lines.
Proof.
  unfold counted. cbn [filter]. destruct (isControl line); cbn [negb].
  - lia.
  - rewrite len_cons. lia.
Qed.

Lemma counted_nonneg (lines : list DiffLine) : 0 <= counted lines.
Proof. apply len_nonneg. Qed.

Lemma lineByPosition_app (xs ys : list DiffLine) (n : Z) :
  forall pos,
    lineByPosition (xs ++ ys) pos n
    = match lineByPosition xs pos n with
      | inl line => inl line
      | inr pos' => lineByPosition ys pos' n
      end.
Proof.
  induction xs as [|x xs IH]; intros pos; [reflexivity|].
  cbn [app lineByPosition]. destruct (pos =? n); [reflexivity|].
  destruct (DiffChangeType_eqb (Type_ x) Control); apply IH.
Qed.

(** The two nested loops are one loop over all the lines. *)
Lemma hunksByPosition_flat (hunks : list DiffHunk) (n : Z) :
  forall pos,
    hunksByPosition hunks pos n
    = match lineByPosition (List.concat (map Lines hunks)) pos n with
      | inl line => Some line
      | inr _ => None
      end.
Proof.
  induction hunks as [|hunk rest IH]; intros pos; [reflexivity|].
  cbn [hunksByPosition map List.concat]. rewrite lineByPosition_app.
  destruct (lineByPosition (Lines hunk) pos n); [reflexivity | apply IH].
Qed.

(** The loop returns the first line that has [n - pos] counted lines
    before it. *)
Lemma lineByPosition_first (n : Z) (lines : list DiffLine) :
  forall pos line,
    GoInt.minInt <= pos -> pos + GoInt.len lines <= GoInt.maxInt ->
    (lineByPosition lines pos n = inl line
     <-> exists before after,
           lines = (before ++ line :: after)%list
           /\ pos + counted before = n
           /\ (forall b x, before = (b ++ [x])%list -> isControl x = false)).
Proof.
  induction lines as [|l rest IH]; intros pos line Hlo Hhi.
  - split; [discriminate|]. intros (before & after & E & _).
    destruct before; discriminate.
  - rewrite len_cons in Hhi. pose proof (len_nonneg rest) as Hn.
    cbn [lineByPosition]. destruct (pos =? n) eqn:Hpos.
    + apply Z.eqb_eq in Hpos. split.
      * intros H. inversion H; subst line. exists [], rest.
        split; [reflexivity|]. split; [unfold counted, GoInt.len; simpl; lia|].
        intros b x E. destruct b; discriminate.
      * intros (before & after & E & Hc & Hlast).
        destruct before as [|b0 before]; [inversion E; reflexivity|].
        exfalso. pose proof (counted_nonneg (b0 :: before)) as Hcn.
        assert (Hzero : counted (b0 :: before) = 0) by lia.
        destruct (exists_last (l := b0 :: before)) as (b & x & Eb); [discriminate|].
        pose proof (Hlast b x Eb) as Hx. rewrite Eb in Hzero.
        unfold counted in Hzero. rewrite filter_app, len_app in Hzero.
        cbn [filter] in Hzero. rewrite Hx in Hzero. cbn [negb] in Hzero.
        rewrite len_cons in Hzero.
        pose proof (len_nonneg (filter (fun line0 => negb (isControl line0)) b)).
        pose proof (len_nonneg (@nil DiffLine)). lia.
    + apply Z.eqb_neq in Hpos.
      change (DiffChangeType_eqb (Type_ l) Control) with (isControl l).
      destruct (isControl l) eqn:Hl.
      * rewrite (IH pos line) by lia. split.
        -- intros (before & after & E & Hc & Hlast).
           exists (l :: before), after. split; [rewrite E; reflexivity|].
           split; [rewrite counted_cons, Hl; lia|].
           intros b x Eb. destruct b as [|b0 b].
           ++ exfalso. injection Eb as _ Eb. rewrite Eb in Hc.
              unfold counted, GoInt.len in Hc. simpl in Hc. lia.
           ++ injection Eb as _ Eb. apply (Hlast b x). exact Eb.
        -- intros (before & after & E & Hc & Hlast).
           destruct before as [|b0 before].
           ++ exfalso. unfold counted, GoInt.len in Hc. simpl in Hc. lia.
           ++ injection E as E0 E. subst b0. exists before, after.
              split; [exact E|].
              split; [rewrite counted_cons, Hl in Hc; lia|].
              intros b x Eb. apply (Hlast (l :: b) x). rewrite Eb. reflexivity.
      * rewrite add_small by lia. rewrite (IH (pos + 1) line) by lia. split.
        -- intros (before & after & E & Hc & Hlast).
           exists (l :: before), after. split; [rewrite E; reflexivity|].
           split; [rewrite counted_cons, Hl; lia|].
           intros b x Eb. destruct b as [|b0 b].
           ++ injection Eb as Ex _. rewrite <- Ex. exact Hl.
           ++ injection Eb as _ Eb. apply (Hlast b x). exact Eb.
        -- intros (before & after & E & Hc & Hlast).
           destruct before as [|b0 before].
           ++ exfalso. unfold counted, GoInt.len in Hc. simpl in Hc. lia.
           ++ injection E as E0 E. subst b0. exists before, after.
              split; [exact E|].
              split; [rewrite counted_cons, Hl in Hc; lia|].
              intros b x Eb. apply (Hlast (l :: b) x). rewrite Eb. reflexivity.
Qed.

End PositionOfLine.

(** X17: [GetDiffLineByPosition] returns, among all the lines of the
    hunks in order, the first line that has exactly [n - 1] lines other
    than Control lines before it, and nothing when there is no such line.
    This is the line at position [n] of the diff, except that a Control
    line that stands directly before that line, or after the last line, is
    returned in its place. *)
Theorem line_by_position (hunks : list DiffHunk) (n : Z) :
  GoInt.len (List.concat (map Lines hunks)) < GoInt.maxInt ->
  (forall line,
      GetDiffLineByPosition hunks n = Some line
      <-> atPosition (List.concat (map Lines hunks)) n line)
  /\ (GetDiffLineByPosition hunks n = None
      <-> forall line, ~ atPosition (List.concat (map Lines hunks)) n line).
Proof.
  intros Hlen.
  assert (Hsome : forall line,
             GetDiffLineByPosition hunks n = Some line
             <-> atPosition (List.concat (map Lines hunks)) n line).
  { intros line. unfold GetDiffLineByPosition, atPosition.
    rewrite hunksByPosition_flat.
    pose proof (lineByPosition_first n (List.concat (map Lines hunks)) 1 line) as H.
    destruct (lineByPosition (List.concat (map Lines hunks)) 1 n) as [l|pos'].
    - split.
      + intros E. inversion E; subst l.
        destruct (proj1 (H ltac:(unfold GoInt.minInt; lia) ltac:(lia)) eq_refl)
          as (before & after & E1 & Hc & Hlast).
        exists before, after. repeat split; try assumption. lia.
      + intros (before & after & E1 & Hc & Hlast). f_equal.
        assert (E : inl l = inl line :> DiffLine + Z).
        { apply (H ltac:(unfold GoInt.minInt; lia) ltac:(lia)).
          exists before, after. repeat split; try assumption. lia. }
        inversion E. reflexivity.
    - split; [discriminate|].
      intros (before & after & E1 & Hc & Hlast). exfalso.
      assert (E : inr pos' = inl line :> DiffLine + Z).
      { apply (H ltac:(unfold GoInt.minInt; lia) ltac:(lia)).
        exists before, after. repeat split; try assumption. lia. }
      discriminate. }
  split; [exact Hsome|]. split.
  - intros Hnone line Hat. apply Hsome in Hat. rewrite Hnone in Hat. discriminate.
  - intros Hno. destruct (GetDiffLineByPosition hunks n) as [line|] eqn:E;
      [|reflexivity].
    exfalso. apply (Hno line). apply Hsome. reflexivity.
Qed.

Lemma line_by_position_witness :
  GoInt.len (List.concat (map Lines [noNewlineParsed])) < GoInt.maxInt
  /\ atPosition (List.concat (map Lines [noNewlineParsed])) 3
       (mkDiffLine Control (-1) (-1) "\ No newline at end of file" 2).
Proof.
  assert (B : GoInt.len (List.concat (map Lines [noNewlineParsed])) < GoInt.maxInt)
    by (vm_compute; reflexivity).
  split; [exact B|].
  apply (proj1 (line_by_position [noNewlineParsed] 3 B)). reflexivity.
Defined.

(** ** When [createPatch] panics *)

Section Panics.

Variable readFile : string -> option string.
Variable writeFile : string -> string -> bool.
Variable comment : ReviewComment.
Variable content : string.

Local Abbreviation hunk := (DiffHunk_ comment).
Local Abbreviation added := (GetAddedLines (DiffHunk_ comment)).
Local Abbreviation fileLines := (Split content).

Hypothesis file_read : readFile (Path comment) = Some content.
Hypothesis file_fits : GoInt.fits fileLines.
Hypothesis added_fits : GoInt.fits added.
Hypothesis suggestion_fits : GoInt.fits (suggestionLinesOf (SuggestedCode comment)).






Hypothesis candidate_or_none : -1 <= positionMapping hunk.









End Panics.




(** ** Reading a header back *)

Section HeaderRoundTrip.

Lemma optCount_none (s : string) :
  stopsAt (Ascii.eqb ",") s -> optCount s = (EmptyString, s).
Proof.
  intros H. unfold optCount. destruct s as [|c s]; [reflexivity|].
  cbn [expect]. cbn [stopsAt] in H. rewrite H. reflexivity.
Qed.

(** The header expression matches a header without counts; the two
    optional groups are then empty. *)
Lemma matchHeader_starts_only (a c : string) :
  a <> EmptyString -> allOf isDigit a = true ->
  c <> EmptyString -> allOf isDigit c = true ->
  matchHeader ("@@ -" ++ a ++ " +" ++ c ++ " @@")
  = Some (a, EmptyString, c, EmptyString).
Proof.
  intros Na Da Nc Dc. unfold matchHeader.
  change (expect "@@" ("@@ -" ++ a ++ " +" ++ c ++ " @@"))
    with (Some (" " ++ "-" ++ a ++ " +" ++ c ++ " @@")).
  cbv iota.
  rewrite (span1_app isSpace " " _) by (try discriminate; reflexivity).
  change (expect "-" ("-" ++ a ++ " +" ++ c ++ " @@"))
    with (Some (a ++ " +" ++ c ++ " @@")).
  cbv iota.
  rewrite (span1_app isDigit a _ Na Da) by reflexivity.
  rewrite optCount_none by reflexivity.
  change (" +" ++ c ++ " @@") with (" " ++ "+" ++ c ++ " @@").
  rewrite (span1_app isSpace " " _) by (try discriminate; reflexivity).
  change (expect "+" ("+" ++ c ++ " @@")) with (Some (c ++ " @@")).
  cbv iota.
  rewrite (span1_app isDigit c _ Nc Dc) by reflexivity.
  rewrite optCount_none by reflexivity.
  change (" @@") with (" " ++ "@@").
  rewrite (span1_app isSpace " " _) by (try discriminate; reflexivity).
  reflexivity.
Qed.

Lemma numeral_line (z : Z) : 0 <= z -> oneLine (itoa z) = true.
Proof.
  intros Hz. unfold oneLine.
  apply (allOf_digits _ _ digit_not_newline (itoa_digits z Hz)).
Qed.

End HeaderRoundTrip.

(** X21: [ParseDiffHunk] reads back the four numbers of a header written
    as [createPatch] writes it, whatever the body; and for a header
    written without counts it takes both counts to be 1. *)
Theorem header_round_trip (oldStart oldLines newStart newLines : Z) (body : string) :
  0 <= oldStart <= GoInt.maxInt -> 0 <= oldLines <= GoInt.maxInt ->
  0 <= newStart <= GoInt.maxInt -> 0 <= newLines <= GoInt.maxInt ->
  ParseDiffHunk (hunkHeader oldStart oldLines newStart newLines ++ body)
  = Ok (mkDiffHunk oldStart oldLines newStart newLines
          (parseLines (Split body) oldStart newStart 0))
  /\ ParseDiffHunk ("@@ -" ++ itoa oldStart ++ " +" ++ itoa newStart ++ " @@"
                    ++ nl ++ body)
     = Ok (mkDiffHunk oldStart 1 newStart 1
             (parseLines (Split body) oldStart newStart 0)).
Proof.
  intros H1 H2 H3 H4.
  pose proof (itoa_nonempty oldStart (proj1 H1)) as N1.
  pose proof (itoa_nonempty oldLines (proj1 H2)) as N2.
  pose proof (itoa_nonempty newStart (proj1 H3)) as N3.
  pose proof (itoa_nonempty newLines (proj1 H4)) as N4.
  pose proof (itoa_digits oldStart (proj1 H1)) as D1.
  pose proof (itoa_digits oldLines (proj1 H2)) as D2.
  pose proof (itoa_digits newStart (proj1 H3)) as D3.
  pose proof (itoa_digits newLines (proj1 H4)) as D4.
  pose proof (numeral_line oldStart (proj1 H1)) as L1.
  pose proof (numeral_line oldLines (proj1 H2)) as L2.
  pose proof (numeral_line newStart (proj1 H3)) as L3.
  pose proof (numeral_line newLines (proj1 H4)) as L4.
  split.
  - unfold ParseDiffHunk. rewrite hunkHeader_line.
    rewrite Split_line
      by (unfold oneLine in *; rewrite !allOf_app, L1, L2, L3, L4; reflexivity).
    rewrite (matchHeader_numerals _ _ _ _ N1 D1 N2 D2 N3 D3 N4 D4).
    rewrite !Atoi_itoa by assumption.
    destruct (itoa oldLines) eqn:E2; [congruence|].
    destruct (itoa newLines) eqn:E4; [congruence|].
    reflexivity.
  - unfold ParseDiffHunk.
    assert (E : "@@ -" ++ itoa oldStart ++ " +" ++ itoa newStart ++ " @@" ++ nl ++ body
                = ("@@ -" ++ itoa oldStart ++ " +" ++ itoa newStart ++ " @@")
                  ++ nl ++ body).
    { rewrite !append_assoc. reflexivity. }
    rewrite E.
    rewrite Split_line
      by (unfold oneLine in *; rewrite !allOf_app, L1, L3; reflexivity).
    rewrite (matchHeader_starts_only _ _ N1 D1 N3 D3).
    rewrite !Atoi_itoa by assumption. reflexivity.
Qed.

Lemma header_round_trip_witness :
  ParseDiffHunk (hunkHeader 10 5 10 4 ++ unlines [" context 1"; "-deleted 1"])
  = Ok (mkDiffHunk 10 5 10 4
          (parseLines (Split (unlines [" context 1"; "-deleted 1"])) 10 10 0))
  /\ ParseDiffHunk ("@@ -" ++ itoa 10 ++ " +" ++ itoa 10 ++ " @@" ++ nl
                    ++ unlines [" context 1"; "-deleted 1"])
     = Ok (mkDiffHunk 10 1 10 1
             (parseLines (Split (unlines [" context 1"; "-deleted 1"])) 10 10 0)).
Proof.
  apply (header_round_trip 10 5 10 4 (unlines [" context 1"; "-deleted 1"]));
    vm_compute; split; discriminate.
Defined.

(** X22: every range [GetCommentingRanges] returns for a patch that
    parses is a non-empty interval of positive line numbers: its start is
    at least 1 and at most its end. *)
Theorem commenting_ranges_are_intervals (patch : string) (isBase : bool)
    (ranges : list (Z * Z)) (r : Z * Z) :
  GetCommentingRanges patch isBase = Ok ranges ->
  In r ranges ->
  1 <= fst r <= snd r.
Proof.
  unfold GetCommentingRanges.
  destruct (ParsePatch patch) as [hunks|e] eqn:Hp; [|discriminate].
  intros H Hr. inversion H; subst ranges; clear H.
  rewrite rangesOfHunks_coalesced in Hr. unfold coalesced in Hr.
  apply in_flat_map in Hr. destruct Hr as (hunk & Hh & Hr).
  apply in_map_iff in Hr. destruct Hr as (run & <- & Hrun).
  destruct (parsed_runs isBase patch hunks hunk run Hp Hh Hrun) as [Hpos Hkeys].
  split; [exact Hpos|].
  pose proof (runs_heads (anchored isBase) (Lines hunk)) as Hheads.
  rewrite Forall_forall in Hheads.
  destruct (Hheads run Hrun) as (first & rest & E & _).
  assert (Hin : In (key isBase first) (map (key isBase) run)).
  { rewrite E. left. reflexivity. }
  rewrite Hkeys in Hin. apply zrange_In in Hin. lia.
Qed.

Lemma commenting_ranges_are_intervals_witness :
  GetCommentingRanges twoHunkPatch false = Ok [(10, 10); (11, 11); (19, 21)]
  /\ In (19, 21) [(10, 10); (11, 11); (19, 21)]
  /\ 1 <= fst (19, 21) <= snd (19, 21).
Proof.
  split; [reflexivity|]. split; [right; right; left; reflexivity|].
  apply (commenting_ranges_are_intervals twoHunkPatch false
           [(10, 10); (11, 11); (19, 21)] (19, 21) eq_refl).
  right; right; left; reflexivity.
Defined.

(** ** Extracting the suggested code *)

Section SuggestionFacts.
Import Parser.

Lemma expect_app (lit s : string) : expect lit (lit ++ s) = Some s.
Proof.
  induction lit as [|c lit IH]; [reflexivity|].
  cbn [append expect]. rewrite Ascii.eqb_refl. exact IH.
Qed.

Lemma TrimRight_newline (code : string) : TrimRight (code ++ nl) = TrimRight code.
Proof.
  induction code as [|c code IH].
  - cbn [append nl TrimRight]. rewrite Ascii.eqb_refl. reflexivity.
  - change (String c code ++ nl) with (String c (code ++ nl)).
    cbn [TrimRight]. rewrite IH. reflexivity.
Qed.

(** A text without fence, closed by a newline and a fence. *)
Lemma untilFence_closed (code rest : string) :
  hasFence code = false ->
  untilFence (code ++ nl ++ fence ++ rest) = Some (code ++ nl, rest).
Proof.
  unfold hasFence. induction code as [|c code IH]; intros H.
  - cbn [append nl]. cbn [untilFence expect fence].
    change (Ascii.eqb "`" newline) with false. cbv iota.
    change (expect "```" (String "`" (String "`" (String "`" rest))))
      with (Some rest).
    reflexivity.
  - cbn [untilFence] in H.
    destruct (expect fence (String c code)) as [r|] eqn:He; [discriminate|].
    destruct (untilFence code) as [[a b]|] eqn:Hu; [discriminate|].
    change (String c code ++ nl ++ fence ++ rest)
      with (String c (code ++ nl ++ fence ++ rest)).
    cbn [untilFence]. rewrite (IH eq_refl).
    assert (Hnone : expect fence (String c (code ++ nl ++ fence ++ rest)) = None).
    { revert He. unfold fence. cbn [expect].
      destruct (Ascii.eqb "`" c); [|reflexivity].
      destruct code as [|c1 code]; [reflexivity|].
      cbn [append expect]. destruct (Ascii.eqb "`" c1); [|reflexivity].
      destruct code as [|c2 code]; [reflexivity|].
      cbn [append expect]. destruct (Ascii.eqb "`" c2); [discriminate|reflexivity]. }
    rewrite Hnone. reflexivity.
Qed.

Lemma afterLastNewline_oneLine (b : string) :
  oneLine b = true -> afterLastNewline b = None.
Proof.
  unfold oneLine. induction b as [|c b IH]; intros H; [reflexivity|].
  cbn [allOf] in H. apply andb_true_iff in H. destruct H as [Hc H].
  apply negb_true_iff in Hc. cbn [afterLastNewline]. rewrite (IH H), Hc.
  reflexivity.
Qed.

Lemma afterLastNewline_app (a b : string) :
  oneLine b = true -> afterLastNewline (a ++ nl ++ b) = Some b.
Proof.
  intros Hb. induction a as [|c a IH].
  - cbn [append nl afterLastNewline].
    rewrite (afterLastNewline_oneLine b Hb), Ascii.eqb_refl. reflexivity.
  - change (String c a ++ nl ++ b) with (String c (a ++ nl ++ b)).
    cbn [afterLastNewline]. rewrite IH. reflexivity.
Qed.

(** Nothing matches in a text without backquote. *)
Lemma FindStringSubmatch_skip (before s : string) :
  noBackquote before = true ->
  FindStringSubmatch (before ++ s) = FindStringSubmatch s.
Proof.
  unfold noBackquote. induction before as [|c before IH]; intros H; [reflexivity|].
  cbn [allOf] in H. apply andb_true_iff in H. destruct H as [Hc H].
  apply negb_true_iff in Hc. rewrite Ascii.eqb_sym in Hc.
  change (String c before ++ s) with (String c (before ++ s)).
  cbn [FindStringSubmatch]. unfold matchSuggestion, opening. cbn [expect].
  rewrite Hc. exact (IH H).
Qed.

Lemma matchSuggestion_block (ws tail s2 : string) :
  allOf isSpace ws = true -> allOf isSpace tail = true -> oneLine tail = true ->
  stopsAt isSpace s2 ->
  matchSuggestion (opening ++ ws ++ nl ++ tail ++ s2) = untilFence (tail ++ s2).
Proof.
  intros Hws Htail Hline Hstop. unfold matchSuggestion.
  rewrite expect_app.
  assert (E : ws ++ nl ++ tail ++ s2 = (ws ++ nl ++ tail) ++ s2).
  { rewrite !append_assoc. reflexivity. }
  rewrite E, span_app; [|rewrite !allOf_app, Hws, Htail; reflexivity | exact Hstop].
  rewrite (afterLastNewline_app ws tail Hline). reflexivity.
Qed.

End SuggestionFacts.

(** X23: for a comment body that holds, after a text without backquote,
    a suggestion block whose code has no closing fence inside and a first
    line that is not blank, [ParseSuggestion] returns the code without its
    trailing newlines. White space after the opening fence, blank lines
    before the code among it, is dropped; the indentation of the first
    line is kept. *)
Theorem suggestion_round_trip (before ws indent rest after : string) (c : ascii) :
  noBackquote before = true ->
  allOf isSpace ws = true ->
  allOf isSpace indent = true -> oneLine indent = true ->
  isSpace c = false ->
  hasFence (indent ++ String c rest) = false ->
  Parser.ParseSuggestion
    (before ++ Parser.opening ++ ws ++ nl ++ (indent ++ String c rest) ++ nl
     ++ Parser.fence ++ after)
  = Parser.TrimRight (indent ++ String c rest).
Proof.
  intros Hb Hws Hi Hl Hc Hf. unfold Parser.ParseSuggestion.
  rewrite (FindStringSubmatch_skip before _ Hb).
  assert (E : Parser.opening ++ ws ++ nl ++ (indent ++ String c rest) ++ nl
              ++ Parser.fence ++ after
              = Parser.opening ++ ws ++ nl ++ indent
                ++ (String c rest ++ nl ++ Parser.fence ++ after)).
  { rewrite !append_assoc. reflexivity. }
  rewrite E.
  assert (M : Parser.matchSuggestion
                (Parser.opening ++ ws ++ nl ++ indent
                 ++ (String c rest ++ nl ++ Parser.fence ++ after))
              = Some ((indent ++ String c rest) ++ nl, after)).
  { rewrite (matchSuggestion_block ws indent _ Hws Hi Hl) by exact Hc.
    rewrite <- (untilFence_closed (indent ++ String c rest) after Hf).
    rewrite !append_assoc. reflexivity. }
  destruct (Parser.opening ++ ws ++ nl ++ indent
            ++ (String c rest ++ nl ++ Parser.fence ++ after)) as [|x s] eqn:Es;
    [discriminate M|].
  cbn [Parser.FindStringSubmatch]. rewrite M.
  apply TrimRight_newline.
Qed.

Lemma suggestion_round_trip_witness :
  Parser.ParseSuggestion
    ("Better:" ++ nl ++ Parser.opening ++ EmptyString ++ nl
     ++ ("  " ++ String "x" " := 1") ++ nl ++ Parser.fence ++ " thanks")
  = "  x := 1".
Proof.
  exact (suggestion_round_trip ("Better:" ++ nl) EmptyString "  " " := 1"
           " thanks" "x" eq_refl eq_refl eq_refl eq_refl eq_refl eq_refl).
Defined.

(** X24: a suggestion block whose content is blank, as the empty block
    that proposes to delete the lines is, gives the empty string, which
    is also what [ParseSuggestion] returns for a body without
    suggestion. *)
Theorem blank_suggestion_is_empty (before ws after : string) :
  noBackquote before = true ->
  allOf isSpace ws = true ->
  Parser.ParseSuggestion
    (before ++ Parser.opening ++ ws ++ nl ++ Parser.fence ++ after)
  = EmptyString
  /\ Parser.ParseSuggestion before = EmptyString.
Proof.
  intros Hb Hws. unfold Parser.ParseSuggestion. split.
  - rewrite (FindStringSubmatch_skip before _ Hb).
    assert (M : Parser.matchSuggestion
                  (Parser.opening ++ ws ++ nl ++ Parser.fence ++ after)
                = Some (EmptyString, after)).
    { change (Parser.opening ++ ws ++ nl ++ Parser.fence ++ after)
        with (Parser.opening ++ ws ++ nl ++ EmptyString ++ Parser.fence ++ after).
      rewrite (matchSuggestion_block ws EmptyString _ Hws) by reflexivity.
      reflexivity. }
    destruct (Parser.opening ++ ws ++ nl ++ Parser.fence ++ after) as [|x s] eqn:Es;
      [discriminate M|].
    cbn [Parser.FindStringSubmatch]. rewrite M. reflexivity.
  - rewrite <- (append_nil_r before) at 1.
    rewrite (FindStringSubmatch_skip before EmptyString Hb). reflexivity.
Qed.

Lemma blank_suggestion_is_empty_witness :
  Parser.ParseSuggestion
    ("Remove this." ++ nl ++ Parser.opening ++ EmptyString ++ nl ++ Parser.fence
     ++ EmptyString)
  = EmptyString
  /\ Parser.ParseSuggestion ("Remove this." ++ nl) = EmptyString.
Proof.
  apply (blank_suggestion_is_empty ("Remove this." ++ nl) EmptyString EmptyString);
    reflexivity.
Defined.

Section TrimmedSuggestion.
Import Parser.

Lemma TrimRight_length (s : string) :
  (String.length (TrimRight s) <= String.length s)%nat.
Proof.
  induction s as [|c s IH]; [apply Nat.le_refl|].
  cbn [TrimRight]. destruct (TrimRight s) as [|d t].
  - destruct (Ascii.eqb c newline); cbn [String.length]; lia.
  - cbn [String.length] in *. lia.
Qed.

Lemma TrimRight_idempotent (s : string) : TrimRight (TrimRight s) = TrimRight s.
Proof.
  induction s as [|c s IH]; [reflexivity|].
  cbn [TrimRight]. destruct (TrimRight s) as [|d t] eqn:E.
  - destruct (Ascii.eqb c newline) eqn:Hc; [reflexivity|].
    cbn [TrimRight]. rewrite Hc. reflexivity.
  - change (TrimRight (String c (String d t)))
      with (match TrimRight (String d t) with
            | EmptyString =>
                if Ascii.eqb c newline then EmptyString else String c EmptyString
            | String d' t' => String c (String d' t')
            end).
    rewrite IH. reflexivity.
Qed.

(** What [TrimRight] returns does not end with a newline. *)
Lemma TrimRight_no_newline (s t : string) : TrimRight s <> t ++ nl.
Proof.
  intros E.
  pose proof (TrimRight_idempotent s) as Hi.
  rewrite E, TrimRight_newline in Hi.
  pose proof (TrimRight_length t) as Hl. rewrite Hi in Hl.
  rewrite string_length_app in Hl. cbn [String.length nl] in Hl. lia.
Qed.

Lemma TrimSuffix_unchanged (s : string) :
  (forall t, s <> t ++ nl) -> TrimSuffix s = s.
Proof.
  induction s as [|c s IH]; intros H; [reflexivity|].
  cbn [TrimSuffix]. destruct s as [|d s].
  - destruct (Ascii.eqb c newline) eqn:Hc; [|reflexivity].
    apply Ascii.eqb_eq in Hc. subst c. exfalso. apply (H EmptyString). reflexivity.
  - f_equal. apply IH. intros t E. apply (H (String c t)).
    cbn [append]. rewrite E. reflexivity.
Qed.

End TrimmedSuggestion.

(** X25: whatever the comment body, the code [ParseSuggestion] returns
    does not end with a newline; so the trimming of one trailing newline
    in [createPatch] leaves it as it is, and the replacement lines of the
    patch are the lines of the code returned. *)
Theorem parsed_suggestion_is_trimmed (body : string) :
  (forall t, Parser.ParseSuggestion body <> t ++ nl)
  /\ suggestionLinesOf (Parser.ParseSuggestion body)
     = Split (Parser.ParseSuggestion body).
Proof.
  assert (H : forall t, Parser.ParseSuggestion body <> t ++ nl).
  { intros t. unfold Parser.ParseSuggestion.
    destruct (Parser.FindStringSubmatch body) as [[code rest]|].
    - apply TrimRight_no_newline.
    - destruct t; discriminate. }
  split; [exact H|].
  unfold suggestionLinesOf. rewrite (TrimSuffix_unchanged _ H). reflexivity.
Qed.

(** ** Text before the first hunk *)

Section Heading.

Lemma findHunkStarts_shift (k : nat) (s : string) :
  forall pos bol skip,
    findHunkStarts s (pos + k) bol skip
    = map (fun i => (i + k)%nat) (findHunkStarts s pos bol skip).
Proof.
  induction s as [|c s IH]; intros pos bol skip; [reflexivity|].
  cbn [findHunkStarts]. destruct skip as [|skip].
  - destruct bol.
    + destruct (matchHunkStart (String c s)) as [n|].
      * cbn [map]. f_equal. apply (IH (S pos)).
      * apply (IH (S pos)).
    + apply (IH (S pos)).
  - apply (IH (S pos)).
Qed.

Lemma substring_shift (a b : string) (n m : nat) :
  String.substring (n + String.length a) m (a ++ b) = String.substring n m b.
Proof.
  induction a as [|c a IH].
  - cbn [String.length append]. rewrite Nat.add_0_r. reflexivity.
  - cbn [String.length append].
    replace (n + S (String.length a))%nat with (S (n + String.length a)) by lia.
    cbn [String.substring]. exact IH.
Qed.

Lemma hunkSlices_shift (a b : string) (starts : list nat) :
  hunkSlices (a ++ b) (map (fun i => (i + String.length a)%nat) starts)
  = hunkSlices b starts.
Proof.
  induction starts as [|start more IH]; [reflexivity|].
  cbn [map hunkSlices]. rewrite IH. f_equal.
  rewrite substring_shift. f_equal.
  destruct more as [|next more]; cbn [map].
  - rewrite string_length_app. lia.
  - lia.
Qed.

(** Lines that do not start with [@] are passed over. *)
Lemma findHunkStarts_heading (heading : list string) (rest : string) :
  Forall (fun line => oneLine line = true /\ stopsAt (Ascii.eqb "@") line) heading ->
  forall pos,
    findHunkStarts (prefixed EmptyString heading ++ rest) pos true 0
    = findHunkStarts rest (pos + String.length (prefixed EmptyString heading)) true 0.
Proof.
  intros H. induction H as [|line more [Hline Hat] _ IH]; intros pos.
  - cbn [prefixed append String.length]. rewrite Nat.add_0_r. reflexivity.
  - cbn [prefixed]. rewrite !append_assoc.
    change (EmptyString ++ line ++ nl ++ prefixed EmptyString more ++ rest)
      with (line ++ nl ++ prefixed EmptyString more ++ rest).
    rewrite (findHunkStarts_line line _ Hat Hline), IH.
    f_equal. change (EmptyString ++ line ++ nl) with (line ++ nl).
    rewrite !string_length_app. cbn [String.length nl]. lia.
Qed.

End Heading.

(** X26: lines before the first hunk that do not start with [@], such as
    the three heading lines [createPatch] writes, play no part:
    [ParsePatch] returns for the text with them what it returns for the
    text without them. *)
Theorem heading_is_ignored (heading : list string) (patch : string) :
  Forall (fun line => oneLine line = true /\ stopsAt (Ascii.eqb "@") line) heading ->
  ParsePatch (prefixed EmptyString heading ++ patch) = ParsePatch patch.
Proof.
  intros H. unfold ParsePatch.
  rewrite (findHunkStarts_heading heading patch H 0).
  rewrite (findHunkStarts_shift (String.length (prefixed EmptyString heading)) patch 0).
  destruct (findHunkStarts patch 0 true 0) as [|start more]; [reflexivity|].
  cbn [map].
  change ((start + String.length (prefixed EmptyString heading))%nat
          :: map (fun i => (i + String.length (prefixed EmptyString heading))%nat) more)
    with (map (fun i => (i + String.length (prefixed EmptyString heading))%nat)
              (start :: more)).
  rewrite hunkSlices_shift. reflexivity.
Qed.

Lemma heading_is_ignored_witness :
  Forall (fun line => oneLine line = true /\ stopsAt (Ascii.eqb "@") line)
         ["diff --git a/main.go b/main.go"; "--- a/main.go"; "+++ b/main.go"]
  /\ ParsePatch
       (prefixed EmptyString
          ["diff --git a/main.go b/main.go"; "--- a/main.go"; "+++ b/main.go"]
        ++ twoHunkPatch)
     = Ok twoHunkParsed.
Proof.
  assert (H : Forall (fun line => oneLine line = true /\ stopsAt (Ascii.eqb "@") line)
                ["diff --git a/main.go b/main.go"; "--- a/main.go"; "+++ b/main.go"])
    by (repeat constructor).
  split; [exact H|].
  rewrite (heading_is_ignored _ twoHunkPatch H). reflexivity.
Defined.

(** ** The candidate of Strategy 1 *)

Section DeclaredTarget.

Lemma numbered_add_number (before : list DiffLine) :
  forall o n line after,
    numbered (before ++ line :: after) o n = true ->
    Type_ line = Add ->
    NewLineNumber line = n + newCount before.
Proof.
  induction before as [|b before IH]; intros o n line after Hnum Hk.
  - cbn [app numbered] in Hnum. rewrite Hk in Hnum.
    apply andb_true_iff in Hnum. destruct Hnum as [Hn _].
    apply Z.eqb_eq in Hn. unfold newCount, GoInt.len. simpl. lia.
  - rewrite newCount_cons. cbn [app numbered] in Hnum. unfold onNewSide.
    destruct (Type_ b).
    + apply andb_true_iff in Hnum. destruct Hnum as [_ Hnum].
      rewrite (IH _ _ line after Hnum Hk). lia.
    + apply andb_true_iff in Hnum. destruct Hnum as [_ Hnum].
      rewrite (IH _ _ line after Hnum Hk). lia.
    + apply andb_true_iff in Hnum. destruct Hnum as [_ Hnum].
      rewrite (IH _ _ line after Hnum Hk). lia.
    + rewrite (IH _ _ line after Hnum Hk). lia.
Qed.

Lemma firstAdded_app (before : list DiffLine) (line : DiffLine)
    (after : list DiffLine) :
  textsOf Add before = [] -> Type_ line = Add ->
  firstAdded (before ++ line :: after) = GetZeroBased (NewLineNumber line).
Proof.
  unfold textsOf. intros Hb Hk.
  induction before as [|b before IH].
  - cbn [app firstAdded]. rewrite Hk. reflexivity.
  - cbn [app firstAdded]. cbn [filter map] in Hb.
    destruct (DiffChangeType_eqb (Type_ b) Add); [discriminate|].
    exact (IH Hb).
Qed.

End DeclaredTarget.

(** X27: for a hunk that parses, with known markers and line numbers
    within [int], Strategy 1 aims at the place the header declares: its
    candidate is the new start of the header plus the number of Context
    lines before the first Add line, minus one (and 0 when that is
    negative). The file itself is not looked at. *)
Theorem position_mapping_follows_header (hunk : string) (h : DiffHunk)
    (before : list DiffLine) (line : DiffLine) (after : list DiffLine) :
  ParseDiffHunk hunk = Ok h ->
  knownMarkers hunk = true ->
  OldStart h + oldCount (Lines h) <= GoInt.maxInt ->
  NewStart h + newCount (Lines h) <= GoInt.maxInt ->
  Lines h = (before ++ line :: after)%list ->
  Type_ line = Add ->
  textsOf Add before = [] ->
  positionMapping hunk = Z.max 0 (NewStart h + newCount before - 1).
Proof.
  intros Hp Hk Bo Bn El Hadd Hb.
  destruct (ParseDiffHunk_Ok hunk h Hp) as (header & body & Es & Elines & Ho & _ & Hn & _).
  assert (Hnum : numbered (Lines h) (OldStart h) (NewStart h) = true).
  { unfold knownMarkers in Hk. rewrite Es in Hk. cbn [tl] in Hk.
    rewrite Elines. apply parseLines_numbered; try assumption;
      try (unfold GoInt.minInt; lia); rewrite <- Elines; assumption. }
  rewrite El in Hnum.
  pose proof (numbered_add_number before _ _ line after Hnum Hadd) as Enum.
  pose proof (newCount_nonneg before) as Hc.
  assert (Hne : isEmpty hunk = false).
  { destruct hunk; [discriminate Hp | reflexivity]. }
  unfold positionMapping.
  rewrite Hne, Hp, El, (firstAdded_app before line after Hb Hadd), Enum.
  unfold GetZeroBased.
  destruct (NewStart h + newCount before =? 0) eqn:E0.
  - apply Z.eqb_eq in E0. lia.
  - apply Z.eqb_neq in E0.
    assert (Hle : NewStart h + newCount before <= GoInt.maxInt).
    { rewrite El in Bn. unfold newCount in *. rewrite filter_app, len_app in Bn.
      pose proof (len_nonneg (filter onNewSide (line :: after))). lia. }
    rewrite sub_small by (unfold GoInt.minInt; lia). lia.
Qed.

Lemma position_mapping_follows_header_witness :
  ParseDiffHunk reviewedHunk
  = Ok (mkDiffHunk 1 3 1 5
          [mkDiffLine Context 1 1 "a" 0; mkDiffLine Context 2 2 "b" 1;
           mkDiffLine Add (-1) 3 "TARGET1" 2; mkDiffLine Add (-1) 4 "TARGET2" 3;
           mkDiffLine Context 3 5 "c" 4])
  /\ knownMarkers reviewedHunk = true
  /\ positionMapping reviewedHunk = 2.
Proof.
  split; [reflexivity|]. split; [reflexivity|].
  exact (position_mapping_follows_header reviewedHunk _
           [mkDiffLine Context 1 1 "a" 0; mkDiffLine Context 2 2 "b" 1]
           (mkDiffLine Add (-1) 3 "TARGET1" 2)
           [mkDiffLine Add (-1) 4 "TARGET2" 3; mkDiffLine Context 3 5 "c" 4]
           eq_refl eq_refl ltac:(vm_compute; discriminate)
           ltac:(vm_compute; discriminate) eq_refl eq_refl eq_refl).
Defined.

(** ** The window and the header of the written patch *)

Section WrittenWindow.



End WrittenWindow.


